(** * A shallow embedding of the minesweeper engine (src/lib/index.ts)

    The engine keeps two parallel [number[][]] grids, indexed [[y][x]]:
    [mines] (the layout: -1 for a mine, otherwise the count of mined
    neighbours) and [blocks] (what the player sees).  Every method of the
    class [MineSweeper] becomes a function on the private data of the
    instance; a method that can throw returns a [result]. *)

From stdpp Require Import base numbers list.

Open Scope Z_scope.

(** ** Numbers, enumerations, errors *)

(** A JavaScript number, as far as the engine looks at it:
    [Number.isInteger] tells the integers from the other values, and
    [Int z] stands for the number whose value is the integer [z]. *)
Inductive number : Type :=
| Int (z : Z)
| NonInt.

Definition isInteger (n : number) : bool :=
  match n with Int _ => true | NonInt => false end.

(** The integer carried by a number that passed [Number.isInteger]. *)
Definition intOf (n : number) : Z :=
  match n with Int z => z | NonInt => 0 end.

(** The double nearest to an integer, ties to even.  A number is a double,
    with 53 bits of significand: every integer up to [2 ^ 53] is one, and
    from there on the doubles are the multiples of [2 ^ (Z.log2 a - 52)].
    A number is its own rounding; the product of two numbers is the rounding
    of their product.  (Past the largest double the source has [Infinity],
    which is above every number; the rounding written here is above every
    double too, so a comparison with a number comes out the same.) *)
Definition roundDouble (n : Z) : Z :=
  let a := Z.abs n in
  if a <? 2 ^ 53 then n
  else
    let u := 2 ^ (Z.log2 a - 52) in
    let q := a / u in
    let r := a mod u in
    let q' := if 2 * r <? u then q
              else if u <? 2 * r then q + 1
              else if Z.even q then q else q + 1 in
    Z.sgn n * (q' * u).
Arguments roundDouble : simpl never.

(** [EBlockStatus]: the negative codes stored in [blocks]; a revealed
    block holds its count 0..8 instead. *)
Module EBlockStatus.
Definition UNKNWON : Z := -1.
Definition MARKED : Z := -2.
Definition QUESTION : Z := -3.
Definition WRONG : Z := -4.
Definition MINE : Z := -5.
Definition DEAD : Z := -6.
End EBlockStatus.

Inductive EGameStatus : Type := PLAYING | WIN | FAILED.

Module EMarkStyle.
Inductive t : Type := UNMARKED | MINE | QUESTION.
End EMarkStyle.

Definition MINE_FLAG : Z := -1.

Inductive Error : Type :=
| INVALID_GAME_MAP
| TOO_MANY_MINES
| OUT_TO_BOUNDARY
| RangeError.

(** The outcome of a method: a value, a thrown [Error] (one of the three
    that the engine throws itself, or the [RangeError] of [new Array]), or
    [Stuck] when the
    model ran out of random draws or of recursion budget (no JavaScript
    outcome corresponds to it). *)
Inductive result (A : Type) : Type :=
| Ok (a : A)
| Throw (e : Error)
| Stuck.
Arguments Ok {A} a.
Arguments Throw {A} e.
Arguments Stuck {A}.

Definition bind {A B} (r : result A) (k : A -> result B) : result B :=
  match r with
  | Ok a => k a
  | Throw e => Throw e
  | Stuck => Stuck
  end.

Notation "'let*' x ':=' r 'in' k" := (bind r (fun x => k))
  (at level 10, x pattern, r at level 100, k at level 200).

Definition status_eqb (a b : EGameStatus) : bool :=
  match a, b with
  | PLAYING, PLAYING | WIN, WIN | FAILED, FAILED => true
  | _, _ => false
  end.

(** ** Grids *)

Abbreviation grid := (list (list Z)).

(** [m[y][x]].  Every read the engine makes is guarded by
    [_checkCoordinate] or by loop bounds, so the default (which stands for
    [undefined]) is never observed on a well-shaped grid. *)
Definition cell (m : grid) (x y : Z) : Z :=
  if (x <? 0) || (y <? 0) then 0
  else
    match m !! Z.to_nat y with
    | Some row => default 0 (row !! Z.to_nat x)
    | None => 0
    end.

(** [m[y][x] = v].  The engine writes only where [_checkCoordinate] holds
    or a loop over the board has led it, that is inside the grid. *)
Definition setCell (m : grid) (x y : Z) (v : Z) : grid :=
  alter (fun row => <[Z.to_nat x := v]> row) (Z.to_nat y) m.

(** [new Array(n)], its slots holding [v]: a [RangeError] unless [n] is an
    array length, an integer from 0 to [2 ^ 32 - 1]. *)
Definition newArray {A} (n : Z) (v : A) : result (list A) :=
  if (n <? 0) || (4294967295 <? n) then Throw RangeError
  else Ok (replicate (Z.to_nat n) v).

(** The loop of [restart] over the rows: each becomes [new Array(w)],
    filled with [v]. *)
Fixpoint fillRows (rows : grid) (w v : Z) : result grid :=
  match rows with
  | [] => Ok []
  | _ :: rows =>
    let* row := newArray w v in
    let* m := fillRows rows w v in
    Ok (row :: m)
  end.

(** [new Array(h)] whose rows are [new Array(w).fill(v)]. *)
Definition newGrid (h w : Z) (v : Z) : result grid :=
  let* rows := newArray h [] in
  fillRows rows w v.

(** ** State *)

Record IBlock : Type := mkBlock { X : Z; Y : Z }.

Record IContext : Type := mkContext {
  blocks : grid;
  mines : grid;
  unmarkedMines : Z;
  startedAt : Z;
  status : EGameStatus;
  unknowns : Z
}.

Record IPrivateData : Type := mkPrivate {
  context : IContext;
  height : Z;
  width : Z;
  mineQuantity : Z;
  showMinesOnlyOnFailed : bool
}.

Definition withContext (this : IPrivateData) (c : IContext) : IPrivateData :=
  {| context := c; height := height this; width := width this;
     mineQuantity := mineQuantity this;
     showMinesOnlyOnFailed := showMinesOnlyOnFailed this |}.

Definition withBlocks (c : IContext) (b : grid) : IContext :=
  {| blocks := b; mines := mines c; unmarkedMines := unmarkedMines c;
     startedAt := startedAt c; status := status c; unknowns := unknowns c |}.

Definition withMines (c : IContext) (m : grid) : IContext :=
  {| blocks := blocks c; mines := m; unmarkedMines := unmarkedMines c;
     startedAt := startedAt c; status := status c; unknowns := unknowns c |}.

Definition withUnmarkedMines (c : IContext) (n : Z) : IContext :=
  {| blocks := blocks c; mines := mines c; unmarkedMines := n;
     startedAt := startedAt c; status := status c; unknowns := unknowns c |}.

Definition withStatus (c : IContext) (s : EGameStatus) : IContext :=
  {| blocks := blocks c; mines := mines c; unmarkedMines := unmarkedMines c;
     startedAt := startedAt c; status := s; unknowns := unknowns c |}.

Definition withUnknowns (c : IContext) (n : Z) : IContext :=
  {| blocks := blocks c; mines := mines c; unmarkedMines := unmarkedMines c;
     startedAt := startedAt c; status := status c; unknowns := n |}.

(** [_this.context.blocks[y][x]] and [_this.context.mines[y][x]]. *)
Definition blockAt (this : IPrivateData) (x y : Z) : Z :=
  cell (blocks (context this)) x y.

Definition mineAt (this : IPrivateData) (x y : Z) : Z :=
  cell (mines (context this)) x y.

(** [_this.context.blocks[y][x] = v]. *)
Definition setBlock (this : IPrivateData) (x y v : Z) : IPrivateData :=
  withContext this
    (withBlocks (context this) (setCell (blocks (context this)) x y v)).

(** [_this.context.mines[y][x] = v]. *)
Definition setMine (this : IPrivateData) (x y v : Z) : IPrivateData :=
  withContext this
    (withMines (context this) (setCell (mines (context this)) x y v)).

(** ** Accessors *)

Definition getRestMineQuantity (this : IPrivateData) : Z :=
  unmarkedMines (context this).

Definition getStatus (this : IPrivateData) : EGameStatus :=
  status (context this).

Definition getHeight (this : IPrivateData) : Z := height this.
Definition getWidth (this : IPrivateData) : Z := width this.
Definition getMineQuantity (this : IPrivateData) : Z := mineQuantity this.

Definition getUsedTime (this : IPrivateData) (now : Z) : Z :=
  now - startedAt (context this).

Definition getMap (this : IPrivateData) : grid :=
  (fun row => row) <$> blocks (context this).

(** ** Coordinates *)

Definition _checkCoordinate (this : IPrivateData) (x y : number) : bool :=
  isInteger x && (0 <=? intOf x) && (intOf x <? width this) &&
  isInteger y && (0 <=? intOf y) && (intOf y <? height this).

Definition getBlock (this : IPrivateData) (x y : number) : result Z :=
  if negb (_checkCoordinate this x y) then Throw OUT_TO_BOUNDARY
  else Ok (blockAt this (intOf x) (intOf y)).

(** The rows [y-1 .. y+1], each scanned over the columns [x-1 .. x+1]. *)
Definition _findBlocksAround (this : IPrivateData) (x y : Z) : list IBlock :=
  cY ← seqZ (y - 1) 3;
  cX ← seqZ (x - 1) 3;
  if ((x =? cX) && (y =? cY)) || negb (_checkCoordinate this (Int cX) (Int cY))
  then []
  else [mkBlock cX cY].

(** ** Win and loss resolution *)

(** The body of the double loop of [_checkWin], columns outside, rows inside. *)
Definition flagMine (this : IPrivateData) (b : IBlock) : IPrivateData :=
  if mineAt this (X b) (Y b) =? -1
  then setBlock this (X b) (Y b) EBlockStatus.MARKED
  else this.

Definition _checkWin (this : IPrivateData) : IPrivateData :=
  if unknowns (context this) =? unmarkedMines (context this) then
    let this1 := withContext this (withStatus (context this) WIN) in
    let this2 := withContext this1 (withUnmarkedMines (context this1) 0) in
    let this3 := withContext this2 (withUnknowns (context this2) 0) in
    foldl flagMine this3
      (x ← seqZ 0 (width this); y ← seqZ 0 (height this); [mkBlock x y])
  else this.

(** The [switch] of [_die] on one block. *)
Definition dieBlock (this : IPrivateData) (b : IBlock) : IPrivateData :=
  let blk := blockAt this (X b) (Y b) in
  if blk =? EBlockStatus.MARKED then
    if negb (mineAt this (X b) (Y b) =? MINE_FLAG)
    then setBlock this (X b) (Y b) EBlockStatus.WRONG
    else this
  else if (blk =? EBlockStatus.QUESTION) || (blk =? EBlockStatus.UNKNWON) then
    if mineAt this (X b) (Y b) =? MINE_FLAG
    then setBlock this (X b) (Y b) EBlockStatus.MINE
    else if negb (showMinesOnlyOnFailed this)
    then setBlock this (X b) (Y b) (mineAt this (X b) (Y b))
    else this
  else this.

Definition _die (this : IPrivateData) (x y : Z) : IPrivateData :=
  let this1 := withContext this (withStatus (context this) FAILED) in
  let this2 := setBlock this1 x y EBlockStatus.DEAD in
  foldl dieBlock this2
    (y ← seqZ 0 (height this); x ← seqZ 0 (width this); [mkBlock x y]).

(** ** Flood fill *)

(** One round of the first loop of [_cleanBlock]: the state and [nextBlks]. *)
Definition revealBlock (acc : IPrivateData * list IBlock) (b : IBlock)
  : IPrivateData * list IBlock :=
  let '(this, nextBlks) := acc in
  if negb (blockAt this (X b) (Y b) =? EBlockStatus.UNKNWON) then acc
  else
    let this1 := setBlock this (X b) (Y b) (mineAt this (X b) (Y b)) in
    let this2 :=
      withContext this1
        (withUnknowns (context this1) (unknowns (context this1) - 1)) in
    if mineAt this2 (X b) (Y b) =? 0
    then (this2, nextBlks ++ [b])
    else (this2, nextBlks).

(** [_cleanBlock], with the depth of the recursion bounded by [fuel]. *)
Fixpoint _cleanBlock (fuel : nat) (this : IPrivateData) (x y : Z)
  : option IPrivateData :=
  match fuel with
  | O => None
  | S fuel =>
    if negb (_checkCoordinate this (Int x) (Int y)) then Some this
    else if negb (mineAt this x y =? 0) then Some this
    else
      let blks := _findBlocksAround this x y in
      let '(this1, nextBlks) := foldl revealBlock (this, []) blks in
      foldl (fun acc b =>
               match acc with
               | Some this2 => _cleanBlock fuel this2 (X b) (Y b)
               | None => None
               end)
            (Some this1) nextBlks
  end.

(** A recursion budget that no board can use up: one level per block. *)
Definition cleanFuel (this : IPrivateData) : nat :=
  S (Z.to_nat (height this * width this)).

(** ** Player actions *)

(** The three statements of a branch of [mark] that moves the counters:
    [unmarkedMines] and [unknowns] both go up or both go down by one, then
    [blocks[y][x] = v]. *)
Definition markTo (this : IPrivateData) (x y : Z) (dCount : Z) (v : Z)
  : IPrivateData :=
  let this1 :=
    withContext this
      (withUnmarkedMines (context this) (unmarkedMines (context this) + dCount)) in
  let this2 :=
    withContext this1
      (withUnknowns (context this1) (unknowns (context this1) + dCount)) in
  setBlock this2 x y v.

Definition mark (this : IPrivateData) (x y : number) (style : EMarkStyle.t)
  : result (bool * IPrivateData) :=
  if negb (status_eqb (status (context this)) PLAYING) then Ok (false, this)
  else
    let* blk := getBlock this x y in
    let x := intOf x in
    let y := intOf y in
    if blk =? EBlockStatus.MARKED then
      let this1 :=
        match style with
        | EMarkStyle.MINE => this
        | EMarkStyle.UNMARKED => markTo this x y 1 EBlockStatus.UNKNWON
        | EMarkStyle.QUESTION => markTo this x y 1 EBlockStatus.QUESTION
        end in
      Ok (true, _checkWin this1)
    else if blk =? EBlockStatus.QUESTION then
      let this1 :=
        match style with
        | EMarkStyle.MINE => markTo this x y (-1) EBlockStatus.MARKED
        | EMarkStyle.UNMARKED => setBlock this x y EBlockStatus.UNKNWON
        | EMarkStyle.QUESTION => this
        end in
      Ok (true, _checkWin this1)
    else if blk =? EBlockStatus.UNKNWON then
      let this1 :=
        match style with
        | EMarkStyle.MINE => markTo this x y (-1) EBlockStatus.MARKED
        | EMarkStyle.UNMARKED => this
        | EMarkStyle.QUESTION => setBlock this x y EBlockStatus.QUESTION
        end in
      Ok (true, _checkWin this1)
    else Ok (false, this).

Definition sweep (this : IPrivateData) (x y : number)
  : result (EGameStatus * IPrivateData) :=
  let* blk := getBlock this x y in
  if negb (status_eqb (status (context this)) PLAYING) ||
     negb (blk =? EBlockStatus.UNKNWON)
  then Ok (status (context this), this)
  else
    let x := intOf x in
    let y := intOf y in
    if mineAt this x y =? MINE_FLAG then
      let this1 := _die this x y in
      Ok (status (context this1), this1)
    else
      let this1 := setBlock this x y (mineAt this x y) in
      match _cleanBlock (cleanFuel this1) this1 x y with
      | None => Stuck
      | Some this2 =>
        let this3 :=
          withContext this2
            (withUnknowns (context this2) (unknowns (context this2) - 1)) in
        let this4 := _checkWin this3 in
        Ok (status (context this4), this4)
      end.

(** The [for (const b of blks)] loop of [explore], with its early
    [return]; the value that [this.sweep] returns is dropped, the state it
    leaves is kept. *)
Fixpoint exploreLoop (this : IPrivateData) (blks : list IBlock)
  : result (EGameStatus * IPrivateData) :=
  match blks with
  | [] => Ok (status (context this), this)
  | b :: blks =>
    let* this1 :=
      (if blockAt this (X b) (Y b) =? EBlockStatus.UNKNWON
       then let* r := sweep this (Int (X b)) (Int (Y b)) in Ok (snd r)
       else Ok this) in
    if negb (status_eqb (status (context this1)) PLAYING)
    then Ok (status (context this1), this1)
    else exploreLoop this1 blks
  end.

Definition explore (this : IPrivateData) (x y : number)
  : result (EGameStatus * IPrivateData) :=
  let* blk := getBlock this x y in
  if negb (status_eqb (status (context this)) PLAYING) || (blk <? 0)
  then Ok (status (context this), this)
  else
    let x := intOf x in
    let y := intOf y in
    let blks := _findBlocksAround this x y in
    let marks :=
      foldl (fun p b =>
               p + (if blockAt this (X b) (Y b) =? EBlockStatus.MARKED
                    then 1 else 0))
            0 blks in
    if marks >=? mineAt this x y
    then exploreLoop this blks
    else Ok (status (context this), this).

(** ** Board generation *)

(** The body of the double loop that follows the placement of one mine. *)
Definition bumpCount (this : IPrivateData) (ij : Z * Z) : IPrivateData :=
  let '(i, j) := ij in
  if negb (_checkCoordinate this (Int j) (Int i)) || (mineAt this j i =? MINE_FLAG)
  then this
  else setMine this j i (mineAt this j i + 1).

(** The [while (mines)] loop of [restart].  [draws] are the successive
    values of [(Math.floor(Math.random() * height),
    Math.floor(Math.random() * width))]; [None] when they run out before
    the loop ends. *)
Fixpoint putMines (this : IPrivateData) (mines : Z) (draws : list (Z * Z))
  : option IPrivateData :=
  if mines =? 0 then Some this
  else
    match draws with
    | [] => None
    | (y, x) :: draws =>
      if mineAt this x y =? MINE_FLAG then putMines this mines draws
      else
        let this1 := setMine this x y MINE_FLAG in
        let this2 :=
          foldl bumpCount this1
            (i ← seqZ (y - 1) 3; j ← seqZ (x - 1) 3; [(i, j)]) in
        putMines this2 (mines - 1) draws
    end.

(** [restart]; [now] is the value of [Date.now()].  The two grids are
    built first: a [RangeError] of [new Array] ends the call there.  (The
    one for the height is thrown before the context is replaced, the one for
    the width after; the second is met only under the constructor, whose
    object is then never handed out.)  [unknowns] is written as the exact
    product of the dimensions, which is the number the source computes
    while the board has at most [2 ^ 53] blocks. *)
Definition restart (this : IPrivateData) (now : Z) (draws : list (Z * Z))
  : result IPrivateData :=
  let* blocks0 := newGrid (height this) (width this) EBlockStatus.UNKNWON in
  let* mines0 := newGrid (height this) (width this) 0 in
  let ctx :=
    {| blocks := blocks0;
       mines := mines0;
       unmarkedMines := mineQuantity this;
       startedAt := now;
       status := PLAYING;
       unknowns := height this * width this |} in
  match putMines (withContext this ctx) (mineQuantity this) draws with
  | Some this1 => Ok this1
  | None => Stuck
  end.

(** The context before the first [restart] ([null as any] in the source). *)
Definition nullContext : IContext :=
  {| blocks := []; mines := []; unmarkedMines := 0; startedAt := 0;
     status := PLAYING; unknowns := 0 |}.

(** [new MineSweeper(height, width, mineQuantity, showMinesOnlyOnFailed)].
    [width * height] is a product of numbers, hence rounded; [mineQuantity]
    is a number, hence its own rounding. *)
Definition createMineSweeper (height width mineQuantity : number)
    (showMinesOnlyOnFailed : bool) (now : Z) (draws : list (Z * Z))
  : result IPrivateData :=
  if negb (isInteger width) || negb (isInteger height) ||
     negb (isInteger mineQuantity) || (intOf mineQuantity <? 1) ||
     (intOf height <? 2) || (intOf mineQuantity <? 2)
  then Throw INVALID_GAME_MAP
  else if roundDouble (intOf mineQuantity) >=?
          roundDouble (intOf width * intOf height)
  then Throw TOO_MANY_MINES
  else
    restart {| context := nullContext; height := intOf height;
               width := intOf width; mineQuantity := intOf mineQuantity;
               showMinesOnlyOnFailed := showMinesOnlyOnFailed |}
            now draws.

(** * Numbers: rounding to a double *)

(** Rounding to a multiple of [u], ties to even. *)
Definition roundTo (u a : Z) : Z :=
  let q := a / u in
  let r := a mod u in
  (if 2 * r <? u then q
   else if u <? 2 * r then q + 1
   else if Z.even q then q else q + 1) * u.

Lemma roundDouble_small n : Z.abs n <= 2 ^ 53 -> roundDouble n = n.
Proof.
  intros H. unfold roundDouble.
  destruct (Z.ltb_spec (Z.abs n) (2 ^ 53)) as [|Hge]; [reflexivity|].
  assert (Z.abs n = 2 ^ 53) as E by lia. rewrite E.
  destruct (Z.abs_spec n) as [[_ E']|[_ E']]; rewrite E' in E.
  - subst n. reflexivity.
  - assert (n = - 2 ^ 53) as -> by lia. reflexivity.
Qed.

Lemma roundDouble_big n :
  2 ^ 53 <= n -> roundDouble n = roundTo (2 ^ (Z.log2 n - 52)) n.
Proof.
  intros H. unfold roundDouble, roundTo.
  assert (0 < 2 ^ 53) by (apply Z.pow_pos_nonneg; lia).
  rewrite (Z.abs_eq n) by lia.
  destruct (Z.ltb_spec n (2 ^ 53)); [lia|].
  rewrite (Z.sgn_pos n) by lia. lia.
Qed.

Lemma roundTo_mono u a b :
  0 < u -> a <= b -> roundTo u a <= roundTo u b.
Proof.
  intros Hu Hab. unfold roundTo.
  pose proof (Z.div_mod a u ltac:(lia)) as Ea.
  pose proof (Z.div_mod b u ltac:(lia)) as Eb.
  pose proof (Z.mod_pos_bound a u Hu) as Ha.
  pose proof (Z.mod_pos_bound b u Hu) as Hb.
  pose proof (Z.div_le_mono a b u Hu Hab) as Hq.
  set (qa := a / u) in *. set (qb := b / u) in *.
  set (ra := a mod u) in *. set (rb := b mod u) in *.
  destruct (Z.eq_dec qa qb) as [E|E].
  - rewrite <- E in *. assert (ra <= rb) by nia.
    destruct (Z.ltb_spec (2 * ra) u), (Z.ltb_spec (2 * rb) u),
      (Z.ltb_spec u (2 * ra)), (Z.ltb_spec u (2 * rb)),
      (Z.even qa); nia.
  - assert (qa + 1 <= qb) by lia.
    destruct (Z.ltb_spec (2 * ra) u), (Z.ltb_spec (2 * rb) u),
      (Z.ltb_spec u (2 * ra)), (Z.ltb_spec u (2 * rb)),
      (Z.even qa), (Z.even qb); nia.
Qed.

Lemma roundDouble_binade n :
  2 ^ 53 <= n ->
  2 ^ Z.log2 n <= roundDouble n <= 2 ^ (Z.log2 n + 1).
Proof.
  intros H. rewrite (roundDouble_big n H).
  assert (0 < 2 ^ 53) by (apply Z.pow_pos_nonneg; lia).
  assert (53 <= Z.log2 n) as Hk.
  { change 53 with (Z.log2 (2 ^ 53)). apply Z.log2_le_mono. exact H. }
  destruct (Z.log2_spec n ltac:(lia)) as [Hlo Hhi].
  set (k := Z.log2 n) in *.
  assert (Eu : 2 ^ k = 2 ^ 52 * 2 ^ (k - 52)).
  { rewrite <- Z.pow_add_r by lia. f_equal. lia. }
  assert (Eu' : 2 ^ (k + 1) = 2 ^ 53 * 2 ^ (k - 52)).
  { rewrite <- Z.pow_add_r by lia. f_equal. lia. }
  replace (Z.succ k) with (k + 1) in Hhi by lia.
  assert (Hu : 0 < 2 ^ (k - 52)) by (apply Z.pow_pos_nonneg; lia).
  set (u := 2 ^ (k - 52)) in *.
  unfold roundTo.
  pose proof (Z.div_mod n u ltac:(lia)) as En.
  pose proof (Z.mod_pos_bound n u Hu) as Hr.
  assert (2 ^ 52 <= n / u) by (apply Z.div_le_lower_bound; lia).
  assert (n / u < 2 ^ 53) by (apply Z.div_lt_upper_bound; lia).
  rewrite Eu, Eu'.
  destruct (2 * (n mod u) <? u), (u <? 2 * (n mod u)), (Z.even (n / u));
    nia.
Qed.

Lemma roundDouble_mono a b :
  0 <= a <= b -> roundDouble a <= roundDouble b.
Proof.
  intros [Ha Hab].
  assert (0 < 2 ^ 53) by (apply Z.pow_pos_nonneg; lia).
  destruct (Z.lt_ge_cases b (2 ^ 53)) as [Hb|Hb].
  { rewrite !roundDouble_small by lia. exact Hab. }
  destruct (Z.lt_ge_cases a (2 ^ 53)) as [Ha'|Ha'].
  { rewrite (roundDouble_small a) by lia.
    pose proof (roundDouble_binade b Hb) as [Hlo _].
    assert (2 ^ 53 <= 2 ^ Z.log2 b); [|lia].
    apply Z.pow_le_mono_r; [lia|].
    change 53 with (Z.log2 (2 ^ 53)). apply Z.log2_le_mono. exact Hb. }
  pose proof (Z.log2_le_mono a b Hab) as Hk.
  destruct (Z.eq_dec (Z.log2 a) (Z.log2 b)) as [E|E].
  - rewrite (roundDouble_big a Ha'), (roundDouble_big b Hb), E.
    apply roundTo_mono; [|exact Hab].
    apply Z.pow_pos_nonneg; [lia|].
    assert (53 <= Z.log2 b); [|lia].
    change 53 with (Z.log2 (2 ^ 53)). apply Z.log2_le_mono. exact Hb.
  - pose proof (roundDouble_binade a Ha') as [_ Hhi].
    pose proof (roundDouble_binade b Hb) as [Hlo _].
    assert (2 ^ (Z.log2 a + 1) <= 2 ^ Z.log2 b); [|lia].
    apply Z.pow_le_mono_r; lia.
Qed.

Lemma roundDouble_nonpos n : n <= 0 -> roundDouble n <= 0.
Proof.
  intros H. unfold roundDouble.
  destruct (Z.ltb_spec (Z.abs n) (2 ^ 53)) as [|Hge]; [exact H|].
  assert (0 < 2 ^ 53) by (apply Z.pow_pos_nonneg; lia).
  assert (Hu : 0 <= 2 ^ (Z.log2 (Z.abs n) - 52)) by (apply Z.pow_nonneg; lia).
  set (u := 2 ^ (Z.log2 (Z.abs n) - 52)) in *.
  assert (Hq : 0 <= Z.abs n / u) by (apply Z_div_nonneg_nonneg; lia).
  rewrite (Z.sgn_neg n) by lia.
  destruct (2 * (Z.abs n mod u) <? u), (u <? 2 * (Z.abs n mod u)),
    (Z.even (Z.abs n / u)); nia.
Qed.

(** A number below a rounded product is below the product. *)
Lemma roundDouble_lt q p :
  0 <= q -> roundDouble q < roundDouble p -> q < p.
Proof.
  intros Hq Hlt. destruct (Z.lt_ge_cases q p) as [|Hge]; [assumption|].
  exfalso. destruct (Z.lt_ge_cases p 0) as [Hp|Hp].
  - pose proof (roundDouble_nonpos p ltac:(lia)).
    pose proof (roundDouble_mono 0 q ltac:(lia)) as H0.
    rewrite (roundDouble_small 0) in H0 by (simpl; lia). lia.
  - pose proof (roundDouble_mono p q ltac:(lia)). lia.
Qed.

(** * Grids: reading after writing, shapes *)

Definition shaped (h w : Z) (m : grid) : Prop :=
  length m = Z.to_nat h /\ Forall (fun row => length row = Z.to_nat w) m.

(** What [newGrid] returns: [h] rows of [w] times [v]. *)
Definition filledGrid (h w : Z) (v : Z) : grid :=
  replicate (Z.to_nat h) (replicate (Z.to_nat w) v).

(** The lengths that [new Array] accepts for a grid; the rows are made
    only if there is one. *)
Definition arraysOK (h w : Z) : bool :=
  (0 <=? h) && (h <=? 4294967295) &&
  ((h =? 0) || ((0 <=? w) && (w <=? 4294967295))).

Lemma newArray_spec {A} n (v : A) :
  newArray n v =
  if (0 <=? n) && (n <=? 4294967295) then Ok (replicate (Z.to_nat n) v)
  else Throw RangeError.
Proof.
  unfold newArray.
  destruct (Z.ltb_spec n 0), (Z.leb_spec 0 n); try lia;
    destruct (Z.ltb_spec 4294967295 n), (Z.leb_spec n 4294967295); try lia;
    reflexivity.
Qed.

Lemma fillRows_spec rows w v :
  fillRows rows w v =
  if bool_decide (rows = []) || ((0 <=? w) && (w <=? 4294967295))
  then Ok (replicate (length rows) (replicate (Z.to_nat w) v))
  else Throw RangeError.
Proof.
  induction rows as [|r rows IH]; [reflexivity|].
  cbn [fillRows length]. rewrite newArray_spec, IH.
  rewrite (bool_decide_eq_false_2 (r :: rows = [])) by discriminate.
  cbn [orb].
  destruct ((0 <=? w) && (w <=? 4294967295)); [|reflexivity].
  rewrite orb_true_r. reflexivity.
Qed.

Lemma newGrid_spec h w v :
  newGrid h w v =
  if arraysOK h w then Ok (filledGrid h w v) else Throw RangeError.
Proof.
  unfold newGrid, arraysOK, filledGrid. rewrite newArray_spec.
  destruct (Z.leb_spec 0 h) as [H0|]; [|reflexivity].
  destruct (Z.leb_spec h 4294967295); [|reflexivity].
  cbn [andb bind]. rewrite fillRows_spec, length_replicate.
  destruct (Z.eqb_spec h 0) as [->|Hne]; [reflexivity|].
  rewrite bool_decide_eq_false_2; [reflexivity|].
  intros E. apply (f_equal length) in E.
  rewrite length_replicate in E. simpl in E. lia.
Qed.

Lemma shaped_filledGrid h w v : shaped h w (filledGrid h w v).
Proof.
  split; [apply length_replicate|].
  apply Forall_replicate, length_replicate.
Qed.

Lemma cell_filledGrid h w v x y :
  0 <= x < w -> 0 <= y < h -> cell (filledGrid h w v) x y = v.
Proof.
  intros Hx Hy. unfold cell, filledGrid.
  destruct (Z.ltb_spec x 0), (Z.ltb_spec y 0); try lia. cbn [orb].
  rewrite lookup_replicate_2 by lia.
  rewrite lookup_replicate_2 by lia. reflexivity.
Qed.

Lemma shaped_setCell h w m x y v :
  shaped h w m -> shaped h w (setCell m x y v).
Proof.
  intros [Hl Hr]. unfold setCell. split.
  - rewrite length_alter. exact Hl.
  - apply Forall_alter; [exact Hr|].
    intros row _ Hrow. rewrite length_insert. exact Hrow.
Qed.

Lemma cell_setCell h w m x y v x' y' :
  shaped h w m -> 0 <= x < w -> 0 <= y < h -> 0 <= x' -> 0 <= y' ->
  cell (setCell m x y v) x' y' =
  if (x' =? x) && (y' =? y) then v else cell m x' y'.
Proof.
  intros [Hl Hr] Hx Hy Hx' Hy'. unfold cell, setCell.
  destruct (Z.ltb_spec x' 0), (Z.ltb_spec y' 0); try lia. cbn [orb].
  destruct (Z.eqb_spec y' y) as [->|Hne].
  - rewrite list_lookup_alter_eq.
    destruct (m !! Z.to_nat y) as [row|] eqn:Hrow.
    + simpl. rewrite Forall_lookup in Hr. specialize (Hr _ _ Hrow).
      destruct (Z.eqb_spec x' x) as [->|Hnx]; simpl.
      * rewrite list_lookup_insert_eq by lia. reflexivity.
      * rewrite list_lookup_insert_ne by lia. reflexivity.
    + apply lookup_ge_None in Hrow. lia.
  - rewrite list_lookup_alter_ne by lia.
    rewrite andb_false_r. reflexivity.
Qed.

Lemma setCell_same h w m x y :
  shaped h w m -> 0 <= x < w -> 0 <= y < h ->
  setCell m x y (cell m x y) = m.
Proof.
  intros [Hl Hr] Hx Hy. unfold setCell, cell.
  destruct (Z.ltb_spec x 0), (Z.ltb_spec y 0); try lia. cbn [orb].
  apply list_eq. intros i.
  destruct (decide (i = Z.to_nat y)) as [->|Hne].
  - rewrite list_lookup_alter_eq.
    destruct (m !! Z.to_nat y) as [row|] eqn:Hrow; [|reflexivity].
    simpl. f_equal. apply list_insert_id.
    rewrite Forall_lookup in Hr. specialize (Hr _ _ Hrow).
    destruct (row !! Z.to_nat x) eqn:Hc; [reflexivity|].
    apply lookup_ge_None in Hc. lia.
  - rewrite list_lookup_alter_ne by congruence. reflexivity.
Qed.

(** * The blocks of a board, and counting them *)

Global Instance IBlock_eq_dec : EqDecision IBlock.
Proof. solve_decision. Defined.

Global Instance EGameStatus_eq_dec : EqDecision EGameStatus.
Proof. solve_decision. Defined.

(** Row by row (the order of the loops of [_die]) and column by column
    (the order of the loops of [_checkWin]). *)
Definition byRows (h w : Z) : list IBlock :=
  y ← seqZ 0 h; x ← seqZ 0 w; [mkBlock x y].

Definition byColumns (h w : Z) : list IBlock :=
  x ← seqZ 0 w; y ← seqZ 0 h; [mkBlock x y].

Lemma elem_of_byRows h w b :
  b ∈ byRows h w <-> (0 <= X b < w /\ 0 <= Y b < h).
Proof.
  unfold byRows. rewrite list_elem_of_bind. split.
  - intros (y & Hb & Hy). apply list_elem_of_bind in Hb as (x & Hb & Hx).
    apply list_elem_of_singleton in Hb. subst b. simpl.
    apply elem_of_seqZ in Hx, Hy. lia.
  - intros [Hx Hy]. exists (Y b). split; [|apply elem_of_seqZ; lia].
    apply list_elem_of_bind. exists (X b). split; [|apply elem_of_seqZ; lia].
    destruct b. simpl. apply list_elem_of_singleton. reflexivity.
Qed.

Lemma elem_of_byColumns h w b :
  b ∈ byColumns h w <-> (0 <= X b < w /\ 0 <= Y b < h).
Proof.
  unfold byColumns. rewrite list_elem_of_bind. split.
  - intros (x & Hb & Hx). apply list_elem_of_bind in Hb as (y & Hb & Hy).
    apply list_elem_of_singleton in Hb. subst b. simpl.
    apply elem_of_seqZ in Hx, Hy. lia.
  - intros [Hx Hy]. exists (X b). split; [|apply elem_of_seqZ; lia].
    apply list_elem_of_bind. exists (Y b). split; [|apply elem_of_seqZ; lia].
    destruct b. simpl. apply list_elem_of_singleton. reflexivity.
Qed.

Lemma NoDup_byRows h w : NoDup (byRows h w).
Proof.
  unfold byRows. apply NoDup_bind; [| |apply NoDup_seqZ].
  - intros y1 y2 b _ _ H1 H2.
    apply list_elem_of_bind in H1 as (x1 & H1 & _).
    apply list_elem_of_bind in H2 as (x2 & H2 & _).
    apply list_elem_of_singleton in H1, H2. congruence.
  - intros y _. apply NoDup_bind; [| |apply NoDup_seqZ].
    + intros x1 x2 b _ _ H1 H2.
      apply list_elem_of_singleton in H1, H2. congruence.
    + intros x _. apply NoDup_singleton.
Qed.

Lemma NoDup_byColumns h w : NoDup (byColumns h w).
Proof.
  unfold byColumns. apply NoDup_bind; [| |apply NoDup_seqZ].
  - intros x1 x2 b _ _ H1 H2.
    apply list_elem_of_bind in H1 as (y1 & H1 & _).
    apply list_elem_of_bind in H2 as (y2 & H2 & _).
    apply list_elem_of_singleton in H1, H2. congruence.
  - intros x _. apply NoDup_bind; [| |apply NoDup_seqZ].
    + intros y1 y2 b _ _ H1 H2.
      apply list_elem_of_singleton in H1, H2. congruence.
    + intros y _. apply NoDup_singleton.
Qed.

Fixpoint countIf {A} (p : A -> bool) (l : list A) : Z :=
  match l with
  | [] => 0
  | a :: l => (if p a then 1 else 0) + countIf p l
  end.

Section CountIf.
Context {A : Type}.
Implicit Types (p q r s : A -> bool) (l : list A).

Lemma countIf_app p l k : countIf p (l ++ k) = countIf p l + countIf p k.
Proof. induction l as [|a l IH]; simpl; [reflexivity|]. rewrite IH. lia. Qed.

Lemma countIf_nonneg p l : 0 <= countIf p l.
Proof. induction l as [|a l IH]; simpl; [lia|]. destruct (p a); lia. Qed.

Lemma countIf_ext p q l :
  (forall a, a ∈ l -> p a = q a) -> countIf p l = countIf q l.
Proof.
  induction l as [|a l IH]; intros H; simpl; [reflexivity|].
  rewrite (H a) by apply list_elem_of_here.
  rewrite IH; [reflexivity|].
  intros b Hb. apply H. apply list_elem_of_further. exact Hb.
Qed.

Lemma countIf_zero p l :
  countIf p l = 0 <-> (forall a, a ∈ l -> p a = false).
Proof.
  induction l as [|a l IH]; simpl.
  - split; [|reflexivity]. intros _ a Ha. inversion Ha.
  - pose proof (countIf_nonneg p l) as Hn. split.
    + intros H b Hb. apply elem_of_cons in Hb as [->|Hb].
      * destruct (p a); [lia|reflexivity].
      * apply IH; [|exact Hb]. destruct (p a); lia.
    + intros H. rewrite (H a) by apply list_elem_of_here.
      apply proj2 in IH. rewrite IH; [reflexivity|].
      intros b Hb. apply H. apply list_elem_of_further. exact Hb.
Qed.

Lemma countIf_all p l :
  (forall a, a ∈ l -> p a = true) -> countIf p l = Z.of_nat (length l).
Proof.
  induction l as [|a l IH]; intros H; [reflexivity|].
  cbn [countIf length]. rewrite (H a) by apply list_elem_of_here.
  rewrite IH; [lia|].
  intros b Hb. apply H. apply list_elem_of_further. exact Hb.
Qed.

Lemma countIf_le p q l :
  (forall a, a ∈ l -> p a = true -> q a = true) ->
  countIf p l <= countIf q l.
Proof.
  induction l as [|a l IH]; intros H; simpl; [lia|].
  assert (countIf p l <= countIf q l) as Hle.
  { apply IH. intros b Hb. apply H. apply list_elem_of_further. exact Hb. }
  pose proof (H a (list_elem_of_here _ _)) as Ha.
  destruct (p a); [rewrite Ha by reflexivity; lia|].
  destruct (q a); lia.
Qed.

Lemma countIf_lt p q l c :
  (forall a, a ∈ l -> p a = true -> q a = true) ->
  c ∈ l -> p c = false -> q c = true ->
  countIf p l < countIf q l.
Proof.
  intros H Hc Hpc Hqc.
  apply list_elem_of_split in Hc as (l1 & l2 & ->).
  rewrite !countIf_app. simpl. rewrite Hpc, Hqc.
  assert (countIf p l1 <= countIf q l1).
  { apply countIf_le. intros a Ha. apply H. apply elem_of_app. left. exact Ha. }
  assert (countIf p l2 <= countIf q l2).
  { apply countIf_le. intros a Ha. apply H. apply elem_of_app. right.
    apply list_elem_of_further. exact Ha. }
  lia.
Qed.

(** The effect on a count of changing the predicate at one element. *)
Lemma countIf_update p q l c :
  NoDup l -> c ∈ l -> (forall a, a ∈ l -> a <> c -> q a = p a) ->
  countIf q l =
  countIf p l - (if p c then 1 else 0) + (if q c then 1 else 0).
Proof.
  intros Hnd Hc Hpq.
  apply list_elem_of_split in Hc as (l1 & l2 & ->).
  apply NoDup_app in Hnd as (_ & Hd & Hnd2).
  apply NoDup_cons in Hnd2 as [Hc2 _].
  rewrite !countIf_app. simpl.
  rewrite (countIf_ext q p l1), (countIf_ext q p l2); [lia| |].
  - intros a Ha. apply Hpq.
    + apply elem_of_app. right. apply list_elem_of_further. exact Ha.
    + intros ->. contradiction.
  - intros a Ha. apply Hpq.
    + apply elem_of_app. left. exact Ha.
    + intros ->. apply (Hd c Ha). apply list_elem_of_here.
Qed.

Lemma countIf_le_length p l : countIf p l <= Z.of_nat (length l).
Proof.
  induction l as [|a l IH]; [reflexivity|].
  cbn [countIf length]. destruct (p a); lia.
Qed.

Lemma countIf_pos p l c : c ∈ l -> p c = true -> 1 <= countIf p l.
Proof.
  intros Hc Hp. pose proof (countIf_nonneg p l) as Hn.
  destruct (Z.eq_dec (countIf p l) 0) as [E|E]; [|lia].
  rewrite (proj1 (countIf_zero p l) E c Hc) in Hp. discriminate.
Qed.

(** Counts add up when the indicators do. *)
Lemma countIf_add p q r l :
  (forall a, a ∈ l ->
     (if p a then 1 else 0 : Z) =
     (if q a then 1 else 0) + (if r a then 1 else 0)) ->
  countIf p l = countIf q l + countIf r l.
Proof.
  induction l as [|a l IH]; intros H; simpl; [reflexivity|].
  rewrite IH.
  - pose proof (H a (list_elem_of_here _ _)) as Ha. lia.
  - intros b Hb. apply H. apply list_elem_of_further. exact Hb.
Qed.

Lemma countIf_balance p q r s l :
  (forall a, a ∈ l ->
     (if p a then 1 else 0 : Z) + (if q a then 1 else 0) =
     (if r a then 1 else 0) + (if s a then 1 else 0)) ->
  countIf p l + countIf q l = countIf r l + countIf s l.
Proof.
  induction l as [|a l IH]; intros H; simpl; [reflexivity|].
  assert (countIf p l + countIf q l = countIf r l + countIf s l) as E.
  { apply IH. intros b Hb. apply H. apply list_elem_of_further. exact Hb. }
  pose proof (H a (list_elem_of_here _ _)) as Ha. lia.
Qed.
End CountIf.

Lemma length_byRows h w :
  Z.of_nat (length (byRows h w)) = Z.max 0 h * Z.max 0 w.
Proof.
  unfold byRows.
  assert (Hrow : forall y,
    length (seqZ 0 w ≫= (fun x => [mkBlock x y])) = Z.to_nat w).
  { intros y. rewrite <- (length_seqZ 0 w).
    induction (seqZ 0 w) as [|a l IH]; [reflexivity|].
    rewrite bind_cons, length_app, IH. reflexivity. }
  assert (Hall : forall l : list Z,
    length (l ≫= (fun y => seqZ 0 w ≫= (fun x => [mkBlock x y]))) =
    (length l * Z.to_nat w)%nat).
  { induction l as [|a l IH]; [reflexivity|].
    rewrite bind_cons, length_app, IH, Hrow. simpl. reflexivity. }
  rewrite Hall, length_seqZ. lia.
Qed.

(** A loop that rewrites each block of a duplicate-free list from its own
    former content rewrites the grid pointwise. *)
Section FoldCells.
Variables (h w : Z) (upd : IBlock -> Z -> Z).

Definition updCell (m : grid) (b : IBlock) : grid :=
  setCell m (X b) (Y b) (upd b (cell m (X b) (Y b))).

Lemma foldl_updCell l : forall m,
  shaped h w m -> NoDup l ->
  (forall b, b ∈ l -> 0 <= X b < w /\ 0 <= Y b < h) ->
  shaped h w (foldl updCell m l) /\
  forall x y, 0 <= x -> 0 <= y ->
    cell (foldl updCell m l) x y =
    if bool_decide (mkBlock x y ∈ l)
    then upd (mkBlock x y) (cell m x y) else cell m x y.
Proof.
  induction l as [|b l IH]; intros m Hm Hnd Hin; simpl.
  - split; [exact Hm|]. intros x y _ _. reflexivity.
  - apply NoDup_cons in Hnd as [Hb Hnd].
    destruct (Hin b (list_elem_of_here _ _)) as [Hbx Hby].
    assert (Hm' : shaped h w (updCell m b)) by (apply shaped_setCell; exact Hm).
    destruct (IH (updCell m b) Hm' Hnd) as [Hs Hc].
    { intros c Hcl. apply Hin. apply list_elem_of_further. exact Hcl. }
    split; [exact Hs|]. intros x y Hx Hy. rewrite (Hc x y Hx Hy).
    unfold updCell at 1 2.
    rewrite !(cell_setCell h w) by (assumption || lia).
    destruct (decide (mkBlock x y = b)) as [<-|Hne].
    + simpl. rewrite !Z.eqb_refl. simpl.
      rewrite (bool_decide_eq_false_2 _ Hb).
      rewrite bool_decide_eq_true_2 by apply list_elem_of_here.
      reflexivity.
    + assert ((x =? X b) && (y =? Y b) = false) as ->.
      { apply andb_false_iff. destruct b as [bx by']. simpl.
        destruct (Z.eqb_spec x bx), (Z.eqb_spec y by'); auto.
        subst. contradiction. }
      destruct (decide (mkBlock x y ∈ l)) as [Hl|Hl].
      * rewrite !bool_decide_eq_true_2;
          [reflexivity|apply list_elem_of_further; exact Hl|exact Hl].
      * rewrite !bool_decide_eq_false_2; [reflexivity| |exact Hl].
        intros Hc'. apply elem_of_cons in Hc' as [Hc'|Hc']; contradiction.
Qed.
End FoldCells.

(** * Well-shaped games and the canonical form of a successor state *)

Definition inB (this : IPrivateData) (x y : Z) : Prop :=
  0 <= x < width this /\ 0 <= y < height this.

Lemma checkCoordinate_Int this x y :
  _checkCoordinate this (Int x) (Int y) = true <-> inB this x y.
Proof.
  unfold _checkCoordinate, inB. simpl.
  rewrite !andb_true_iff, !Z.leb_le, !Z.ltb_lt. lia.
Qed.

Lemma checkCoordinate_Int_false this x y :
  _checkCoordinate this (Int x) (Int y) = false <-> ~ inB this x y.
Proof.
  rewrite <- checkCoordinate_Int.
  destruct (_checkCoordinate this (Int x) (Int y)); split; congruence.
Qed.

Lemma checkCoordinate_true this x y :
  _checkCoordinate this x y = true ->
  exists xi yi, x = Int xi /\ y = Int yi /\ inB this xi yi.
Proof.
  intros H. destruct x as [xi|], y as [yi|];
    try (unfold _checkCoordinate in H; simpl in H;
         rewrite ?andb_false_r in H; discriminate).
  exists xi, yi. split; [reflexivity|]. split; [reflexivity|].
  apply checkCoordinate_Int. exact H.
Qed.

Definition wf (this : IPrivateData) : Prop :=
  shaped (height this) (width this) (blocks (context this)) /\
  shaped (height this) (width this) (mines (context this)).

(** The state that differs from [this] in what play can change: the
    visible grid, the status and the two counters. *)
Definition update (this : IPrivateData) (m : grid) (st : EGameStatus)
    (um un : Z) : IPrivateData :=
  {| context :=
       {| blocks := m; mines := mines (context this); unmarkedMines := um;
          startedAt := startedAt (context this); status := st; unknowns := un |};
     height := height this; width := width this;
     mineQuantity := mineQuantity this;
     showMinesOnlyOnFailed := showMinesOnlyOnFailed this |}.

Lemma update_id this :
  update this (blocks (context this)) (status (context this))
    (unmarkedMines (context this)) (unknowns (context this)) = this.
Proof. destruct this as [[? ? ? ? ? ?] ? ? ? ?]. reflexivity. Qed.

Lemma foldl_update_loop this0 step upd st um un l :
  (forall m b, shaped (height this0) (width this0) m -> b ∈ l ->
     step (update this0 m st um un) b =
     update this0 (updCell upd m b) st um un) ->
  forall m, shaped (height this0) (width this0) m ->
    foldl step (update this0 m st um un) l =
    update this0 (foldl (updCell upd) m l) st um un.
Proof.
  induction l as [|b l IH]; intros Hstep m Hm; simpl; [reflexivity|].
  rewrite Hstep by (assumption || apply list_elem_of_here).
  apply IH.
  - intros m' b' Hm' Hb'. apply Hstep; [exact Hm'|].
    apply list_elem_of_further. exact Hb'.
  - apply shaped_setCell. exact Hm.
Qed.

(** ** [_checkWin] *)

Definition flagUpd (this : IPrivateData) (b : IBlock) (v : Z) : Z :=
  if mineAt this (X b) (Y b) =? -1 then EBlockStatus.MARKED else v.

Lemma checkWin_keep this :
  unknowns (context this) <> unmarkedMines (context this) ->
  _checkWin this = this.
Proof.
  intros H. unfold _checkWin.
  destruct (Z.eqb_spec (unknowns (context this)) (unmarkedMines (context this)));
    [contradiction|reflexivity].
Qed.

Lemma checkWin_win this :
  wf this ->
  unknowns (context this) = unmarkedMines (context this) ->
  exists m,
    _checkWin this = update this m WIN 0 0 /\
    shaped (height this) (width this) m /\
    forall x y, inB this x y ->
      cell m x y =
      if mineAt this x y =? -1 then EBlockStatus.MARKED else blockAt this x y.
Proof.
  intros [Hb Hm] Heq.
  exists (foldl (updCell (flagUpd this)) (blocks (context this))
            (byColumns (height this) (width this))).
  split; [|].
  - unfold _checkWin. rewrite Heq, Z.eqb_refl.
    change (withContext _ _) with
      (update this (blocks (context this)) WIN 0 0).
    apply (foldl_update_loop this flagMine (flagUpd this)); [|exact Hb].
    intros m b Hs Hin. apply elem_of_byColumns in Hin as [Hx Hy].
    unfold flagMine, updCell, flagUpd, mineAt. simpl.
    destruct (cell (mines (context this)) (X b) (Y b) =? -1); [reflexivity|].
    rewrite (setCell_same _ _ _ _ _ Hs Hx Hy). reflexivity.
  - destruct (foldl_updCell (height this) (width this) (flagUpd this)
                (byColumns (height this) (width this))
                (blocks (context this)) Hb (NoDup_byColumns _ _)) as [Hs Hc].
    { intros b Hin. apply elem_of_byColumns in Hin. exact Hin. }
    split; [exact Hs|]. intros x y [Hx Hy].
    rewrite Hc by lia.
    rewrite bool_decide_eq_true_2 by (apply elem_of_byColumns; simpl; lia).
    reflexivity.
Qed.

(** ** [_die] *)

Definition dieUpd (this : IPrivateData) (b : IBlock) (v : Z) : Z :=
  if v =? EBlockStatus.MARKED then
    if negb (mineAt this (X b) (Y b) =? MINE_FLAG) then EBlockStatus.WRONG else v
  else if (v =? EBlockStatus.QUESTION) || (v =? EBlockStatus.UNKNWON) then
    if mineAt this (X b) (Y b) =? MINE_FLAG then EBlockStatus.MINE
    else if negb (showMinesOnlyOnFailed this) then mineAt this (X b) (Y b)
    else v
  else v.

Lemma die_spec this x y :
  wf this -> inB this x y ->
  exists m,
    _die this x y =
      update this m FAILED (unmarkedMines (context this)) (unknowns (context this)) /\
    shaped (height this) (width this) m /\
    forall x' y', inB this x' y' ->
      cell m x' y' =
      dieUpd this (mkBlock x' y')
        (if (x' =? x) && (y' =? y) then EBlockStatus.DEAD else blockAt this x' y').
Proof.
  intros [Hb Hm] [Hx Hy].
  set (m0 := setCell (blocks (context this)) x y EBlockStatus.DEAD).
  assert (Hm0 : shaped (height this) (width this) m0)
    by (apply shaped_setCell; exact Hb).
  exists (foldl (updCell (dieUpd this)) m0 (byRows (height this) (width this))).
  split; [|].
  - unfold _die.
    change (setBlock _ x y EBlockStatus.DEAD) with
      (update this m0 FAILED (unmarkedMines (context this))
         (unknowns (context this))).
    apply (foldl_update_loop this dieBlock (dieUpd this)); [|exact Hm0].
    intros m b Hs Hin. apply elem_of_byRows in Hin as [Hbx Hby].
    unfold dieBlock, updCell, dieUpd, mineAt, blockAt. simpl.
    destruct (cell m (X b) (Y b) =? EBlockStatus.MARKED).
    + destruct (negb (cell (mines (context this)) (X b) (Y b) =? MINE_FLAG));
        [reflexivity|].
      rewrite (setCell_same _ _ _ _ _ Hs Hbx Hby). reflexivity.
    + destruct ((cell m (X b) (Y b) =? EBlockStatus.QUESTION) ||
                (cell m (X b) (Y b) =? EBlockStatus.UNKNWON)).
      * destruct (cell (mines (context this)) (X b) (Y b) =? MINE_FLAG);
          [reflexivity|].
        destruct (negb (showMinesOnlyOnFailed this)); [reflexivity|].
        rewrite (setCell_same _ _ _ _ _ Hs Hbx Hby). reflexivity.
      * rewrite (setCell_same _ _ _ _ _ Hs Hbx Hby). reflexivity.
  - destruct (foldl_updCell (height this) (width this) (dieUpd this)
                (byRows (height this) (width this)) m0 Hm0
                (NoDup_byRows _ _)) as [Hs Hc].
    { intros b Hin. apply elem_of_byRows in Hin. exact Hin. }
    split; [exact Hs|]. intros x' y' [Hx' Hy'].
    rewrite Hc by lia.
    rewrite bool_decide_eq_true_2 by (apply elem_of_byRows; simpl; lia).
    unfold m0. rewrite (cell_setCell (height this) (width this)) by (assumption || lia).
    reflexivity.
Qed.

(** * Neighbourhoods *)

(** The eight blocks around [(x, y)]. *)
Definition adj (x y x' y' : Z) : Prop :=
  x - 1 <= x' <= x + 1 /\ y - 1 <= y' <= y + 1 /\ (x' <> x \/ y' <> y).

Lemma elem_of_findBlocksAround this x y b :
  b ∈ _findBlocksAround this x y <->
  adj x y (X b) (Y b) /\ inB this (X b) (Y b).
Proof.
  unfold _findBlocksAround. rewrite list_elem_of_bind. split.
  - intros (cY & Hb & HcY). apply list_elem_of_bind in Hb as (cX & Hb & HcX).
    apply elem_of_seqZ in HcX, HcY.
    destruct ((x =? cX) && (y =? cY)) eqn:Hself; simpl in Hb; [inversion Hb|].
    destruct (_checkCoordinate this (Int cX) (Int cY)) eqn:Hin;
      simpl in Hb; [|inversion Hb].
    apply list_elem_of_singleton in Hb. subst b. simpl.
    apply checkCoordinate_Int in Hin.
    apply andb_false_iff in Hself. split; [|exact Hin].
    unfold adj. rewrite !Z.eqb_neq in Hself. lia.
  - intros [(Hx & Hy & Hne) Hin]. exists (Y b).
    split; [|apply elem_of_seqZ; lia].
    apply list_elem_of_bind. exists (X b). split; [|apply elem_of_seqZ; lia].
    assert ((x =? X b) && (y =? Y b) = false) as ->.
    { apply andb_false_iff. rewrite !Z.eqb_neq. lia. }
    apply checkCoordinate_Int in Hin. rewrite Hin. simpl.
    destruct b. apply list_elem_of_singleton. reflexivity.
Qed.

Lemma NoDup_findBlocksAround this x y : NoDup (_findBlocksAround this x y).
Proof.
  unfold _findBlocksAround. apply NoDup_bind; [| |apply NoDup_seqZ].
  - intros y1 y2 b _ _ H1 H2.
    apply list_elem_of_bind in H1 as (x1 & H1 & _).
    apply list_elem_of_bind in H2 as (x2 & H2 & _).
    destruct (_ || _); [inversion H1|]. destruct (_ || _); [inversion H2|].
    apply list_elem_of_singleton in H1, H2. congruence.
  - intros cY _. apply NoDup_bind; [| |apply NoDup_seqZ].
    + intros x1 x2 b _ _ H1 H2.
      destruct (_ || _); [inversion H1|]. destruct (_ || _); [inversion H2|].
      apply list_elem_of_singleton in H1, H2. congruence.
    + intros cX _. destruct (_ || _); [apply NoDup_nil_2|apply NoDup_singleton].
Qed.

(** * Counting the blocks of a grid by what they show *)

Definition countG (h w : Z) (p : Z -> bool) (m : grid) : Z :=
  countIf (fun b => p (cell m (X b) (Y b))) (byRows h w).

Lemma countG_setCell h w p m x y v :
  shaped h w m -> 0 <= x < w -> 0 <= y < h ->
  countG h w p (setCell m x y v) =
  countG h w p m - (if p (cell m x y) then 1 else 0) + (if p v then 1 else 0).
Proof.
  intros Hm Hx Hy. unfold countG.
  rewrite (countIf_update (fun b => p (cell m (X b) (Y b))) _ _ (mkBlock x y)).
  - simpl. rewrite (cell_setCell h w) by (assumption || lia).
    rewrite !Z.eqb_refl. reflexivity.
  - apply NoDup_byRows.
  - apply elem_of_byRows. simpl. lia.
  - intros b Hb Hne. apply elem_of_byRows in Hb.
    rewrite (cell_setCell h w) by (assumption || lia).
    destruct (Z.eqb_spec (X b) x), (Z.eqb_spec (Y b) y); simpl; try reflexivity.
    destruct b; simpl in *; subst; contradiction.
Qed.

Definition isUnknown (v : Z) : bool :=
  (v =? EBlockStatus.UNKNWON) || (v =? EBlockStatus.QUESTION).

Definition isMarked (v : Z) : bool := v =? EBlockStatus.MARKED.

(** The number of blocks that show Hidden or Questioned. *)
Definition hiddenBlocks (this : IPrivateData) : Z :=
  countG (height this) (width this) isUnknown (blocks (context this)).

(** The number of blocks that show a flag. *)
Definition markedBlocks (this : IPrivateData) : Z :=
  countG (height this) (width this) isMarked (blocks (context this)).

(** The number of mines of the layout. *)
Definition minedBlocks (this : IPrivateData) : Z :=
  countG (height this) (width this) (fun v => v =? MINE_FLAG)
    (mines (context this)).

(** The number of mines among the neighbours inside the board. *)
Definition minedAround (this : IPrivateData) (x y : Z) : Z :=
  countIf (fun b => mineAt this (X b) (Y b) =? MINE_FLAG)
    (_findBlocksAround this x y).

(** * Flood fill *)

(** The blocks that a sweep at the safe block [(x0, y0)] of [this] uncovers:
    the block itself, and every Hidden neighbour of an uncovered block whose
    count is zero. *)
Inductive floods (this : IPrivateData) (x0 y0 : Z) : Z -> Z -> Prop :=
| floods_start : floods this x0 y0 x0 y0
| floods_step x y x' y' :
    floods this x0 y0 x y ->
    mineAt this x y = 0 ->
    adj x y x' y' ->
    inB this x' y' ->
    blockAt this x' y' = EBlockStatus.UNKNWON ->
    floods this x0 y0 x' y'.

Section Flood.
Variable this0 : IPrivateData.
Variables x0 y0 : Z.

(** Around a block of count zero there is no mine. *)
Hypothesis Hsafe : forall x y x' y',
  inB this0 x y -> mineAt this0 x y = 0 -> adj x y x' y' ->
  inB this0 x' y' -> 0 <= mineAt this0 x' y'.

Variables (st : EGameStatus) (um : Z).

(** [m'] comes from [m] by uncovering Hidden blocks that the sweep floods. *)
Definition reveals (m m' : grid) : Prop :=
  forall x y, inB this0 x y ->
    cell m' x y = cell m x y \/
    (cell m x y = EBlockStatus.UNKNWON /\ cell m' x y = mineAt this0 x y /\
     0 <= mineAt this0 x y /\ floods this0 x0 y0 x y).

(** No neighbour of [(x, y)] is Hidden any more. *)
Definition closedAt (m : grid) (x y : Z) : Prop :=
  forall x' y', adj x y x' y' -> inB this0 x' y' ->
    cell m x' y' <> EBlockStatus.UNKNWON.

(** Hidden blocks of count zero: what bounds the recursion. *)
Definition hiddenZeros (m : grid) : Z :=
  countIf (fun b => (cell m (X b) (Y b) =? EBlockStatus.UNKNWON) &&
                    (mineAt this0 (X b) (Y b) =? 0))
    (byRows (height this0) (width this0)).

Lemma reveals_refl m : reveals m m.
Proof. intros x y _. left. reflexivity. Qed.

Lemma reveals_trans m1 m2 m3 : reveals m1 m2 -> reveals m2 m3 -> reveals m1 m3.
Proof.
  intros H12 H23 x y Hin.
  destruct (H12 x y Hin) as [E12|(Hu & Hv & Hpos & Hf)];
    destruct (H23 x y Hin) as [E23|(Hu' & Hv' & Hpos' & Hf')].
  - left. congruence.
  - right. rewrite <- E12. auto.
  - right. rewrite E23. auto.
  - right. auto.
Qed.

Lemma reveals_stable m m' x y :
  reveals m m' -> inB this0 x y ->
  cell m x y <> EBlockStatus.UNKNWON -> cell m' x y = cell m x y.
Proof.
  intros H Hin Hne. destruct (H x y Hin) as [E|(Hu & _)];
    [exact E|contradiction].
Qed.

Lemma reveals_still_unknown m m' x y :
  reveals m m' -> inB this0 x y ->
  cell m' x y = EBlockStatus.UNKNWON -> cell m x y = EBlockStatus.UNKNWON.
Proof.
  intros H Hin Hu. destruct (H x y Hin) as [E|(Hu' & _)];
    [congruence|exact Hu'].
Qed.

Lemma reveals_closedAt m m' x y :
  reveals m m' -> closedAt m x y -> closedAt m' x y.
Proof.
  intros H Hc x' y' Ha Hin Hu.
  apply (Hc x' y' Ha Hin). eapply reveals_still_unknown; eassumption.
Qed.

Lemma hiddenZeros_le m m' : reveals m m' -> hiddenZeros m' <= hiddenZeros m.
Proof.
  intros H. apply countIf_le. intros b Hb Hp.
  apply elem_of_byRows in Hb.
  apply andb_true_iff in Hp as [Hu Hz]. apply Z.eqb_eq in Hu.
  rewrite Hz, andb_true_r. apply Z.eqb_eq.
  eapply reveals_still_unknown; [exact H|exact Hb|exact Hu].
Qed.

Lemma hiddenZeros_lt m m' x y :
  reveals m m' -> inB this0 x y ->
  cell m x y = EBlockStatus.UNKNWON -> mineAt this0 x y = 0 ->
  cell m' x y <> EBlockStatus.UNKNWON ->
  hiddenZeros m' < hiddenZeros m.
Proof.
  intros H Hin Hu Hz Hne.
  apply (countIf_lt _ _ _ (mkBlock x y)).
  - intros b Hb Hp. apply elem_of_byRows in Hb.
    apply andb_true_iff in Hp as [Hu' Hz']. apply Z.eqb_eq in Hu'.
    rewrite Hz', andb_true_r. apply Z.eqb_eq.
    eapply reveals_still_unknown; [exact H|exact Hb|exact Hu'].
  - apply elem_of_byRows. exact Hin.
  - simpl. apply andb_false_iff. left. apply Z.eqb_neq. exact Hne.
  - simpl. rewrite Hu, Hz. reflexivity.
Qed.

Lemma reveals_setCell m x y :
  shaped (height this0) (width this0) m -> inB this0 x y ->
  cell m x y = EBlockStatus.UNKNWON -> 0 <= mineAt this0 x y ->
  floods this0 x0 y0 x y ->
  reveals m (setCell m x y (mineAt this0 x y)).
Proof.
  intros Hm [Hx Hy] Hu Hpos Hf x' y' [Hx' Hy'].
  rewrite (cell_setCell (height this0) (width this0)) by (assumption || lia).
  destruct (Z.eqb_spec x' x) as [->|]; [|left; reflexivity].
  destruct (Z.eqb_spec y' y) as [->|]; [|left; reflexivity].
  right. auto.
Qed.

Lemma revealBlock_update m un next b :
  revealBlock (update this0 m st um un, next) b =
  if negb (cell m (X b) (Y b) =? EBlockStatus.UNKNWON)
  then (update this0 m st um un, next)
  else (update this0 (setCell m (X b) (Y b) (mineAt this0 (X b) (Y b)))
          st um (un - 1),
        if mineAt this0 (X b) (Y b) =? 0 then next ++ [b] else next).
Proof.
  unfold revealBlock, blockAt, mineAt, setBlock. simpl.
  destruct (negb (cell m (X b) (Y b) =? EBlockStatus.UNKNWON)); [reflexivity|].
  destruct (cell (mines (context this0)) (X b) (Y b) =? 0); reflexivity.
Qed.

Lemma revealLoop_spec x y :
  inB this0 x y -> mineAt this0 x y = 0 -> floods this0 x0 y0 x y ->
  forall blks, NoDup blks ->
  (forall b, b ∈ blks -> adj x y (X b) (Y b) /\ inB this0 (X b) (Y b)) ->
  forall m un next,
  shaped (height this0) (width this0) m ->
  reveals (blocks (context this0)) m ->
  exists m1 un1 nx,
    foldl revealBlock (update this0 m st um un, next) blks =
      (update this0 m1 st um un1, next ++ nx) /\
    shaped (height this0) (width this0) m1 /\
    reveals m m1 /\
    un1 - countG (height this0) (width this0) isUnknown m1 =
      un - countG (height this0) (width this0) isUnknown m /\
    (forall b, b ∈ blks -> cell m1 (X b) (Y b) <> EBlockStatus.UNKNWON) /\
    (forall b, b ∈ nx <->
       b ∈ blks /\ cell m (X b) (Y b) = EBlockStatus.UNKNWON /\
       mineAt this0 (X b) (Y b) = 0) /\
    (forall x' y', inB this0 x' y' -> mkBlock x' y' ∉ blks ->
       cell m1 x' y' = cell m x' y').
Proof.
  intros Hxy Hzero Hfl blks. induction blks as [|b blks IH];
    intros Hnd Hblks m un next Hm H0m.
  - exists m, un, []. simpl. rewrite app_nil_r.
    split; [reflexivity|]. split; [exact Hm|].
    split; [apply reveals_refl|]. split; [reflexivity|].
    split; [intros b Hb; inversion Hb|].
    split; [|reflexivity].
    intros b. split; [intros Hb; inversion Hb|intros [Hb _]; inversion Hb].
  - apply NoDup_cons in Hnd as [Hb Hnd].
    destruct (Hblks b (list_elem_of_here _ _)) as [Hadj Hbin].
    assert (Htl : forall b', b' ∈ blks ->
              adj x y (X b') (Y b') /\ inB this0 (X b') (Y b')).
    { intros b' Hb'. apply Hblks. apply list_elem_of_further. exact Hb'. }
    cbn [foldl]. rewrite revealBlock_update.
    destruct (Z.eqb_spec (cell m (X b) (Y b)) EBlockStatus.UNKNWON) as [Hu|Hu];
      simpl.
    + (* the neighbour is Hidden: it is uncovered *)
      assert (Hpos : 0 <= mineAt this0 (X b) (Y b))
        by (apply (Hsafe x y); assumption).
      assert (Hfb : floods this0 x0 y0 (X b) (Y b)).
      { apply (floods_step this0 x0 y0 x y); try assumption.
        eapply reveals_still_unknown; eassumption. }
      set (m' := setCell m (X b) (Y b) (mineAt this0 (X b) (Y b))).
      assert (Hm' : shaped (height this0) (width this0) m')
        by (apply shaped_setCell; exact Hm).
      assert (Hmm' : reveals m m') by (apply reveals_setCell; assumption).
      assert (Hb' : cell m' (X b) (Y b) = mineAt this0 (X b) (Y b)).
      { unfold m'. destruct Hbin.
        rewrite (cell_setCell (height this0) (width this0)) by (assumption || lia).
        rewrite !Z.eqb_refl. reflexivity. }
      assert (Hother : forall x' y', inB this0 x' y' -> mkBlock x' y' <> b ->
                cell m' x' y' = cell m x' y').
      { intros x' y' [Hx' Hy'] Hne. unfold m'. destruct Hbin.
        rewrite (cell_setCell (height this0) (width this0)) by (assumption || lia).
        destruct (Z.eqb_spec x' (X b)), (Z.eqb_spec y' (Y b)); simpl;
          try reflexivity.
        destruct b; simpl in *; subst; contradiction. }
      destruct (IH Hnd Htl m' (un - 1)
                  (if mineAt this0 (X b) (Y b) =? 0 then next ++ [b] else next)
                  Hm' (reveals_trans _ _ _ H0m Hmm'))
        as (m1 & un1 & nx & Hfold & Hm1 & Hrev & Hcnt & Hall & Hnx & Hout).
      exists m1, un1,
        (if mineAt this0 (X b) (Y b) =? 0 then b :: nx else nx).
      split.
      { rewrite Hfold. f_equal.
        destruct (mineAt this0 (X b) (Y b) =? 0); [|reflexivity].
        rewrite <- app_assoc. reflexivity. }
      split; [exact Hm1|].
      split; [eapply reveals_trans; eassumption|].
      split.
      { rewrite Hcnt. unfold m'. destruct Hbin.
        rewrite (countG_setCell (height this0) (width this0)) by assumption.
        rewrite Hu. unfold isUnknown, EBlockStatus.UNKNWON, EBlockStatus.QUESTION.
        simpl.
        destruct (Z.eqb_spec (mineAt this0 (X b) (Y b)) (-1)); [lia|].
        destruct (Z.eqb_spec (mineAt this0 (X b) (Y b)) (-3)); [lia|].
        simpl. lia. }
      split.
      { intros b' Hb1. apply elem_of_cons in Hb1 as [->|Hb1]; [|auto].
        rewrite (reveals_stable m' m1) by
          (try assumption; rewrite Hb'; unfold EBlockStatus.UNKNWON; lia).
        rewrite Hb'. unfold EBlockStatus.UNKNWON. lia. }
      split.
      { intros b'. rewrite elem_of_cons.
        assert (Hnx' : b' ∈ nx <->
                  b' ∈ blks /\ cell m (X b') (Y b') = EBlockStatus.UNKNWON /\
                  mineAt this0 (X b') (Y b') = 0).
        { rewrite Hnx. split.
          - intros (Hin & Hc & Hz). split; [exact Hin|]. split; [|exact Hz].
            rewrite <- Hother; [exact Hc|apply Htl; exact Hin|].
            destruct b'. simpl. intros E. subst b. contradiction.
          - intros (Hin & Hc & Hz). split; [exact Hin|]. split; [|exact Hz].
            rewrite Hother; [exact Hc|apply Htl; exact Hin|].
            destruct b'. simpl. intros E. subst b. contradiction. }
        destruct (Z.eqb_spec (mineAt this0 (X b) (Y b)) 0) as [Hz|Hz].
        - rewrite elem_of_cons, Hnx'. split.
          + intros [->|(Hin & Hc & Hz')]; [auto|auto].
          + intros ([->|Hin] & Hc & Hz'); [left; reflexivity|right; auto].
        - rewrite Hnx'. split.
          + intros (Hin & Hc & Hz'). auto.
          + intros ([->|Hin] & Hc & Hz'); [contradiction|auto]. }
      intros x' y' Hin' Hnin.
      rewrite Hout; [apply Hother; [exact Hin'|]|exact Hin'|].
      * intros E. apply Hnin. rewrite E. apply list_elem_of_here.
      * intros E. apply Hnin. apply list_elem_of_further. exact E.
    + (* the neighbour shows something else: it is skipped *)
      destruct (IH Hnd Htl m un next Hm H0m)
        as (m1 & un1 & nx & Hfold & Hm1 & Hrev & Hcnt & Hall & Hnx & Hout).
      exists m1, un1, nx.
      split; [exact Hfold|]. split; [exact Hm1|]. split; [exact Hrev|].
      split; [exact Hcnt|].
      split.
      { intros b' Hb1. apply elem_of_cons in Hb1 as [->|Hb1]; [|auto].
        rewrite (reveals_stable m m1) by assumption. exact Hu. }
      split.
      { intros b'. rewrite Hnx, elem_of_cons. split.
        - intros (Hin & Hc & Hz). auto.
        - intros ([->|Hin] & Hc & Hz); [contradiction|auto]. }
      intros x' y' Hin' Hnin. apply Hout; [exact Hin'|].
      intros E. apply Hnin. apply list_elem_of_further. exact E.
Qed.

(** What a call of [_cleanBlock] at [(x, y)] achieves from the grid [m]
    and the counter [un]. *)
Definition cleanPost (m : grid) (un : Z) (x y : Z)
    (r : option IPrivateData) : Prop :=
  exists m' un',
    r = Some (update this0 m' st um un') /\
    shaped (height this0) (width this0) m' /\
    reveals m m' /\
    un' - countG (height this0) (width this0) isUnknown m' =
      un - countG (height this0) (width this0) isUnknown m /\
    (inB this0 x y -> mineAt this0 x y = 0 -> closedAt m' x y) /\
    (forall x' y', inB this0 x' y' ->
       cell m x' y' = EBlockStatus.UNKNWON ->
       cell m' x' y' <> EBlockStatus.UNKNWON ->
       mineAt this0 x' y' = 0 -> closedAt m' x' y').

Definition cleanNext (fuel : nat) (acc : option IPrivateData) (b : IBlock)
  : option IPrivateData :=
  match acc with
  | Some this2 => _cleanBlock fuel this2 (X b) (Y b)
  | None => None
  end.

Lemma cleanBlock_unfold fuel this x y :
  _cleanBlock (S fuel) this x y =
  if negb (_checkCoordinate this (Int x) (Int y)) then Some this
  else if negb (mineAt this x y =? 0) then Some this
  else
    let '(this1, nextBlks) :=
      foldl revealBlock (this, []) (_findBlocksAround this x y) in
    foldl (cleanNext fuel) (Some this1) nextBlks.
Proof. reflexivity. Qed.

Lemma cleanNext_spec fuel :
  (forall m un x y,
     shaped (height this0) (width this0) m ->
     reveals (blocks (context this0)) m ->
     floods this0 x0 y0 x y ->
     hiddenZeros m < Z.of_nat fuel ->
     cleanPost m un x y (_cleanBlock fuel (update this0 m st um un) x y)) ->
  forall next m un,
    shaped (height this0) (width this0) m ->
    reveals (blocks (context this0)) m ->
    (forall b, b ∈ next -> floods this0 x0 y0 (X b) (Y b)) ->
    (next <> [] -> hiddenZeros m < Z.of_nat fuel) ->
    exists m' un',
      foldl (cleanNext fuel) (Some (update this0 m st um un)) next =
        Some (update this0 m' st um un') /\
      shaped (height this0) (width this0) m' /\
      reveals m m' /\
      un' - countG (height this0) (width this0) isUnknown m' =
        un - countG (height this0) (width this0) isUnknown m /\
      (forall b, b ∈ next -> inB this0 (X b) (Y b) ->
         mineAt this0 (X b) (Y b) = 0 -> closedAt m' (X b) (Y b)) /\
      (forall x' y', inB this0 x' y' ->
         cell m x' y' = EBlockStatus.UNKNWON ->
         cell m' x' y' <> EBlockStatus.UNKNWON ->
         mineAt this0 x' y' = 0 -> closedAt m' x' y').
Proof.
  intros Hrec next. induction next as [|b next IH];
    intros m un Hm H0m Hfl Hfuel.
  - exists m, un. simpl. split; [reflexivity|]. split; [exact Hm|].
    split; [apply reveals_refl|]. split; [reflexivity|].
    split; [intros b Hb; inversion Hb|].
    intros x' y' _ Hu Hnu. contradiction.
  - assert (Hlt : hiddenZeros m < Z.of_nat fuel)
      by (apply Hfuel; discriminate).
    cbn [foldl cleanNext].
    destruct (Hrec m un (X b) (Y b) Hm H0m
                (Hfl b (list_elem_of_here _ _)) Hlt)
      as (m1 & un1 & -> & Hm1 & Hrev1 & Hcnt1 & Hcl1 & Hnew1).
    assert (H0m1 : reveals (blocks (context this0)) m1)
      by (eapply reveals_trans; eassumption).
    destruct (IH m1 un1 Hm1 H0m1)
      as (m' & un' & Hfold & Hm' & Hrev & Hcnt & Hcl & Hnew).
    { intros b' Hb'. apply Hfl. apply list_elem_of_further. exact Hb'. }
    { intros _. pose proof (hiddenZeros_le _ _ Hrev1). lia. }
    exists m', un'. split; [exact Hfold|]. split; [exact Hm'|].
    split; [eapply reveals_trans; eassumption|].
    split; [lia|]. split.
    + intros b' Hb' Hin Hz. apply elem_of_cons in Hb' as [->|Hb'].
      * eapply reveals_closedAt; [exact Hrev|]. apply Hcl1; assumption.
      * apply Hcl; assumption.
    + intros x' y' Hin Hu Hnu Hz.
      destruct (Z.eq_dec (cell m1 x' y') EBlockStatus.UNKNWON) as [E|E].
      * apply Hnew; assumption.
      * eapply reveals_closedAt; [exact Hrev|]. apply Hnew1; assumption.
Qed.

(** [_cleanBlock] returns as soon as its budget exceeds the number of
    Hidden blocks of count zero, and it closes every zero it uncovers. *)
Lemma cleanBlock_spec fuel : forall m un x y,
  shaped (height this0) (width this0) m ->
  reveals (blocks (context this0)) m ->
  floods this0 x0 y0 x y ->
  hiddenZeros m < Z.of_nat fuel ->
  cleanPost m un x y (_cleanBlock fuel (update this0 m st um un) x y).
Proof.
  induction fuel as [|fuel IHfuel]; intros m un x y Hm H0m Hfl Hlt.
  - pose proof (countIf_nonneg
      (fun b => (cell m (X b) (Y b) =? EBlockStatus.UNKNWON) &&
                (mineAt this0 (X b) (Y b) =? 0))
      (byRows (height this0) (width this0))) as Hn.
    unfold hiddenZeros in Hlt. simpl in Hlt. lia.
  - assert (Hskip : cleanPost m un x y (Some (update this0 m st um un)) \/
                    (inB this0 x y /\ mineAt this0 x y = 0)).
    { destruct (decide (inB this0 x y /\ mineAt this0 x y = 0)) as [H|H];
        [right; exact H|left].
      exists m, un. split; [reflexivity|]. split; [exact Hm|].
      split; [apply reveals_refl|]. split; [reflexivity|].
      split; [intros; exfalso; apply H; split; assumption|].
      intros x' y' _ Hu Hnu. contradiction. }
    rewrite cleanBlock_unfold.
    destruct (_checkCoordinate (update this0 m st um un) (Int x) (Int y))
      eqn:Hchk; simpl negb; cbv iota.
    2:{ destruct Hskip as [H|[H _]]; [exact H|].
        apply checkCoordinate_Int_false in Hchk. contradiction. }
    change (mineAt (update this0 m st um un) x y) with (mineAt this0 x y).
    destruct (Z.eqb_spec (mineAt this0 x y) 0) as [Hz|Hz]; simpl negb; cbv iota.
    2:{ destruct Hskip as [H|[_ H]]; [exact H|contradiction]. }
    apply checkCoordinate_Int in Hchk.
    change (inB this0 x y) in Hchk.
    change (_findBlocksAround (update this0 m st um un) x y)
      with (_findBlocksAround this0 x y).
    destruct (revealLoop_spec x y Hchk Hz Hfl (_findBlocksAround this0 x y)
                (NoDup_findBlocksAround _ _ _)
                (fun b Hb => proj1 (elem_of_findBlocksAround _ _ _ _) Hb)
                m un [] Hm H0m)
      as (m1 & un1 & nx & Hloop & Hm1 & Hrev1 & Hcnt1 & Hall & Hnx & Hout).
    rewrite Hloop. cbv iota beta. rewrite app_nil_l.
    assert (H0m1 : reveals (blocks (context this0)) m1)
      by (eapply reveals_trans; eassumption).
    destruct (cleanNext_spec fuel IHfuel nx m1 un1 Hm1 H0m1)
      as (m' & un' & Hfold & Hm' & Hrev & Hcnt & Hcl & Hnew).
    { intros b Hb. apply Hnx in Hb as (Hb & Hu & Hbz).
      apply elem_of_findBlocksAround in Hb as [Hadj Hbin].
      apply (floods_step this0 x0 y0 x y); try assumption.
      exact (reveals_still_unknown _ _ _ _ H0m Hbin Hu). }
    { intros Hne. destruct nx as [|b nx]; [contradiction|].
      destruct (proj1 (Hnx b) (list_elem_of_here _ _)) as (Hb & Hu & Hbz).
      apply elem_of_findBlocksAround in Hb as [Hadj Hbin].
      pose proof (hiddenZeros_lt _ _ _ _ Hrev1 Hbin Hu Hbz
                    (Hall b (proj2 (elem_of_findBlocksAround _ _ _ _)
                               (conj Hadj Hbin)))).
      lia. }
    exists m', un'. split; [exact Hfold|]. split; [exact Hm'|].
    split; [eapply reveals_trans; eassumption|].
    split; [lia|]. split.
    + intros _ _. eapply reveals_closedAt; [exact Hrev|].
      intros x' y' Hadj Hin.
      apply (Hall (mkBlock x' y')).
      apply elem_of_findBlocksAround. split; assumption.
    + intros x' y' Hin Hu Hnu Hz'.
      destruct (Z.eq_dec (cell m1 x' y') EBlockStatus.UNKNWON) as [E|E].
      * apply Hnew; assumption.
      * assert (Hb : mkBlock x' y' ∈ _findBlocksAround this0 x y).
        { destruct (decide (mkBlock x' y' ∈ _findBlocksAround this0 x y))
            as [H|H]; [exact H|].
          rewrite (Hout x' y' Hin H) in E. contradiction. }
        apply (Hcl (mkBlock x' y')); try assumption.
        apply Hnx. auto.
Qed.
End Flood.

(** * Board generation *)

(** The state that differs from [this] in the layout of the mines only. *)
Definition layout (this : IPrivateData) (M : grid) : IPrivateData :=
  withContext this (withMines (context this) M).

(** Every block is a mine or counts the mines around it. *)
Definition minesOK (this : IPrivateData) : Prop :=
  forall x y, inB this x y ->
    mineAt this x y = MINE_FLAG \/ mineAt this x y = minedAround this x y.

Definition isMine (v : Z) : bool := v =? MINE_FLAG.

Lemma minedAround_nonneg this x y : 0 <= minedAround this x y.
Proof. apply countIf_nonneg. Qed.

(** The nine pairs [(i, j)] visited after a mine is put at row [y], column [x]. *)
Definition around9 (x y : Z) : list (Z * Z) :=
  i ← seqZ (y - 1) 3; j ← seqZ (x - 1) 3; [(i, j)].

Lemma elem_of_around9 x y i j :
  (i, j) ∈ around9 x y <-> (y - 1 <= i <= y + 1 /\ x - 1 <= j <= x + 1).
Proof.
  unfold around9. rewrite list_elem_of_bind. split.
  - intros (i' & Hb & Hi). apply list_elem_of_bind in Hb as (j' & Hb & Hj).
    apply list_elem_of_singleton in Hb. inversion Hb; subst.
    apply elem_of_seqZ in Hi, Hj. lia.
  - intros [Hi Hj]. exists i. split; [|apply elem_of_seqZ; lia].
    apply list_elem_of_bind. exists j. split; [|apply elem_of_seqZ; lia].
    apply list_elem_of_singleton. reflexivity.
Qed.

Lemma NoDup_around9 x y : NoDup (around9 x y).
Proof.
  unfold around9. apply NoDup_bind; [| |apply NoDup_seqZ].
  - intros i1 i2 b _ _ H1 H2.
    apply list_elem_of_bind in H1 as (j1 & H1 & _).
    apply list_elem_of_bind in H2 as (j2 & H2 & _).
    apply list_elem_of_singleton in H1, H2. congruence.
  - intros i _. apply NoDup_bind; [| |apply NoDup_seqZ].
    + intros j1 j2 b _ _ H1 H2.
      apply list_elem_of_singleton in H1, H2. congruence.
    + intros j _. apply NoDup_singleton.
Qed.

Lemma bumpCount_layout b M i j :
  bumpCount (layout b M) (i, j) =
  if negb (_checkCoordinate b (Int j) (Int i)) || (cell M j i =? MINE_FLAG)
  then layout b M
  else layout b (setCell M j i (cell M j i + 1)).
Proof.
  unfold bumpCount.
  change (_checkCoordinate (layout b M) (Int j) (Int i))
    with (_checkCoordinate b (Int j) (Int i)).
  change (mineAt (layout b M) j i) with (cell M j i).
  destruct (negb _ || _); reflexivity.
Qed.

Lemma foldl_bumpCount b l :
  NoDup l -> forall M, shaped (height b) (width b) M ->
  exists M',
    foldl bumpCount (layout b M) l = layout b M' /\
    shaped (height b) (width b) M' /\
    forall x y, inB b x y ->
      cell M' x y =
      if bool_decide ((y, x) ∈ l) && negb (cell M x y =? MINE_FLAG)
      then cell M x y + 1 else cell M x y.
Proof.
  induction l as [|[i j] l IH]; intros Hnd M HM.
  - exists M. split; [reflexivity|]. split; [exact HM|].
    intros x y _. reflexivity.
  - apply NoDup_cons in Hnd as [Hij Hnd]. cbn [foldl].
    rewrite bumpCount_layout.
    destruct (_checkCoordinate b (Int j) (Int i)) eqn:Hchk; simpl negb;
      [destruct (Z.eqb_spec (cell M j i) MINE_FLAG) as [Hm|Hm]|]; simpl orb;
      cbv iota.
    + (* a mine: skipped *)
      destruct (IH Hnd M HM) as (M' & Hf & HM' & Hc).
      exists M'. split; [exact Hf|]. split; [exact HM'|].
      intros x y Hin. rewrite (Hc x y Hin).
      destruct (decide ((y, x) = (i, j))) as [E|E].
      * inversion E; subst. rewrite (bool_decide_eq_false_2 _ Hij).
        rewrite Hm, Z.eqb_refl. simpl negb. rewrite !andb_false_r. reflexivity.
      * rewrite (bool_decide_ext ((y, x) ∈ (i, j) :: l) ((y, x) ∈ l));
          [reflexivity|].
        rewrite elem_of_cons. tauto.
    + (* a count: incremented *)
      apply checkCoordinate_Int in Hchk. destruct Hchk as [Hj Hi].
      set (M1 := setCell M j i (cell M j i + 1)).
      assert (HM1 : shaped (height b) (width b) M1)
        by (apply shaped_setCell; exact HM).
      destruct (IH Hnd M1 HM1) as (M' & Hf & HM' & Hc).
      exists M'. split; [exact Hf|]. split; [exact HM'|].
      intros x y Hin. rewrite (Hc x y Hin). unfold M1. destruct Hin.
      rewrite (cell_setCell (height b) (width b)) by (assumption || lia).
      destruct (decide ((y, x) = (i, j))) as [E|E].
      * inversion E; subst. rewrite !Z.eqb_refl. simpl andb at 2. cbv iota.
        rewrite (bool_decide_eq_false_2 _ Hij).
        rewrite bool_decide_eq_true_2 by apply list_elem_of_here.
        destruct (Z.eqb_spec (cell M j i) MINE_FLAG); [contradiction|].
        reflexivity.
      * assert ((x =? j) && (y =? i) = false) as ->.
        { apply andb_false_iff. rewrite !Z.eqb_neq.
          destruct (Z.eq_dec x j), (Z.eq_dec y i); auto.
          subst. contradiction. }
        rewrite (bool_decide_ext ((y, x) ∈ (i, j) :: l) ((y, x) ∈ l));
          [reflexivity|].
        rewrite elem_of_cons. tauto.
    + (* outside the board: skipped *)
      apply checkCoordinate_Int_false in Hchk.
      destruct (IH Hnd M HM) as (M' & Hf & HM' & Hc).
      exists M'. split; [exact Hf|]. split; [exact HM'|].
      intros x y Hin. rewrite (Hc x y Hin).
      destruct (decide ((y, x) = (i, j))) as [E|E].
      * inversion E; subst. contradiction.
      * rewrite (bool_decide_ext ((y, x) ∈ (i, j) :: l) ((y, x) ∈ l));
          [reflexivity|].
        rewrite elem_of_cons. tauto.
Qed.

Global Instance adj_dec x y x' y' : Decision (adj x y x' y').
Proof. unfold adj. apply _. Defined.

(** Putting a mine on a free block adds one to the mines around each of
    its neighbours, and to no other block. *)
Lemma minedAround_place b M M2 x y cx cy :
  inB b x y -> cell M x y <> MINE_FLAG ->
  (forall x' y', inB b x' y' ->
     cell M2 x' y' = MINE_FLAG <->
     ((x' = x /\ y' = y) \/ cell M x' y' = MINE_FLAG)) ->
  minedAround (layout b M2) cx cy =
  minedAround (layout b M) cx cy + (if decide (adj cx cy x y) then 1 else 0).
Proof.
  intros Hin Hfree Hiff. unfold minedAround.
  change (_findBlocksAround (layout b M2) cx cy) with (_findBlocksAround b cx cy).
  change (_findBlocksAround (layout b M) cx cy) with (_findBlocksAround b cx cy).
  change (fun c => mineAt (layout b M2) (X c) (Y c) =? MINE_FLAG)
    with (fun c => cell M2 (X c) (Y c) =? MINE_FLAG).
  change (fun c => mineAt (layout b M) (X c) (Y c) =? MINE_FLAG)
    with (fun c => cell M (X c) (Y c) =? MINE_FLAG).
  assert (Hsame : forall a, a ∈ _findBlocksAround b cx cy -> a <> mkBlock x y ->
            (cell M2 (X a) (Y a) =? MINE_FLAG) = (cell M (X a) (Y a) =? MINE_FLAG)).
  { intros a Ha Hne. apply elem_of_findBlocksAround in Ha as [_ Ha].
    pose proof (Hiff _ _ Ha) as Hi.
    destruct (Z.eqb_spec (cell M2 (X a) (Y a)) MINE_FLAG) as [E2|E2];
      destruct (Z.eqb_spec (cell M (X a) (Y a)) MINE_FLAG) as [E1|E1];
      try reflexivity.
    - apply Hi in E2 as [[Ex Ey]|E]; [|contradiction].
      destruct a; simpl in *; subst; contradiction.
    - exfalso. apply E2. apply Hi. right. exact E1. }
  destruct (decide (adj cx cy x y)) as [Hadj|Hadj].
  - rewrite (countIf_update (fun c => cell M (X c) (Y c) =? MINE_FLAG)
               _ _ (mkBlock x y)).
    + simpl.
      destruct (Z.eqb_spec (cell M x y) MINE_FLAG); [contradiction|].
      destruct (Z.eqb_spec (cell M2 x y) MINE_FLAG) as [|E]; [lia|].
      exfalso. apply E. apply Hiff; [exact Hin|]. left. auto.
    + apply NoDup_findBlocksAround.
    + apply elem_of_findBlocksAround. split; assumption.
    + exact Hsame.
  - rewrite Z.add_0_r. apply countIf_ext. intros a Ha. apply Hsame; [exact Ha|].
    intros ->. apply elem_of_findBlocksAround in Ha as [Ha _]. contradiction.
Qed.

Lemma placeMine_spec b M x y :
  shaped (height b) (width b) M -> minesOK (layout b M) ->
  inB b x y -> cell M x y <> MINE_FLAG ->
  exists M2,
    foldl bumpCount (setMine (layout b M) x y MINE_FLAG) (around9 x y) =
      layout b M2 /\
    shaped (height b) (width b) M2 /\
    minesOK (layout b M2) /\
    countG (height b) (width b) isMine M2 =
      countG (height b) (width b) isMine M + 1.
Proof.
  intros HM Hok Hin Hfree.
  change (setMine (layout b M) x y MINE_FLAG)
    with (layout b (setCell M x y MINE_FLAG)).
  set (M1 := setCell M x y MINE_FLAG).
  assert (HM1 : shaped (height b) (width b) M1)
    by (apply shaped_setCell; exact HM).
  destruct (foldl_bumpCount b (around9 x y) (NoDup_around9 x y) M1 HM1)
    as (M2 & Hf & HM2 & Hc).
  assert (Hnum : forall x' y', inB b x' y' -> cell M x' y' <> MINE_FLAG ->
            cell M x' y' = minedAround (layout b M) x' y').
  { intros x' y' Hin' Hne. destruct (Hok x' y' Hin') as [E|E];
      [contradiction|exact E]. }
  assert (Hat : cell M2 x y = MINE_FLAG).
  { rewrite (Hc x y Hin). unfold M1. destruct Hin.
    rewrite (cell_setCell (height b) (width b)) by (assumption || lia).
    rewrite !Z.eqb_refl. simpl. rewrite andb_false_r. reflexivity. }
  assert (Hoff : forall x' y', inB b x' y' -> (x' <> x \/ y' <> y) ->
            cell M2 x' y' =
            if decide (adj x' y' x y) then
              if cell M x' y' =? MINE_FLAG then cell M x' y' else cell M x' y' + 1
            else cell M x' y').
  { intros x' y' Hin' Hne. rewrite (Hc x' y' Hin'). unfold M1.
    destruct Hin, Hin'.
    rewrite (cell_setCell (height b) (width b)) by (assumption || lia).
    assert ((x' =? x) && (y' =? y) = false) as ->.
    { apply andb_false_iff. rewrite !Z.eqb_neq. exact Hne. }
    destruct (decide (adj x' y' x y)) as [Ha|Ha].
    - rewrite bool_decide_eq_true_2
        by (apply elem_of_around9; unfold adj in Ha; lia).
      destruct (cell M x' y' =? MINE_FLAG); reflexivity.
    - rewrite bool_decide_eq_false_2; [reflexivity|].
      intros Hm. apply elem_of_around9 in Hm. apply Ha. unfold adj. lia. }
  assert (Hiff : forall x' y', inB b x' y' ->
            cell M2 x' y' = MINE_FLAG <->
            ((x' = x /\ y' = y) \/ cell M x' y' = MINE_FLAG)).
  { intros x' y' Hin'.
    destruct (decide (x' = x /\ y' = y)) as [[-> ->]|Hne].
    - split; [left; auto|intros _; exact Hat].
    - assert (x' <> x \/ y' <> y) as Hne' by lia.
      rewrite (Hoff x' y' Hin' Hne').
      destruct (Z.eqb_spec (cell M x' y') MINE_FLAG) as [E|E].
      + destruct (decide (adj x' y' x y)); split; auto.
      + pose proof (Hnum x' y' Hin' E) as Hn.
        pose proof (minedAround_nonneg (layout b M) x' y') as Hpos.
        unfold MINE_FLAG in *.
        destruct (decide (adj x' y' x y)); split; intros H; try lia;
          destruct H as [H|H]; lia. }
  exists M2. split; [exact Hf|]. split; [exact HM2|]. split.
  - intros x' y' Hin'.
    change (mineAt (layout b M2) x' y') with (cell M2 x' y').
    rewrite (minedAround_place b M M2 x y x' y' Hin Hfree Hiff).
    destruct (decide (x' = x /\ y' = y)) as [[-> ->]|Hne];
      [left; exact Hat|].
    assert (x' <> x \/ y' <> y) as Hne' by lia.
    rewrite (Hoff x' y' Hin' Hne').
    destruct (Z.eqb_spec (cell M x' y') MINE_FLAG) as [E|E].
    + left. destruct (decide (adj x' y' x y)); exact E.
    + right. rewrite (Hnum x' y' Hin' E).
      destruct (decide (adj x' y' x y)); lia.
  - unfold countG.
    rewrite (countIf_update (fun c => isMine (cell M (X c) (Y c)))
               _ _ (mkBlock x y)).
    + simpl. rewrite Hat. unfold isMine. rewrite Z.eqb_refl.
      destruct (Z.eqb_spec (cell M x y) MINE_FLAG); [contradiction|lia].
    + apply NoDup_byRows.
    + apply elem_of_byRows. exact Hin.
    + intros a Ha Hne. apply elem_of_byRows in Ha. unfold isMine.
      pose proof (Hiff _ _ Ha) as Hi.
      destruct (Z.eqb_spec (cell M2 (X a) (Y a)) MINE_FLAG) as [E2|E2];
        destruct (Z.eqb_spec (cell M (X a) (Y a)) MINE_FLAG) as [E1|E1];
        try reflexivity.
      * apply Hi in E2 as [[Ex Ey]|E]; [|contradiction].
        destruct a as [ax ay]; cbn [X Y] in *; subst; contradiction.
      * exfalso. apply E2. apply Hi. right. exact E1.
Qed.

Definition drawsInRange (this : IPrivateData) (draws : list (Z * Z)) : Prop :=
  Forall (fun d => 0 <= fst d < height this /\ 0 <= snd d < width this) draws.

Lemma putMines_spec b draws : forall M k,
  0 <= k ->
  shaped (height b) (width b) M -> minesOK (layout b M) ->
  drawsInRange b draws ->
  forall g, putMines (layout b M) k draws = Some g ->
  exists M',
    g = layout b M' /\
    shaped (height b) (width b) M' /\
    minesOK (layout b M') /\
    countG (height b) (width b) isMine M' =
      countG (height b) (width b) isMine M + k.
Proof.
  induction draws as [|[y x] draws IH]; intros M k Hk HM Hok Hdr g Hg.
  - simpl in Hg. destruct (Z.eqb_spec k 0) as [->|]; [|discriminate].
    inversion Hg; subst. exists M. rewrite Z.add_0_r. auto.
  - cbn [putMines] in Hg. destruct (Z.eqb_spec k 0) as [->|Hk0].
    { inversion Hg; subst. exists M. rewrite Z.add_0_r. auto. }
    apply Forall_cons in Hdr as [[Hy Hx] Hdr]. simpl in Hy, Hx.
    change (mineAt (layout b M) x y) with (cell M x y) in Hg.
    destruct (Z.eqb_spec (cell M x y) MINE_FLAG) as [Hm|Hm].
    + apply (IH M k); assumption.
    + destruct (placeMine_spec b M x y HM Hok (conj Hx Hy) Hm)
        as (M2 & Hf & HM2 & Hok2 & Hcnt).
      change (seqZ (y - 1) 3 ≫=
               (fun i => seqZ (x - 1) 3 ≫= (fun j => [(i, j)])))
        with (around9 x y) in Hg.
      rewrite Hf in Hg.
      destruct (IH M2 (k - 1) ltac:(lia) HM2 Hok2 Hdr g Hg)
        as (M' & -> & HM' & Hok' & Hcnt').
      exists M'. split; [reflexivity|]. split; [exact HM'|].
      split; [exact Hok'|]. lia.
Qed.

(** The parameters that the constructor accepts. *)
Definition validDims (this : IPrivateData) : Prop :=
  2 <= height this /\ 2 <= mineQuantity this < width this * height this.

Lemma validDims_width this : validDims this -> 1 <= width this.
Proof. unfold validDims. nia. Qed.

(** What never changes during a game: the dimensions and a consistent
    layout with [mineQuantity] mines. *)
Definition board (this : IPrivateData) : Prop :=
  validDims this /\ wf this /\ minesOK this /\
  minedBlocks this = mineQuantity this.

(** The visible part of a game that has just been started. *)
Definition freshBoard (this : IPrivateData) : Prop :=
  (forall x y, inB this x y -> blockAt this x y = EBlockStatus.UNKNWON) /\
  unmarkedMines (context this) = mineQuantity this /\
  unknowns (context this) = width this * height this /\
  status (context this) = PLAYING.

(** The context on which the placement loop of [restart] starts. *)
Definition freshContext (this : IPrivateData) (now : Z) : IContext :=
  {| blocks := filledGrid (height this) (width this) EBlockStatus.UNKNWON;
     mines := filledGrid (height this) (width this) 0;
     unmarkedMines := mineQuantity this;
     startedAt := now;
     status := PLAYING;
     unknowns := height this * width this |}.

Lemma restart_unfold this now draws :
  restart this now draws =
  if arraysOK (height this) (width this)
  then match putMines (withContext this (freshContext this now))
                 (mineQuantity this) draws with
       | Some this1 => Ok this1
       | None => Stuck
       end
  else Throw RangeError.
Proof.
  unfold restart. rewrite !newGrid_spec.
  destruct (arraysOK (height this) (width this)); reflexivity.
Qed.

Lemma restart_Ok this now draws g :
  restart this now draws = Ok g <->
  arraysOK (height this) (width this) = true /\
  putMines (withContext this (freshContext this now))
    (mineQuantity this) draws = Some g.
Proof.
  rewrite restart_unfold.
  destruct (arraysOK (height this) (width this)).
  - destruct (putMines _ _ _) as [g1|]; split.
    + intros H. injection H as ->. auto.
    + intros [_ H]. injection H as ->. reflexivity.
    + discriminate.
    + intros [_ H]. discriminate.
  - split; [discriminate|intros [H _]; discriminate].
Qed.

Lemma restart_spec this now draws g :
  validDims this -> drawsInRange this draws ->
  restart this now draws = Ok g ->
  height g = height this /\ width g = width this /\
  mineQuantity g = mineQuantity this /\
  showMinesOnlyOnFailed g = showMinesOnlyOnFailed this /\
  startedAt (context g) = now /\
  blocks (context g) =
    filledGrid (height this) (width this) EBlockStatus.UNKNWON /\
  board g /\ freshBoard g.
Proof.
  intros Hv Hdr Hr. apply restart_Ok in Hr as [_ Hp].
  set (base := withContext this (freshContext this now)) in Hp.
  change base with (layout base (filledGrid (height this) (width this) 0)) in Hp.
  pose proof (validDims_width _ Hv) as Hw. destruct Hv as [Hh Hq].
  apply (putMines_spec base) in Hp as (M' & -> & HM' & Hok & Hcnt).
  - assert (countG (height this) (width this) isMine
              (filledGrid (height this) (width this) 0) = 0) as Hz.
    { apply countIf_zero. intros a Ha. apply elem_of_byRows in Ha as [Hx Hy].
      rewrite cell_filledGrid by assumption. reflexivity. }
    change (height base) with (height this) in *.
    change (width base) with (width this) in *.
    rewrite Hz in Hcnt.
    repeat (split; [reflexivity|]). split.
    + split; [split; assumption|]. split; [|split; [exact Hok|exact Hcnt]].
      split; [apply shaped_filledGrid|exact HM'].
    + split; [|subst base; repeat split; simpl; lia].
      intros x y [Hx Hy]. apply cell_filledGrid; assumption.
  - lia.
  - apply shaped_filledGrid.
  - intros x y [Hx Hy]. right.
    change (mineAt (layout base (filledGrid (height this) (width this) 0)) x y)
      with (cell (filledGrid (height this) (width this) 0) x y).
    rewrite cell_filledGrid by assumption. symmetry.
    apply countIf_zero. intros a Ha.
    apply elem_of_findBlocksAround in Ha as [_ [Hax Hay]].
    change (mineAt (layout base (filledGrid (height this) (width this) 0))
              (X a) (Y a))
      with (cell (filledGrid (height this) (width this) 0) (X a) (Y a)).
    rewrite cell_filledGrid by assumption. reflexivity.
  - exact Hdr.
Qed.

Lemma createMineSweeper_restart h w q s now draws g :
  createMineSweeper h w q s now draws = Ok g ->
  exists base,
    validDims base /\ height base = intOf h /\ width base = intOf w /\
    mineQuantity base = intOf q /\ showMinesOnlyOnFailed base = s /\
    h = Int (intOf h) /\ w = Int (intOf w) /\ q = Int (intOf q) /\
    restart base now draws = Ok g.
Proof.
  unfold createMineSweeper. intros H.
  destruct h as [h|], w as [w|], q as [q|]; simpl in H;
    try discriminate; try (destruct (_ || _); discriminate).
  destruct (Z.ltb_spec q 1); simpl in H; [discriminate|].
  destruct (Z.ltb_spec h 2); simpl in H; [discriminate|].
  destruct (Z.ltb_spec q 2); simpl in H; [discriminate|].
  destruct (Z.geb_spec (roundDouble q) (roundDouble (w * h))) as [|Hlt];
    [discriminate|].
  apply roundDouble_lt in Hlt; [|lia].
  exists (mkPrivate nullContext h w q s).
  split; [unfold validDims; simpl; lia|].
  repeat (split; [reflexivity|]). exact H.
Qed.

(** * Sweeping a safe block *)

(** Around a block whose count is zero every block holds a count. *)
Definition safeZeros (this : IPrivateData) : Prop :=
  forall x y x' y',
    inB this x y -> mineAt this x y = 0 -> adj x y x' y' ->
    inB this x' y' -> 0 <= mineAt this x' y'.

Lemma minesOK_count this x y :
  minesOK this -> inB this x y -> mineAt this x y <> MINE_FLAG ->
  0 <= mineAt this x y.
Proof.
  intros Hok Hin Hne. destruct (Hok x y Hin) as [E|E]; [contradiction|].
  rewrite E. apply minedAround_nonneg.
Qed.

Lemma minesOK_safeZeros this : minesOK this -> safeZeros this.
Proof.
  intros Hok x y x' y' Hin Hz Hadj Hin'.
  apply minesOK_count; [exact Hok|exact Hin'|]. intros Hm.
  destruct (Hok x y Hin) as [E|E]; [unfold MINE_FLAG in E; lia|].
  assert (1 <= minedAround this x y); [|lia].
  apply (countIf_pos _ _ (mkBlock x' y')).
  - apply elem_of_findBlocksAround. split; assumption.
  - simpl. rewrite Hm. reflexivity.
Qed.

Lemma sweep_safe this x y :
  wf this -> safeZeros this ->
  status (context this) = PLAYING -> inB this x y ->
  blockAt this x y = EBlockStatus.UNKNWON -> 0 <= mineAt this x y ->
  exists m' un',
    sweep this (Int x) (Int y) =
      Ok (status (context (_checkWin
            (update this m' PLAYING (unmarkedMines (context this)) un'))),
          _checkWin (update this m' PLAYING (unmarkedMines (context this)) un')) /\
    shaped (height this) (width this) m' /\
    (forall x' y', floods this x y x' y' ->
       inB this x' y' /\ blockAt this x' y' = EBlockStatus.UNKNWON /\
       cell m' x' y' = mineAt this x' y' /\ 0 <= mineAt this x' y') /\
    (forall x' y', inB this x' y' -> ~ floods this x y x' y' ->
       cell m' x' y' = blockAt this x' y') /\
    reveals this x y (blocks (context this)) m' /\
    un' - countG (height this) (width this) isUnknown m' =
      unknowns (context this) - hiddenBlocks this.
Proof.
  intros [Hb HM] Hsafe Hst Hin Hu Hpos.
  set (m0 := blocks (context this)).
  set (m1 := setCell m0 x y (mineAt this x y)).
  assert (Hm1 : shaped (height this) (width this) m1)
    by (apply shaped_setCell; exact Hb).
  assert (H01 : reveals this x y m0 m1).
  { apply reveals_setCell; try assumption. apply floods_start. }
  assert (Hat1 : cell m1 x y = mineAt this x y).
  { unfold m1. destruct Hin.
    rewrite (cell_setCell (height this) (width this)) by (assumption || lia).
    rewrite !Z.eqb_refl. reflexivity. }
  assert (Hoff1 : forall x' y', inB this x' y' -> (x' <> x \/ y' <> y) ->
            cell m1 x' y' = cell m0 x' y').
  { intros x' y' [Hx' Hy'] Hne. unfold m1. destruct Hin.
    rewrite (cell_setCell (height this) (width this)) by (assumption || lia).
    assert ((x' =? x) && (y' =? y) = false) as ->; [|reflexivity].
    apply andb_false_iff. rewrite !Z.eqb_neq. exact Hne. }
  assert (Hfuel : hiddenZeros this m1 < Z.of_nat (cleanFuel this)).
  { unfold hiddenZeros, cleanFuel.
    eapply Z.le_lt_trans; [apply countIf_le_length|].
    rewrite length_byRows. destruct Hin. nia. }
  destruct (cleanBlock_spec this x y Hsafe (status (context this))
              (unmarkedMines (context this)) (cleanFuel this) m1
              (unknowns (context this)) x y Hm1 H01
              (floods_start _ _ _) Hfuel)
    as (m' & un' & Hclean & Hm' & Hrev & Hcnt & Hroot & Hnew).
  assert (H0' : reveals this x y m0 m')
    by (eapply reveals_trans; eassumption).
  exists m', (un' - 1).
  split.
  { unfold sweep, getBlock.
    rewrite (proj2 (checkCoordinate_Int this x y) Hin). simpl negb. cbv iota.
    unfold bind. cbn [intOf]. rewrite Hu, Hst. simpl orb. cbv iota.
    destruct (Z.eqb_spec (mineAt this x y) MINE_FLAG) as [E|_];
      [unfold MINE_FLAG in E; lia|].
    change (setBlock this x y (mineAt this x y))
      with (update this m1 (status (context this))
              (unmarkedMines (context this)) (unknowns (context this))).
    change (cleanFuel (update this m1 (status (context this))
              (unmarkedMines (context this)) (unknowns (context this))))
      with (cleanFuel this).
    rewrite Hclean, Hst. reflexivity. }
  split; [exact Hm'|].
  assert (Hfl : forall x' y', floods this x y x' y' ->
            inB this x' y' /\ blockAt this x' y' = EBlockStatus.UNKNWON /\
            cell m' x' y' = mineAt this x' y' /\ 0 <= mineAt this x' y' /\
            (mineAt this x' y' = 0 -> closedAt this m' x' y')).
  { intros x' y' Hf. induction Hf as [|cx cy bx by' Hf IH Hz Hadj Hbin Hbu].
    - split; [exact Hin|]. split; [exact Hu|]. split; [|split; [exact Hpos|]].
      + rewrite (reveals_stable this x y m1 m' x y Hrev Hin); [exact Hat1|].
        rewrite Hat1. unfold EBlockStatus.UNKNWON. lia.
      + intros Hz. apply Hroot; assumption.
    - destruct IH as (Hcin & Hcu & Hcv & Hcpos & Hcl).
      specialize (Hcl Hz).
      pose proof (Hcl bx by' Hadj Hbin) as Hne.
      destruct (H0' bx by' Hbin) as [E|(_ & Hv & Hp & _)].
      { exfalso. apply Hne. rewrite E. exact Hbu. }
      split; [exact Hbin|]. split; [exact Hbu|]. split; [exact Hv|].
      split; [exact Hp|]. intros Hbz.
      destruct (decide (bx = x /\ by' = y)) as [[-> ->]|Hxy].
      + apply Hroot; assumption.
      + apply Hnew; try assumption.
        rewrite Hoff1; [exact Hbu|exact Hbin|lia]. }
  split.
  { intros x' y' Hf. destruct (Hfl x' y' Hf) as (H1 & H2 & H3 & H4 & _). auto. }
  split.
  { intros x' y' Hin' Hnf. destruct (H0' x' y' Hin') as [E|(_ & _ & _ & Hf)];
      [exact E|contradiction]. }
  split; [exact H0'|].
  unfold hiddenBlocks. fold m0.
  assert (countG (height this) (width this) isUnknown m1 =
          countG (height this) (width this) isUnknown m0 - 1) as Hc1.
  { unfold m1. destruct Hin.
    rewrite (countG_setCell (height this) (width this)) by assumption.
    change (cell m0 x y) with (blockAt this x y). rewrite Hu.
    unfold isUnknown, EBlockStatus.UNKNWON, EBlockStatus.QUESTION. simpl.
    destruct (Z.eqb_spec (mineAt this x y) (-1)); [lia|].
    destruct (Z.eqb_spec (mineAt this x y) (-3)); [lia|].
    simpl. lia. }
  lia.
Qed.

(** * The invariant of the game *)

(** While the game is on, a block shows Hidden, a flag, a question mark,
    or, if it is no mine, its count. *)
Definition cellsOK (this : IPrivateData) : Prop :=
  forall x y, inB this x y ->
    blockAt this x y = EBlockStatus.UNKNWON \/
    blockAt this x y = EBlockStatus.MARKED \/
    blockAt this x y = EBlockStatus.QUESTION \/
    (blockAt this x y = mineAt this x y /\ mineAt this x y <> MINE_FLAG).

(** The two counters agree with the visible grid. *)
Definition counted (this : IPrivateData) : Prop :=
  unknowns (context this) = hiddenBlocks this /\
  unmarkedMines (context this) = mineQuantity this - markedBlocks this.

Definition playingOK (this : IPrivateData) : Prop :=
  cellsOK this /\ counted this /\
  unknowns (context this) <> unmarkedMines (context this).

Definition wonOK (this : IPrivateData) : Prop :=
  unknowns (context this) = 0 /\ unmarkedMines (context this) = 0 /\
  forall x y, inB this x y ->
    blockAt this x y =
    if mineAt this x y =? MINE_FLAG then EBlockStatus.MARKED
    else mineAt this x y.

Definition Inv (this : IPrivateData) : Prop :=
  board this /\
  match status (context this) with
  | PLAYING => playingOK this
  | WIN => wonOK this
  | FAILED => True
  end.

(** Every block without a mine shows its count. *)
Definition allRevealed (this : IPrivateData) : Prop :=
  forall x y, inB this x y -> mineAt this x y <> MINE_FLAG ->
    blockAt this x y = mineAt this x y.

(** The number of blocks without a mine that do not show their count. *)
Definition pending (this : IPrivateData) : Z :=
  countIf (fun b => negb (mineAt this (X b) (Y b) =? MINE_FLAG) &&
                    negb (blockAt this (X b) (Y b) =? mineAt this (X b) (Y b)))
    (byRows (height this) (width this)).

Lemma pending_zero this : pending this = 0 <-> allRevealed this.
Proof.
  unfold pending. rewrite countIf_zero. split.
  - intros H x y Hin Hne.
    specialize (H (mkBlock x y)). simpl in H.
    destruct (Z.eqb_spec (mineAt this x y) MINE_FLAG); [contradiction|].
    destruct (Z.eqb_spec (blockAt this x y) (mineAt this x y)); [assumption|].
    discriminate H. apply elem_of_byRows. exact Hin.
  - intros H b Hb. apply elem_of_byRows in Hb.
    destruct (Z.eqb_spec (mineAt this (X b) (Y b)) MINE_FLAG); [reflexivity|].
    rewrite (H _ _ Hb) by assumption. rewrite Z.eqb_refl. reflexivity.
Qed.

Lemma pending_cell v M :
  (M <> -1 -> 0 <= M) ->
  v = -1 \/ v = -2 \/ v = -3 \/ (v = M /\ M <> -1) ->
  (if isUnknown v then 1 else 0 : Z) + (if isMarked v then 1 else 0) =
  (if M =? -1 then 1 else 0) +
  (if negb (M =? -1) && negb (v =? M) then 1 else 0).
Proof.
  intros Hpos Hv.
  unfold isUnknown, isMarked, EBlockStatus.UNKNWON, EBlockStatus.MARKED,
    EBlockStatus.QUESTION.
  destruct (Z.eqb_spec v (-1)), (Z.eqb_spec v (-3)), (Z.eqb_spec v (-2)),
    (Z.eqb_spec M (-1)), (Z.eqb_spec v M); simpl; lia.
Qed.

Lemma pending_count this :
  board this -> cellsOK this ->
  hiddenBlocks this + markedBlocks this = mineQuantity this + pending this.
Proof.
  intros (_ & _ & Hok & Hq) Hcells. rewrite <- Hq.
  unfold hiddenBlocks, markedBlocks, minedBlocks, pending, countG.
  apply countIf_balance. intros b Hb. apply elem_of_byRows in Hb.
  apply (pending_cell (blockAt this (X b) (Y b)) (mineAt this (X b) (Y b))).
  - apply (minesOK_count this _ _ Hok Hb).
  - exact (Hcells _ _ Hb).
Qed.

Lemma board_update this m st um un :
  board this -> shaped (height this) (width this) m ->
  board (update this m st um un).
Proof.
  intros (Hv & [_ HM] & Hok & Hq) Hm.
  split; [exact Hv|]. split; [split; [exact Hm|exact HM]|].
  split; [exact Hok|exact Hq].
Qed.

(** The win check on a state that is consistent but for the test itself. *)
Lemma checkWin_Inv this :
  board this -> status (context this) = PLAYING ->
  cellsOK this -> counted this ->
  Inv (_checkWin this) /\
  (unknowns (context this) <> unmarkedMines (context this) ->
   _checkWin this = this) /\
  (unknowns (context this) = unmarkedMines (context this) ->
   exists m, _checkWin this = update this m WIN 0 0 /\
     shaped (height this) (width this) m /\
     allRevealed this /\
     forall x y, inB this x y ->
       cell m x y = if mineAt this x y =? MINE_FLAG then EBlockStatus.MARKED
                    else blockAt this x y).
Proof.
  intros Hboard Hst Hcells [Hun Hum].
  pose proof (pending_count this Hboard Hcells) as Hp.
  destruct (Z.eq_dec (unknowns (context this)) (unmarkedMines (context this)))
    as [E|E].
  - destruct (checkWin_win this (proj1 (proj2 Hboard)) E)
      as (m & Hw & Hm & Hc).
    assert (Hall : allRevealed this) by (apply pending_zero; lia).
    split; [|split; [intros; contradiction|]].
    + rewrite Hw. split; [apply board_update; assumption|].
      split; [reflexivity|]. split; [reflexivity|].
      intros x y Hin. change (blockAt (update this m WIN 0 0) x y) with (cell m x y).
      change (mineAt (update this m WIN 0 0) x y) with (mineAt this x y).
      rewrite (Hc x y Hin). unfold MINE_FLAG.
      destruct (Z.eqb_spec (mineAt this x y) (-1)); [reflexivity|].
      apply Hall; assumption.
    + intros _. exists m. auto.
  - rewrite (checkWin_keep this E).
    split; [|split; [reflexivity|intros; contradiction]].
    split; [exact Hboard|]. rewrite Hst. repeat split; assumption.
Qed.

(** [g'] is [this] after some play: same dimensions, same layout, same
    options, same starting time. *)
Definition evolves (this g' : IPrivateData) : Prop :=
  exists m st um un, g' = update this m st um un.

Lemma evolves_refl this : evolves this this.
Proof. eexists _, _, _, _. symmetry. apply update_id. Qed.

Lemma evolves_trans a b c : evolves a b -> evolves b c -> evolves a c.
Proof.
  intros (m & st & um & un & ->) (m' & st' & um' & un' & ->).
  exists m', st', um', un'. reflexivity.
Qed.

Lemma evolves_inB this g' x y : evolves this g' -> inB this x y -> inB g' x y.
Proof. intros (m & st & um & un & ->) H. exact H. Qed.

Lemma evolves_mineAt this g' x y :
  evolves this g' -> mineAt g' x y = mineAt this x y.
Proof. intros (m & st & um & un & ->). reflexivity. Qed.

(** * Marking *)

(** The transition table of the specification: for the state a block shows
    and the requested style, the change of both counters and the new state. *)
Definition markTable (v : Z) (style : EMarkStyle.t) : option (Z * Z) :=
  if v =? EBlockStatus.UNKNWON then
    Some match style with
         | EMarkStyle.UNMARKED => (0, EBlockStatus.UNKNWON)
         | EMarkStyle.MINE => (-1, EBlockStatus.MARKED)
         | EMarkStyle.QUESTION => (0, EBlockStatus.QUESTION)
         end
  else if v =? EBlockStatus.QUESTION then
    Some match style with
         | EMarkStyle.UNMARKED => (0, EBlockStatus.UNKNWON)
         | EMarkStyle.MINE => (-1, EBlockStatus.MARKED)
         | EMarkStyle.QUESTION => (0, EBlockStatus.QUESTION)
         end
  else if v =? EBlockStatus.MARKED then
    Some match style with
         | EMarkStyle.UNMARKED => (1, EBlockStatus.UNKNWON)
         | EMarkStyle.MINE => (0, EBlockStatus.MARKED)
         | EMarkStyle.QUESTION => (1, EBlockStatus.QUESTION)
         end
  else None.

Lemma markTable_Some v style d v' :
  markTable v style = Some (d, v') ->
  (v = -1 \/ v = -2 \/ v = -3) /\ (v' = -1 \/ v' = -2 \/ v' = -3) /\
  d = (if isUnknown v' then 1 else 0) - (if isUnknown v then 1 else 0) /\
  d = (if isMarked v then 1 else 0) - (if isMarked v' then 1 else 0).
Proof.
  unfold markTable, EBlockStatus.UNKNWON, EBlockStatus.MARKED,
    EBlockStatus.QUESTION.
  destruct (Z.eqb_spec v (-1)) as [->|];
    [|destruct (Z.eqb_spec v (-3)) as [->|];
      [|destruct (Z.eqb_spec v (-2)) as [->|]; [|discriminate]]];
    destruct style; intros H; inversion H; subst; vm_compute; auto 10.
Qed.

Lemma markTable_None v style :
  v <> EBlockStatus.UNKNWON /\ v <> EBlockStatus.MARKED /\
  v <> EBlockStatus.QUESTION ->
  markTable v style = None.
Proof.
  intros (H1 & H2 & H3). unfold markTable.
  destruct (Z.eqb_spec v EBlockStatus.UNKNWON); [contradiction|].
  destruct (Z.eqb_spec v EBlockStatus.QUESTION); [contradiction|].
  destruct (Z.eqb_spec v EBlockStatus.MARKED); [contradiction|].
  reflexivity.
Qed.

(** [mark] on a block of the board while the game is on, when the win
    test fails both before and after the change. *)
Lemma mark_table this x y style :
  wf this -> status (context this) = PLAYING ->
  unknowns (context this) <> unmarkedMines (context this) ->
  inB this x y ->
  mark this (Int x) (Int y) style =
  match markTable (blockAt this x y) style with
  | Some (d, v') =>
    Ok (true,
        update this (setCell (blocks (context this)) x y v') PLAYING
          (unmarkedMines (context this) + d) (unknowns (context this) + d))
  | None => Ok (false, this)
  end.
Proof.
  intros [Hb _] Hst Hne Hin. unfold mark, getBlock.
  rewrite Hst, (proj2 (checkCoordinate_Int this x y) Hin).
  simpl negb. cbv iota. unfold bind. cbn [intOf].
  assert (Hid : this =
            update this (setCell (blocks (context this)) x y (blockAt this x y))
              PLAYING (unmarkedMines (context this) + 0)
              (unknowns (context this) + 0)).
  { unfold blockAt. destruct Hin.
    rewrite (setCell_same _ _ _ _ _ Hb) by assumption.
    rewrite !Z.add_0_r, <- Hst. symmetry. apply update_id. }
  assert (Hto : forall d v,
            _checkWin (markTo this x y d v) =
            update this (setCell (blocks (context this)) x y v) PLAYING
              (unmarkedMines (context this) + d) (unknowns (context this) + d)).
  { intros d v. rewrite checkWin_keep; [|simpl; lia].
    rewrite <- Hst. reflexivity. }
  assert (Hset : forall v,
            _checkWin (setBlock this x y v) =
            update this (setCell (blocks (context this)) x y v) PLAYING
              (unmarkedMines (context this) + 0) (unknowns (context this) + 0)).
  { intros v. rewrite checkWin_keep; [|simpl; lia].
    rewrite !Z.add_0_r, <- Hst. reflexivity. }
  assert (Hkeep : _checkWin this = this) by (apply checkWin_keep; exact Hne).
  unfold markTable.
  unfold EBlockStatus.UNKNWON, EBlockStatus.MARKED, EBlockStatus.QUESTION in *.
  destruct (Z.eqb_spec (blockAt this x y) (-2)) as [E|E2].
  { rewrite E in *. simpl.
    destruct style; rewrite ?Hto, ?Hkeep; try reflexivity.
    f_equal. f_equal. exact Hid. }
  destruct (Z.eqb_spec (blockAt this x y) (-3)) as [E|E3].
  { rewrite E in *. simpl.
    destruct style; rewrite ?Hto, ?Hset, ?Hkeep; try reflexivity.
    f_equal. f_equal. exact Hid. }
  destruct (Z.eqb_spec (blockAt this x y) (-1)) as [E|E1].
  { rewrite E in *. simpl.
    destruct style; rewrite ?Hto, ?Hset, ?Hkeep; try reflexivity.
    f_equal. f_equal. exact Hid. }
  reflexivity.
Qed.

Lemma mark_Inv this x y style r g' :
  Inv this -> mark this x y style = Ok (r, g') ->
  Inv g' /\ evolves this g'.
Proof.
  intros HI Hmark. pose proof HI as [Hboard Hplay].
  destruct (status (context this)) eqn:Hst.
  2,3: unfold mark in Hmark; rewrite Hst in Hmark; simpl in Hmark;
       inversion Hmark; subst; split; [exact HI|apply evolves_refl].
  destruct Hplay as (Hcells & [Hun Hum] & Hne).
  destruct (_checkCoordinate this x y) eqn:Hchk.
  2:{ unfold mark, getBlock in Hmark. rewrite Hst, Hchk in Hmark.
      discriminate. }
  apply checkCoordinate_true in Hchk as (xi & yi & -> & -> & Hin).
  pose proof Hboard as (_ & Hwf & _).
  rewrite (mark_table this xi yi style Hwf Hst Hne Hin) in Hmark.
  destruct (markTable (blockAt this xi yi) style) as [[d v']|] eqn:Ht.
  2:{ inversion Hmark; subst. split; [exact HI|apply evolves_refl]. }
  inversion Hmark; subst; clear Hmark.
  split; [|eexists _, _, _, _; reflexivity].
  apply markTable_Some in Ht as (Hv & Hv' & Hd1 & Hd2).
  destruct Hwf as [Hb HM]. destruct Hin as [Hx Hy].
  split; [apply board_update; [exact Hboard|apply shaped_setCell; exact Hb]|].
  simpl status. cbv iota. split; [|split; [split|]].
  - intros x' y' [Hx' Hy'].
    change (blockAt (update this ?m _ _ _) x' y') with (cell m x' y').
    change (mineAt (update this _ _ _ _) x' y') with (mineAt this x' y').
    rewrite (cell_setCell (height this) (width this)) by (assumption || lia).
    destruct ((x' =? xi) && (y' =? yi)).
    + unfold EBlockStatus.UNKNWON, EBlockStatus.MARKED, EBlockStatus.QUESTION.
      destruct Hv' as [-> | [-> | ->]]; auto.
    + apply Hcells. split; assumption.
  - change (unknowns (context this) + d =
            countG (height this) (width this) isUnknown
              (setCell (blocks (context this)) xi yi v')).
    rewrite (countG_setCell (height this) (width this)) by assumption.
    fold (blockAt this xi yi). fold (hiddenBlocks this). lia.
  - change (unmarkedMines (context this) + d =
            mineQuantity this -
            countG (height this) (width this) isMarked
              (setCell (blocks (context this)) xi yi v')).
    rewrite (countG_setCell (height this) (width this)) by assumption.
    fold (blockAt this xi yi). fold (markedBlocks this). lia.
  - simpl. lia.
Qed.

(** * Sweeping *)

Lemma sweep_noop this x y :
  inB this x y ->
  status (context this) <> PLAYING \/ blockAt this x y <> EBlockStatus.UNKNWON ->
  sweep this (Int x) (Int y) = Ok (status (context this), this).
Proof.
  intros Hin H. unfold sweep, getBlock.
  rewrite (proj2 (checkCoordinate_Int this x y) Hin). simpl.
  destruct H as [H|H].
  - destruct (status (context this)); [contradiction|reflexivity..].
  - destruct (Z.eqb_spec (blockAt this x y) EBlockStatus.UNKNWON);
      [contradiction|].
    rewrite orb_true_r. reflexivity.
Qed.

Lemma sweep_mine this x y :
  status (context this) = PLAYING -> inB this x y ->
  blockAt this x y = EBlockStatus.UNKNWON -> mineAt this x y = MINE_FLAG ->
  sweep this (Int x) (Int y) =
  Ok (status (context (_die this x y)), _die this x y).
Proof.
  intros Hst Hin Hu Hm. unfold sweep, getBlock.
  rewrite (proj2 (checkCoordinate_Int this x y) Hin). simpl.
  rewrite Hst, Hu, Hm. reflexivity.
Qed.

(** The state on which the win check of a safe sweep runs is consistent. *)
Lemma sweep_safe_counted this x y m' un' :
  Inv this -> status (context this) = PLAYING ->
  shaped (height this) (width this) m' ->
  reveals this x y (blocks (context this)) m' ->
  un' - countG (height this) (width this) isUnknown m' =
    unknowns (context this) - hiddenBlocks this ->
  let g := update this m' PLAYING (unmarkedMines (context this)) un' in
  board g /\ cellsOK g /\ counted g.
Proof.
  intros [Hboard Hplay] Hst Hm' Hrev Hcnt g. rewrite Hst in Hplay.
  destruct Hplay as (Hcells & [Hun Hum] & Hne).
  split; [apply board_update; assumption|]. split; [|split].
  - intros x' y' Hin.
    change (blockAt g x' y') with (cell m' x' y').
    change (mineAt g x' y') with (mineAt this x' y').
    destruct (Hrev x' y' Hin) as [E|(_ & E & Hpos & _)].
    + rewrite E. apply Hcells. exact Hin.
    + right. right. right. split; [exact E|]. unfold MINE_FLAG. lia.
  - change (un' = countG (height this) (width this) isUnknown m'). lia.
  - change (unmarkedMines (context this) =
            mineQuantity this - countG (height this) (width this) isMarked m').
    rewrite Hum. f_equal. unfold markedBlocks, countG.
    apply countIf_ext. intros b Hb. apply elem_of_byRows in Hb.
    destruct (Hrev _ _ Hb) as [E|(E0 & E & Hpos & _)].
    + rewrite E. reflexivity.
    + rewrite E0, E. unfold isMarked, EBlockStatus.MARKED, EBlockStatus.UNKNWON.
      destruct (Z.eqb_spec (mineAt this (X b) (Y b)) (-2)); [lia|reflexivity].
Qed.

Lemma sweep_Inv this x y :
  Inv this -> inB this x y ->
  exists g', sweep this (Int x) (Int y) = Ok (status (context g'), g') /\
             Inv g' /\ evolves this g'.
Proof.
  intros HI Hin. pose proof HI as [Hboard Hplay].
  destruct (decide (status (context this) = PLAYING)) as [Hst|Hst].
  2:{ exists this. rewrite sweep_noop by auto.
      split; [reflexivity|]. split; [exact HI|apply evolves_refl]. }
  destruct (Z.eq_dec (blockAt this x y) EBlockStatus.UNKNWON) as [Hu|Hu].
  2:{ exists this. rewrite sweep_noop by auto.
      split; [reflexivity|]. split; [exact HI|apply evolves_refl]. }
  pose proof Hboard as (_ & Hwf & Hok & _).
  destruct (Z.eq_dec (mineAt this x y) MINE_FLAG) as [Hm|Hm].
  - rewrite (sweep_mine this x y Hst Hin Hu Hm).
    destruct (die_spec this x y Hwf Hin) as (m & -> & Hs & _).
    eexists. split; [reflexivity|]. split; [|eexists _, _, _, _; reflexivity].
    split; [apply board_update; assumption|exact I].
  - destruct (sweep_safe this x y Hwf (minesOK_safeZeros _ Hok) Hst Hin Hu
                (minesOK_count _ _ _ Hok Hin Hm))
      as (m' & un' & -> & Hm' & _ & _ & Hrev & Hcnt).
    destruct (sweep_safe_counted this x y m' un' HI Hst Hm' Hrev Hcnt)
      as (Hb & Hc & Hn).
    destruct (checkWin_Inv _ Hb eq_refl Hc Hn) as (HI' & Hkeep & Hwin).
    eexists. split; [reflexivity|]. split; [exact HI'|].
    destruct (Z.eq_dec un' (unmarkedMines (context this))) as [E|E].
    + destruct (Hwin E) as (m'' & -> & _). eexists _, _, _, _; reflexivity.
    + rewrite (Hkeep E). eexists _, _, _, _; reflexivity.
Qed.

(** * Exploring *)

Lemma exploreLoop_Inv blks : forall this,
  Inv this -> (forall b, b ∈ blks -> inB this (X b) (Y b)) ->
  exists g', exploreLoop this blks = Ok (status (context g'), g') /\
             Inv g' /\ evolves this g'.
Proof.
  induction blks as [|b blks IH]; intros this HI Hin.
  - exists this. split; [reflexivity|]. split; [exact HI|apply evolves_refl].
  - cbn [exploreLoop].
    assert (Hb : inB this (X b) (Y b)) by (apply Hin; apply list_elem_of_here).
    assert (Hstep : exists g1,
              (if blockAt this (X b) (Y b) =? EBlockStatus.UNKNWON
               then bind (sweep this (Int (X b)) (Int (Y b)))
                      (fun r => Ok (snd r))
               else Ok this) = Ok g1 /\ Inv g1 /\ evolves this g1).
    { destruct (blockAt this (X b) (Y b) =? EBlockStatus.UNKNWON).
      - destruct (sweep_Inv this (X b) (Y b) HI Hb) as (g1 & -> & H1 & H2).
        exists g1. auto.
      - exists this. split; [reflexivity|].
        split; [exact HI|apply evolves_refl]. }
    destruct Hstep as (g1 & -> & HI1 & Hev1). cbn [bind].
    destruct (status (context g1)) eqn:Hst1; simpl.
    + destruct (IH g1 HI1) as (g' & -> & HI' & Hev').
      { intros b' Hb'. eapply evolves_inB; [exact Hev1|].
        apply Hin. apply list_elem_of_further. exact Hb'. }
      exists g'. split; [reflexivity|]. split; [exact HI'|].
      eapply evolves_trans; eassumption.
    + exists g1. rewrite Hst1. auto.
    + exists g1. rewrite Hst1. auto.
Qed.

Lemma explore_Inv this x y :
  Inv this -> inB this x y ->
  exists g', explore this (Int x) (Int y) = Ok (status (context g'), g') /\
             Inv g' /\ evolves this g'.
Proof.
  intros HI Hin. unfold explore, getBlock.
  rewrite (proj2 (checkCoordinate_Int this x y) Hin). simpl negb. cbv iota.
  cbn [bind intOf].
  destruct (negb (status_eqb (status (context this)) PLAYING) ||
            (blockAt this x y <? 0)).
  { exists this. split; [reflexivity|]. split; [exact HI|apply evolves_refl]. }
  destruct (_ >=? _).
  - apply exploreLoop_Inv; [exact HI|].
    intros b Hb. apply elem_of_findBlocksAround in Hb. apply Hb.
  - exists this. split; [reflexivity|]. split; [exact HI|apply evolves_refl].
Qed.

(** * Reachable games *)

(** A game is what the constructor returns, and what [restart], [mark],
    [sweep] and [explore] make of a game.  The draws of [Math.random] fall
    inside the board. *)
Inductive reachable : IPrivateData -> Prop :=
| reach_create h w q s now draws g :
    Forall (fun d => 0 <= fst d < intOf h /\ 0 <= snd d < intOf w) draws ->
    createMineSweeper h w q s now draws = Ok g ->
    reachable g
| reach_restart this now draws g :
    reachable this -> drawsInRange this draws ->
    restart this now draws = Ok g ->
    reachable g
| reach_mark this x y style r g :
    reachable this -> mark this x y style = Ok (r, g) -> reachable g
| reach_sweep this x y st g :
    reachable this -> sweep this x y = Ok (st, g) -> reachable g
| reach_explore this x y st g :
    reachable this -> explore this x y = Ok (st, g) -> reachable g.

Lemma fresh_Inv this : board this -> freshBoard this -> Inv this.
Proof.
  intros Hboard (Hall & Hum & Hun & Hst).
  split; [exact Hboard|]. rewrite Hst.
  destruct Hboard as (Hv & _). pose proof (validDims_width _ Hv) as Hw.
  destruct Hv as [Hh Hq].
  assert (Hhid : hiddenBlocks this = width this * height this).
  { unfold hiddenBlocks, countG. rewrite countIf_all.
    - rewrite length_byRows. lia.
    - intros b Hb. apply elem_of_byRows in Hb.
      fold (blockAt this (X b) (Y b)). rewrite (Hall _ _ Hb). reflexivity. }
  assert (Hmk : markedBlocks this = 0).
  { unfold markedBlocks, countG. apply countIf_zero.
    intros b Hb. apply elem_of_byRows in Hb.
    fold (blockAt this (X b) (Y b)). rewrite (Hall _ _ Hb). reflexivity. }
  split; [|split; [split|]].
  - intros x y Hin. left. apply Hall. exact Hin.
  - lia.
  - lia.
  - lia.
Qed.

Lemma sweep_Ok_Int this x y st g :
  sweep this x y = Ok (st, g) ->
  exists xi yi, x = Int xi /\ y = Int yi /\ inB this xi yi.
Proof.
  intros H. apply checkCoordinate_true.
  destruct (_checkCoordinate this x y) eqn:Hchk; [reflexivity|].
  unfold sweep, getBlock in H. rewrite Hchk in H. discriminate.
Qed.

Lemma explore_Ok_Int this x y st g :
  explore this x y = Ok (st, g) ->
  exists xi yi, x = Int xi /\ y = Int yi /\ inB this xi yi.
Proof.
  intros H. apply checkCoordinate_true.
  destruct (_checkCoordinate this x y) eqn:Hchk; [reflexivity|].
  unfold explore, getBlock in H. rewrite Hchk in H. discriminate.
Qed.

Lemma reachable_Inv g : reachable g -> Inv g.
Proof.
  induction 1 as [h w q s now draws g Hdr Hc
                 |this now draws g _ IH Hdr Hr
                 |this x y style r g _ IH Hm
                 |this x y st g _ IH Hs
                 |this x y st g _ IH He].
  - apply createMineSweeper_restart in Hc
      as (base & Hv & Hh & Hw & _ & _ & _ & _ & _ & Hr).
    assert (Hdr' : drawsInRange base draws).
    { unfold drawsInRange. rewrite Hh, Hw. exact Hdr. }
    destruct (restart_spec base now draws g Hv Hdr' Hr)
      as (_ & _ & _ & _ & _ & _ & Hb & Hf).
    apply fresh_Inv; assumption.
  - destruct IH as [(Hv & _) _].
    destruct (restart_spec this now draws g Hv Hdr Hr)
      as (_ & _ & _ & _ & _ & _ & Hb & Hf).
    apply fresh_Inv; assumption.
  - exact (proj1 (mark_Inv this x y style r g IH Hm)).
  - destruct (sweep_Ok_Int _ _ _ _ _ Hs) as (xi & yi & -> & -> & Hin).
    destruct (sweep_Inv this xi yi IH Hin) as (g' & Hs' & HI & _).
    rewrite Hs' in Hs. inversion Hs; subst. exact HI.
  - destruct (explore_Ok_Int _ _ _ _ _ He) as (xi & yi & -> & -> & Hin).
    destruct (explore_Inv this xi yi IH Hin) as (g' & He' & HI & _).
    rewrite He' in He. inversion He; subst. exact HI.
Qed.

(** * Two concrete games *)

(** Two rows, two columns, mines on the diagonal. *)
Definition game22 : IPrivateData :=
  {| context :=
       {| blocks := [[-1; -1]; [-1; -1]];
          mines := [[-1; 2]; [2; -1]];
          unmarkedMines := 2; startedAt := 0; status := PLAYING;
          unknowns := 4 |};
     height := 2; width := 2; mineQuantity := 2;
     showMinesOnlyOnFailed := false |}.

Lemma game22_created :
  createMineSweeper (Int 2) (Int 2) (Int 2) false 0 [(0, 0); (0, 0); (1, 1)]
  = Ok game22.
Proof. reflexivity. Qed.

Lemma game22_reachable : reachable game22.
Proof.
  apply (reach_create (Int 2) (Int 2) (Int 2) false 0 [(0, 0); (0, 0); (1, 1)]);
    [|exact game22_created].
  repeat constructor; simpl; lia.
Qed.

(** Three rows, four columns, two mines in the last column. *)
Definition game34 : IPrivateData :=
  {| context :=
       {| blocks := [[-1; -1; -1; -1]; [-1; -1; -1; -1]; [-1; -1; -1; -1]];
          mines := [[0; 0; 1; -1]; [0; 0; 2; 2]; [0; 0; 1; -1]];
          unmarkedMines := 2; startedAt := 0; status := PLAYING;
          unknowns := 12 |};
     height := 3; width := 4; mineQuantity := 2;
     showMinesOnlyOnFailed := false |}.

Lemma game34_created :
  createMineSweeper (Int 3) (Int 4) (Int 2) false 0 [(0, 3); (2, 3)] = Ok game34.
Proof. reflexivity. Qed.

Lemma game34_reachable : reachable game34.
Proof.
  apply (reach_create (Int 3) (Int 4) (Int 2) false 0 [(0, 3); (2, 3)]);
    [|exact game34_created].
  repeat constructor; simpl; lia.
Qed.

(** [game22] after the mine at the origin has been swept. *)
Definition lost22 : IPrivateData :=
  {| context :=
       {| blocks := [[-6; 2]; [2; -5]];
          mines := [[-1; 2]; [2; -1]];
          unmarkedMines := 2; startedAt := 0; status := FAILED;
          unknowns := 4 |};
     height := 2; width := 2; mineQuantity := 2;
     showMinesOnlyOnFailed := false |}.

Lemma lost22_swept : sweep game22 (Int 0) (Int 0) = Ok (FAILED, lost22).
Proof. reflexivity. Qed.

Lemma lost22_reachable : reachable lost22.
Proof.
  exact (reach_sweep game22 (Int 0) (Int 0) FAILED lost22
           game22_reachable lost22_swept).
Qed.

(** [game22] after the block right of the origin has been swept, and after
    the block below the origin has been swept too. *)
Definition played22 : IPrivateData :=
  {| context :=
       {| blocks := [[-1; 2]; [-1; -1]];
          mines := [[-1; 2]; [2; -1]];
          unmarkedMines := 2; startedAt := 0; status := PLAYING;
          unknowns := 3 |};
     height := 2; width := 2; mineQuantity := 2;
     showMinesOnlyOnFailed := false |}.

Definition won22 : IPrivateData :=
  {| context :=
       {| blocks := [[-2; 2]; [2; -2]];
          mines := [[-1; 2]; [2; -1]];
          unmarkedMines := 0; startedAt := 0; status := WIN;
          unknowns := 0 |};
     height := 2; width := 2; mineQuantity := 2;
     showMinesOnlyOnFailed := false |}.

Lemma played22_swept : sweep game22 (Int 1) (Int 0) = Ok (PLAYING, played22).
Proof. reflexivity. Qed.

Lemma won22_swept : sweep played22 (Int 0) (Int 1) = Ok (WIN, won22).
Proof. reflexivity. Qed.

Lemma played22_reachable : reachable played22.
Proof.
  exact (reach_sweep game22 (Int 1) (Int 0) PLAYING played22
           game22_reachable played22_swept).
Qed.

Lemma won22_reachable : reachable won22.
Proof.
  exact (reach_sweep played22 (Int 0) (Int 1) WIN won22
           played22_reachable won22_swept).
Qed.

(** * Coordinates outside the board *)

(** C1, as the code has it: on an out-of-range or non-integer coordinate
    pair [getBlock], [sweep] and [explore] throw OUT_TO_BOUNDARY whatever the
    status; [mark] throws it while the game is on and returns [false]
    otherwise.  A call that throws hands back no new state, and the one that
    returns hands back the state it was given. *)
Theorem invalid_coordinate_outcomes this x y :
  _checkCoordinate this x y = false ->
  getBlock this x y = Throw OUT_TO_BOUNDARY /\
  sweep this x y = Throw OUT_TO_BOUNDARY /\
  explore this x y = Throw OUT_TO_BOUNDARY /\
  forall style,
    mark this x y style =
    if status_eqb (status (context this)) PLAYING
    then Throw OUT_TO_BOUNDARY else Ok (false, this).
Proof.
  intros H.
  assert (Hg : getBlock this x y = Throw OUT_TO_BOUNDARY)
    by (unfold getBlock; rewrite H; reflexivity).
  split; [exact Hg|].
  split; [unfold sweep; rewrite Hg; reflexivity|].
  split; [unfold explore; rewrite Hg; reflexivity|].
  intros style. unfold mark. rewrite Hg.
  destruct (status_eqb (status (context this)) PLAYING); reflexivity.
Qed.

Lemma invalid_coordinate_outcomes_witness :
  sweep game22 (Int 2) (Int 0) = Throw OUT_TO_BOUNDARY /\
  explore lost22 NonInt (Int 1) = Throw OUT_TO_BOUNDARY /\
  mark lost22 NonInt (Int 1) EMarkStyle.MINE = Ok (false, lost22).
Proof.
  split; [|split].
  - apply (invalid_coordinate_outcomes game22 (Int 2) (Int 0)). reflexivity.
  - apply (invalid_coordinate_outcomes lost22 NonInt (Int 1)). reflexivity.
  - apply (proj2 (proj2 (proj2
      (invalid_coordinate_outcomes lost22 NonInt (Int 1) eq_refl)))
      EMarkStyle.MINE).
Defined.

(** C1 as stated fails: sweeping a column outside the board of a game
    that is on does not return the current status, it throws. *)
Lemma sweep_outside_throws :
  reachable game22 /\
  _checkCoordinate game22 (Int 2) (Int 0) = false /\
  sweep game22 (Int 2) (Int 0) = Throw OUT_TO_BOUNDARY /\
  sweep game22 (Int 2) (Int 0) <> Ok (getStatus game22, game22) /\
  explore game22 (Int 2) (Int 0) = Throw OUT_TO_BOUNDARY /\
  mark game22 (Int 2) (Int 0) EMarkStyle.MINE = Throw OUT_TO_BOUNDARY.
Proof.
  split; [exact game22_reachable|].
  repeat split; try reflexivity. discriminate.
Qed.

(** * Winning *)

Inductive Action : Type :=
| DoMark (x y : number) (style : EMarkStyle.t)
| DoSweep (x y : number)
| DoExplore (x y : number).

(** The action is accepted and leads from [this] to [g']: [mark] returns
    [true]; [sweep] and [explore] return. *)
Definition accepted (this : IPrivateData) (a : Action) (g' : IPrivateData)
  : Prop :=
  match a with
  | DoMark x y style => mark this x y style = Ok (true, g')
  | DoSweep x y => exists st, sweep this x y = Ok (st, g')
  | DoExplore x y => exists st, explore this x y = Ok (st, g')
  end.

Lemma accepted_reachable this a g' :
  reachable this -> accepted this a g' -> reachable g' /\ evolves this g'.
Proof.
  intros Hr Ha. pose proof (reachable_Inv _ Hr) as HI.
  destruct a as [x y style|x y|x y]; simpl in Ha.
  - split; [eapply reach_mark; eassumption|].
    exact (proj2 (mark_Inv _ _ _ _ _ _ HI Ha)).
  - destruct Ha as [st Hs]. split; [eapply reach_sweep; eassumption|].
    destruct (sweep_Ok_Int _ _ _ _ _ Hs) as (xi & yi & -> & -> & Hin).
    destruct (sweep_Inv this xi yi HI Hin) as (g1 & Hs' & _ & Hev).
    rewrite Hs' in Hs. inversion Hs; subst. exact Hev.
  - destruct Ha as [st He]. split; [eapply reach_explore; eassumption|].
    destruct (explore_Ok_Int _ _ _ _ _ He) as (xi & yi & -> & -> & Hin).
    destruct (explore_Inv this xi yi HI Hin) as (g1 & He' & _ & Hev).
    rewrite He' in He. inversion He; subst. exact Hev.
Qed.

Lemma playing_not_allRevealed this :
  Inv this -> status (context this) = PLAYING -> ~ allRevealed this.
Proof.
  intros [Hboard Hplay] Hst Hall. rewrite Hst in Hplay.
  destruct Hplay as (Hcells & [Hun Hum] & Hne).
  pose proof (pending_count this Hboard Hcells) as Hp.
  apply pending_zero in Hall. lia.
Qed.

Lemma won_allRevealed this :
  Inv this -> status (context this) = WIN -> allRevealed this.
Proof.
  intros [_ Hwon] Hst x y Hin Hne. rewrite Hst in Hwon.
  destruct Hwon as (_ & _ & Hc). rewrite (Hc x y Hin).
  destruct (Z.eqb_spec (mineAt this x y) MINE_FLAG); [contradiction|reflexivity].
Qed.

(** C2, amended: from a game that is on, an accepted mark, sweep or explore
    that does not lose the game leaves it won exactly when every block
    without a mine shows its count; and when it leaves it won, no mine is
    left to mark, every mine shows a flag, and every count that was
    visible before is still there. *)
Theorem won_iff_all_revealed this a g' :
  reachable this -> status (context this) = PLAYING ->
  accepted this a g' -> status (context g') <> FAILED ->
  (status (context g') = WIN <-> allRevealed g') /\
  (status (context g') = WIN ->
   getRestMineQuantity g' = 0 /\
   (forall x y, inB g' x y -> mineAt g' x y = MINE_FLAG ->
      blockAt g' x y = EBlockStatus.MARKED) /\
   (forall x y, inB this x y -> mineAt this x y <> MINE_FLAG ->
      0 <= blockAt this x y -> blockAt g' x y = blockAt this x y)).
Proof.
  intros Hr Hst Ha Hnf.
  destruct (accepted_reachable this a g' Hr Ha) as [Hr' Hev].
  pose proof (reachable_Inv _ Hr) as HI.
  pose proof (reachable_Inv _ Hr') as HI'.
  split.
  - split; [apply won_allRevealed; exact HI'|].
    intros Hall. destruct (status (context g')) eqn:Hst'; try reflexivity.
    + exfalso. exact (playing_not_allRevealed g' HI' Hst' Hall).
    + contradiction.
  - intros Hw. pose proof HI' as [_ Hwon]. rewrite Hw in Hwon.
    destruct Hwon as (_ & Hum & Hc).
    split; [exact Hum|]. split.
    + intros x y Hin Hm. rewrite (Hc x y Hin), Hm. reflexivity.
    + intros x y Hin Hm Hpos.
      pose proof (evolves_inB _ _ x y Hev Hin) as Hin'.
      pose proof (evolves_mineAt _ _ x y Hev) as HM.
      rewrite (Hc x y Hin'), HM.
      destruct (Z.eqb_spec (mineAt this x y) MINE_FLAG); [contradiction|].
      destruct HI as [_ Hplay]. rewrite Hst in Hplay.
      destruct Hplay as (Hcells & _).
      destruct (Hcells x y Hin) as [E|[E|[E|[E _]]]];
        unfold EBlockStatus.UNKNWON, EBlockStatus.MARKED,
          EBlockStatus.QUESTION in *; lia.
Qed.

Lemma won_iff_all_revealed_witness :
  (status (context won22) = WIN <-> allRevealed won22) /\
  getRestMineQuantity won22 = 0.
Proof.
  destruct (won_iff_all_revealed played22 (DoSweep (Int 0) (Int 1)) won22)
    as [Hiff Hwon].
  - exact played22_reachable.
  - reflexivity.
  - exists WIN. reflexivity.
  - discriminate.
  - split; [exact Hiff|]. apply Hwon. reflexivity.
Defined.

(** C2 as stated fails: sweeping the mine at the origin of [game22] is an
    accepted action after which every block without a mine shows its count,
    and the game is lost, not won. *)
Lemma lost_with_all_revealed :
  reachable game22 /\ status (context game22) = PLAYING /\
  accepted game22 (DoSweep (Int 0) (Int 0)) lost22 /\
  allRevealed lost22 /\ status (context lost22) <> WIN.
Proof.
  split; [exact game22_reachable|]. split; [reflexivity|].
  split; [exists FAILED; reflexivity|]. split; [|discriminate].
  intros x y [Hx Hy] Hm. simpl in Hx, Hy.
  assert ((x = 0 \/ x = 1) /\ (y = 0 \/ y = 1)) as [[-> | ->] [-> | ->]] by lia;
    vm_compute in Hm |- *; congruence.
Qed.

(** * Marking cannot win *)


(** [mark] moves both counters by the same amount. *)
Lemma mark_playing this x y style r g' :
  Inv this -> status (context this) = PLAYING ->
  mark this x y style = Ok (r, g') ->
  status (context g') = PLAYING /\
  unknowns (context g') - unmarkedMines (context g') =
  unknowns (context this) - unmarkedMines (context this).
Proof.
  intros [Hboard Hplay] Hst Hmark. rewrite Hst in Hplay.
  destruct Hplay as (_ & _ & Hne).
  destruct (_checkCoordinate this x y) eqn:Hchk.
  2:{ unfold mark, getBlock in Hmark. rewrite Hst, Hchk in Hmark.
      discriminate. }
  apply checkCoordinate_true in Hchk as (xi & yi & -> & -> & Hin).
  pose proof Hboard as (_ & Hwf & _).
  rewrite (mark_table this xi yi style Hwf Hst Hne Hin) in Hmark.
  destruct (markTable (blockAt this xi yi) style) as [[d v']|];
    inversion Hmark; subst; simpl; split; auto; lia.
Qed.





(** * The transition table of [mark] *)

(** C4: on a block of the board, [mark] returns [false] and leaves the
    game as it is when the game is over or the block shows neither Hidden,
    nor a flag, nor a question mark; otherwise it returns [true] and the new
    game is the old one with the block and both counters changed as
    [markTable] says, which is the old game itself when the requested style
    is the one the block shows. *)
Theorem mark_follows_table this x y style :
  reachable this -> inB this x y ->
  (status (context this) <> PLAYING \/
   (blockAt this x y <> EBlockStatus.UNKNWON /\
    blockAt this x y <> EBlockStatus.MARKED /\
    blockAt this x y <> EBlockStatus.QUESTION) ->
   mark this (Int x) (Int y) style = Ok (false, this)) /\
  (forall d v',
     status (context this) = PLAYING ->
     markTable (blockAt this x y) style = Some (d, v') ->
     mark this (Int x) (Int y) style =
       Ok (true,
           update this (setCell (blocks (context this)) x y v') PLAYING
             (unmarkedMines (context this) + d)
             (unknowns (context this) + d)) /\
     (v' = blockAt this x y ->
      d = 0 /\ mark this (Int x) (Int y) style = Ok (true, this))).
Proof.
  intros Hr Hin. pose proof (reachable_Inv _ Hr) as [Hboard Hplay].
  pose proof Hboard as (_ & Hwf & _).
  split.
  - intros [Hst|Hnone].
    + unfold mark. destruct (status (context this));
        [contradiction|reflexivity..].
    + destruct (status (context this)) eqn:Hst;
        [|unfold mark; rewrite Hst; reflexivity..].
      destruct Hplay as (_ & _ & Hne).
      rewrite (mark_table this x y style Hwf Hst Hne Hin).
      rewrite markTable_None by exact Hnone. reflexivity.
  - intros d v' Hst Ht. rewrite Hst in Hplay. destruct Hplay as (_ & _ & Hne).
    rewrite (mark_table this x y style Hwf Hst Hne Hin), Ht.
    split; [reflexivity|]. intros ->.
    assert (d = 0) as ->.
    { apply markTable_Some in Ht as (_ & _ & Hd & _). lia. }
    split; [reflexivity|]. f_equal. f_equal.
    unfold blockAt. destruct Hwf as [Hb _]. destruct Hin.
    rewrite (setCell_same _ _ _ _ _ Hb) by assumption.
    rewrite !Z.add_0_r, <- Hst. apply update_id.
Qed.

Lemma mark_follows_table_witness :
  mark game22 (Int 1) (Int 0) EMarkStyle.MINE =
    Ok (true,
        update game22 [[-1; -2]; [-1; -1]] PLAYING 1 3) /\
  mark lost22 (Int 1) (Int 0) EMarkStyle.MINE = Ok (false, lost22).
Proof.
  split.
  - apply (proj2 (mark_follows_table game22 1 0 EMarkStyle.MINE
                    game22_reachable ltac:(unfold inB; simpl; lia))
             (-1) (-2) eq_refl eq_refl).
  - apply (proj1 (mark_follows_table lost22 1 0 EMarkStyle.MINE
                    lost22_reachable ltac:(unfold inB; simpl; lia))).
    left. discriminate.
Defined.

(** * The counter of hidden blocks *)

(** C7, amended: in every reachable game that is not lost, [unknowns] is
    the number of blocks that show Hidden or a question mark. *)
Theorem unknowns_counts_hidden this :
  reachable this -> status (context this) <> FAILED ->
  unknowns (context this) = hiddenBlocks this.
Proof.
  intros Hr Hnf. destruct (reachable_Inv _ Hr) as [Hboard Hst].
  destruct (status (context this)); [|clear Hnf|contradiction].
  - apply Hst.
  - destruct Hst as (Hun & _ & Hc). rewrite Hun. symmetry.
    apply countIf_zero. intros b Hb. apply elem_of_byRows in Hb.
    fold (blockAt this (X b) (Y b)). rewrite (Hc _ _ Hb).
    destruct Hboard as (_ & _ & Hok & _).
    pose proof (minesOK_count this _ _ Hok Hb) as Hpos.
    unfold MINE_FLAG in *.
    destruct (Z.eqb_spec (mineAt this (X b) (Y b)) (-1)); [reflexivity|].
    unfold isUnknown, EBlockStatus.UNKNWON, EBlockStatus.QUESTION.
    destruct (Z.eqb_spec (mineAt this (X b) (Y b)) (-1)); [lia|].
    destruct (Z.eqb_spec (mineAt this (X b) (Y b)) (-3)); [lia|].
    reflexivity.
Qed.

Lemma unknowns_counts_hidden_witness :
  unknowns (context played22) = hiddenBlocks played22 /\
  unknowns (context won22) = hiddenBlocks won22.
Proof.
  split.
  - apply (unknowns_counts_hidden played22 played22_reachable). discriminate.
  - apply (unknowns_counts_hidden won22 won22_reachable). discriminate.
Defined.

(** C7 as stated fails: after the loss of [game22] the counter still
    holds 4 and no block shows Hidden or a question mark. *)
Lemma unknowns_stale_after_loss :
  reachable lost22 /\ status (context lost22) = FAILED /\
  unknowns (context lost22) = 4 /\ hiddenBlocks lost22 = 0.
Proof.
  split; [exact lost22_reachable|]. repeat split.
Qed.

(** * Games that are over *)

Lemma putMines_layout draws : forall this k g,
  putMines this k draws = Some g -> exists M, g = layout this M.
Proof.
  assert (Hid : forall this, this = layout this (mines (context this))).
  { intros [[? ? ? ? ? ?] ? ? ? ?]. reflexivity. }
  assert (Hbump : forall l this M,
            exists M', foldl bumpCount (layout this M) l = layout this M').
  { induction l as [|[i j] l IH]; intros this M; [exists M; reflexivity|].
    cbn [foldl]. rewrite bumpCount_layout. destruct (_ || _); apply IH. }
  induction draws as [|[y x] draws IH]; intros this k g H;
    cbn [putMines] in H; destruct (k =? 0).
  - inversion H; subst. eexists. apply Hid.
  - discriminate.
  - inversion H; subst. eexists. apply Hid.
  - destruct (mineAt this x y =? MINE_FLAG); [exact (IH _ _ _ H)|].
    destruct (Hbump (seqZ (y - 1) 3 ≫=
                       (fun i => seqZ (x - 1) 3 ≫= (fun j => [(i, j)])))
                this (setCell (mines (context this)) x y MINE_FLAG))
      as [M' HM'].
    change (setMine this x y MINE_FLAG)
      with (layout this (setCell (mines (context this)) x y MINE_FLAG)) in H.
    rewrite HM' in H. destruct (IH _ _ _ H) as [M'' ->].
    exists M''. reflexivity.
Qed.

Lemma restart_playing this now draws g :
  restart this now draws = Ok g -> status (context g) = PLAYING.
Proof.
  intros H. apply restart_Ok in H as [_ Hp].
  apply putMines_layout in Hp as [M ->]. reflexivity.
Qed.

Lemma restart_keeps this now draws g :
  restart this now draws = Ok g ->
  height g = height this /\ width g = width this /\
  mineQuantity g = mineQuantity this /\
  showMinesOnlyOnFailed g = showMinesOnlyOnFailed this /\
  startedAt (context g) = now.
Proof.
  intros H. apply restart_Ok in H as [_ Hp].
  apply putMines_layout in Hp as [M ->]. repeat split.
Qed.

(** * The placement loop ends *)

Lemma layout_inj b M M' : layout b M = layout b M' -> M = M'.
Proof. intros H. exact (f_equal (fun g => mines (context g)) H). Qed.

(** Putting a mine leaves the free blocks elsewhere free. *)
Lemma placeMine_free b M M2 x y :
  shaped (height b) (width b) M -> minesOK (layout b M) -> inB b x y ->
  foldl bumpCount (setMine (layout b M) x y MINE_FLAG) (around9 x y) =
    layout b M2 ->
  forall x' y', inB b x' y' -> (x' <> x \/ y' <> y) ->
    cell M x' y' <> MINE_FLAG -> cell M2 x' y' <> MINE_FLAG.
Proof.
  intros HM Hok Hin Hf x' y' Hin' Hne Hfree.
  change (setMine (layout b M) x y MINE_FLAG)
    with (layout b (setCell M x y MINE_FLAG)) in Hf.
  destruct (foldl_bumpCount b (around9 x y) (NoDup_around9 x y)
              (setCell M x y MINE_FLAG))
    as (M2' & Hf' & _ & Hc); [apply shaped_setCell; exact HM|].
  rewrite Hf' in Hf. apply layout_inj in Hf. subst M2'.
  rewrite (Hc x' y' Hin'). destruct Hin, Hin'.
  rewrite (cell_setCell (height b) (width b)) by (assumption || lia).
  assert ((x' =? x) && (y' =? y) = false) as ->.
  { apply andb_false_iff. rewrite !Z.eqb_neq. exact Hne. }
  pose proof (minesOK_count (layout b M) x' y' Hok (conj H1 H2) Hfree) as Hpos.
  change (mineAt (layout b M) x' y') with (cell M x' y') in Hpos.
  unfold MINE_FLAG in *. destruct (_ && _); lia.
Qed.

(** The loop ends when the draws hold [k] different free blocks: a draw
    that hits a mine is skipped, a draw that hits a free block uses it up. *)
Lemma putMines_completes b draws : forall M k L,
  0 <= k <= Z.of_nat (length L) ->
  shaped (height b) (width b) M -> minesOK (layout b M) ->
  drawsInRange b draws -> NoDup L ->
  (forall d, d ∈ L -> d ∈ draws /\ cell M (snd d) (fst d) <> MINE_FLAG) ->
  exists g, putMines (layout b M) k draws = Some g.
Proof.
  induction draws as [|[y x] draws IH]; intros M k L Hk HM Hok Hdr Hnd Hfree.
  - destruct L as [|d L].
    + simpl in Hk. assert (k = 0) as -> by lia.
      exists (layout b M). reflexivity.
    + destruct (Hfree d (list_elem_of_here _ _)) as [Hd _]. inversion Hd.
  - cbn [putMines]. destruct (Z.eqb_spec k 0) as [->|Hk0];
      [exists (layout b M); reflexivity|].
    apply Forall_cons in Hdr as [[Hy Hx] Hdr]. simpl in Hy, Hx.
    change (mineAt (layout b M) x y) with (cell M x y).
    destruct (Z.eqb_spec (cell M x y) MINE_FLAG) as [Hmine|Hxy].
    + apply (IH M k L); try assumption.
      intros d Hd. destruct (Hfree d Hd) as [Hin Hfd]. split; [|exact Hfd].
      apply elem_of_cons in Hin as [->|Hin]; [contradiction|exact Hin].
    + destruct (placeMine_spec b M x y HM Hok (conj Hx Hy) Hxy)
        as (M2 & Hf & HM2 & Hok2 & _).
      change (seqZ (y - 1) 3 ≫=
               (fun i => seqZ (x - 1) 3 ≫= (fun j => [(i, j)])))
        with (around9 x y).
      rewrite Hf.
      assert (Hrest : exists L', NoDup L' /\
                (length L <= S (length L'))%nat /\
                forall d, d ∈ L' -> d ∈ L /\ d <> (y, x)).
      { destruct (decide ((y, x) ∈ L)) as [Hin|Hnin].
        - apply elem_of_Permutation in Hin as [L' HP]. exists L'.
          rewrite HP in Hnd. apply NoDup_cons in Hnd as [Hnew Hnd'].
          split; [exact Hnd'|]. split; [rewrite HP; simpl; lia|].
          intros d Hd. split; [rewrite HP; apply list_elem_of_further, Hd|].
          intros ->. contradiction.
        - exists L. split; [exact Hnd|]. split; [lia|].
          intros d Hd. split; [exact Hd|]. intros ->. contradiction. }
      destruct Hrest as (L' & Hnd' & Hlen & HL').
      apply (IH M2 (k - 1) L'); try assumption; [lia|].
      intros [y' x'] Hd. destruct (HL' _ Hd) as [HdL Hne].
      destruct (Hfree _ HdL) as [Hin Hfd]. simpl in Hfd.
      apply elem_of_cons in Hin as [E|Hin]; [contradiction|].
      split; [exact Hin|]. simpl.
      rewrite Forall_forall in Hdr. destruct (Hdr _ Hin) as [Hy' Hx'].
      simpl in Hy', Hx'.
      apply (placeMine_free b M M2 x y HM Hok (conj Hx Hy) Hf);
        [split; assumption| |exact Hfd].
      destruct (Z.eq_dec x' x), (Z.eq_dec y' y); try lia.
      subst. contradiction.
Qed.

(** The blocks of the board, as the draws that hit them. *)
Definition everyDraw (this : IPrivateData) : list (Z * Z) :=
  (fun b => (Y b, X b)) <$> byRows (height this) (width this).

Lemma everyDraw_spec this :
  drawsInRange this (everyDraw this) /\ NoDup (everyDraw this) /\
  Z.of_nat (length (everyDraw this)) =
    Z.max 0 (height this) * Z.max 0 (width this).
Proof.
  unfold everyDraw. split; [|split].
  - apply Forall_fmap, Forall_forall. intros b Hb.
    apply elem_of_byRows in Hb. simpl. lia.
  - apply NoDup_fmap_2_strong; [|apply NoDup_byRows].
    intros [x1 y1] [x2 y2] _ _ E. simpl in E. congruence.
  - rewrite length_fmap. apply length_byRows.
Qed.

Lemma remove_dups_NoDup {A} `{EqDecision A} (l : list A) :
  NoDup l -> remove_dups l = l.
Proof.
  induction 1 as [|a l Ha Hnd IH]; [reflexivity|].
  cbn [remove_dups]. rewrite IH.
  destruct (decide_rel elem_of a l); [contradiction|reflexivity].
Qed.

(** [restart] returns, with a game that is on, when the grids can be
    made and the draws hold [mineQuantity] different blocks of the board. *)
Lemma restart_returns this now draws :
  validDims this -> arraysOK (height this) (width this) = true ->
  drawsInRange this draws ->
  mineQuantity this <= Z.of_nat (length (remove_dups draws)) ->
  exists g, restart this now draws = Ok g /\ status (context g) = PLAYING.
Proof.
  intros Hv Harr Hdr Hlen.
  pose proof (validDims_width _ Hv) as Hw. pose proof Hv as [Hh Hq].
  set (b0 := withContext this (freshContext this now)).
  destruct (putMines_completes b0 draws
              (filledGrid (height this) (width this) 0) (mineQuantity this)
              (remove_dups draws)) as [g Hg].
  - lia.
  - apply shaped_filledGrid.
  - intros x y [Hx Hy]. right.
    change (mineAt (layout b0 (filledGrid (height this) (width this) 0)) x y)
      with (cell (filledGrid (height this) (width this) 0) x y).
    rewrite cell_filledGrid by assumption. symmetry.
    apply countIf_zero. intros a Ha.
    apply elem_of_findBlocksAround in Ha as [_ [Hax Hay]].
    change (mineAt (layout b0 (filledGrid (height this) (width this) 0))
              (X a) (Y a))
      with (cell (filledGrid (height this) (width this) 0) (X a) (Y a)).
    rewrite cell_filledGrid by assumption. reflexivity.
  - exact Hdr.
  - apply NoDup_remove_dups.
  - intros [y x] Hd. rewrite elem_of_remove_dups in Hd. split; [exact Hd|].
    simpl. unfold drawsInRange in Hdr. rewrite Forall_forall in Hdr.
    destruct (Hdr _ Hd) as [Hy Hx]. simpl in Hy, Hx.
    rewrite cell_filledGrid by assumption. discriminate.
  - assert (Hr : restart this now draws = Ok g).
    { apply restart_Ok. split; [exact Harr|exact Hg]. }
    exists g. split; [exact Hr|]. exact (restart_playing _ _ _ _ Hr).
Qed.

(** The grids of a game that exists could be made. *)
Lemma reachable_arrays this :
  reachable this -> arraysOK (height this) (width this) = true.
Proof.
  induction 1 as [h w q s now draws g Hdr Hc
                 |this now draws g Hr IH Hdr Hrs
                 |this x y style r g Hr IH Hm
                 |this x y st g Hr IH Hs
                 |this x y st g Hr IH He].
  - apply createMineSweeper_restart in Hc
      as (base & _ & _ & _ & _ & _ & _ & _ & _ & Hrs).
    destruct (restart_keeps _ _ _ _ Hrs) as (-> & -> & _).
    apply restart_Ok in Hrs. apply Hrs.
  - destruct (restart_keeps _ _ _ _ Hrs) as (-> & -> & _). exact IH.
  - destruct (proj2 (mark_Inv _ _ _ _ _ _ (reachable_Inv _ Hr) Hm))
      as (m & st & um & un & ->). exact IH.
  - destruct (proj2 (accepted_reachable this (DoSweep x y) g Hr
                       (ex_intro _ st Hs))) as (m & st' & um & un & ->).
    exact IH.
  - destruct (proj2 (accepted_reachable this (DoExplore x y) g Hr
                       (ex_intro _ st He))) as (m & st' & um & un & ->).
    exact IH.
Qed.

(** C9: once the game is won or lost, [mark], [sweep] and [explore] on a
    block of the board hand back the very same game, hence the same
    status, [mark] with [false] and the other two with that status;
    whatever [restart] returns is a game that is on; and in a game that
    exists [restart] does return one, as soon as the draws, each a block of
    the board, hold [mineQuantity] different blocks, which the draws that
    run through the board do. *)
Theorem over_is_over this x y :
  status (context this) <> PLAYING -> inB this x y ->
  (forall style, mark this (Int x) (Int y) style = Ok (false, this)) /\
  sweep this (Int x) (Int y) = Ok (status (context this), this) /\
  explore this (Int x) (Int y) = Ok (status (context this), this) /\
  (forall now draws g,
     restart this now draws = Ok g -> status (context g) = PLAYING) /\
  (reachable this ->
   (forall now draws,
      drawsInRange this draws ->
      mineQuantity this <= Z.of_nat (length (remove_dups draws)) ->
      exists g,
        restart this now draws = Ok g /\ status (context g) = PLAYING) /\
   (forall now, exists g,
      restart this now (everyDraw this) = Ok g /\
      status (context g) = PLAYING)).
Proof.
  intros Hst Hin. split; [|split; [|split; [|split]]].
  - intros style. unfold mark.
    destruct (status (context this)); [contradiction|reflexivity..].
  - apply sweep_noop; auto.
  - unfold explore, getBlock.
    rewrite (proj2 (checkCoordinate_Int this x y) Hin). simpl.
    destruct (status (context this)); [contradiction|reflexivity..].
  - intros now draws g. apply restart_playing.
  - intros Hr.
    destruct (reachable_Inv _ Hr) as [(Hv & _) _].
    pose proof (reachable_arrays _ Hr) as Harr.
    assert (Hgood : forall now draws,
              drawsInRange this draws ->
              mineQuantity this <= Z.of_nat (length (remove_dups draws)) ->
              exists g, restart this now draws = Ok g /\
                        status (context g) = PLAYING).
    { intros now draws Hdr Hlen.
      exact (restart_returns this now draws Hv Harr Hdr Hlen). }
    split; [exact Hgood|].
    intros now. apply Hgood.
    + apply everyDraw_spec.
    + destruct (everyDraw_spec this) as (_ & Hnd & Hlen).
      rewrite (remove_dups_NoDup _ Hnd), Hlen.
      destruct Hv as [Hh Hq]. pose proof (validDims_width _ (conj Hh Hq)).
      rewrite !Z.max_r by lia. lia.
Qed.

Lemma over_is_over_witness :
  sweep lost22 (Int 1) (Int 1) = Ok (FAILED, lost22) /\
  explore won22 (Int 1) (Int 0) = Ok (WIN, won22) /\
  mark won22 (Int 0) (Int 0) EMarkStyle.UNMARKED = Ok (false, won22) /\
  (exists g,
     restart lost22 9 [(0, 1); (0, 1); (1, 1); (0, 1)] = Ok g /\
     status (context g) = PLAYING).
Proof.
  split; [|split; [|split]].
  - apply (over_is_over lost22 1 1); [discriminate|unfold inB; simpl; lia].
  - apply (over_is_over won22 1 0); [discriminate|unfold inB; simpl; lia].
  - apply (over_is_over won22 0 0); [discriminate|unfold inB; simpl; lia].
  - assert (Hin : inB lost22 0 0) by (unfold inB; simpl; lia).
    assert (Hst : status (context lost22) <> PLAYING) by discriminate.
    apply (proj1 (proj2 (proj2 (proj2 (proj2
             (over_is_over lost22 0 0 Hst Hin)))) lost22_reachable)
             9 [(0, 1); (0, 1); (1, 1); (0, 1)]).
    + repeat constructor; simpl; lia.
    + vm_compute. discriminate.
Defined.

(** * Board generation, as a whole *)

(** C8: for valid dimensions and draws inside the board, the game that
    [restart] returns has exactly [mineQuantity] mines, every other block
    counts the mines around it, every block shows Hidden, the two counters
    hold [mineQuantity] and [width * height], and the game is on. *)
Theorem restart_generates_board this now draws g :
  validDims this -> drawsInRange this draws ->
  restart this now draws = Ok g ->
  height g = height this /\ width g = width this /\
  mineQuantity g = mineQuantity this /\
  minedBlocks g = mineQuantity this /\
  (forall x y, inB g x y -> mineAt g x y <> MINE_FLAG ->
     mineAt g x y = minedAround g x y) /\
  (forall x y, inB g x y -> blockAt g x y = EBlockStatus.UNKNWON) /\
  unmarkedMines (context g) = mineQuantity this /\
  unknowns (context g) = width this * height this /\
  status (context g) = PLAYING.
Proof.
  intros Hv Hdr Hr.
  destruct (restart_spec this now draws g Hv Hdr Hr)
    as (Hh & Hw & Hq & _ & _ & _ & (_ & _ & Hok & Hmb) & (Hall & Hum & Hun & Hst)).
  split; [exact Hh|]. split; [exact Hw|]. split; [exact Hq|].
  split; [rewrite Hmb; exact Hq|]. split.
  - intros x y Hin Hne. destruct (Hok x y Hin) as [E|E];
      [contradiction|exact E].
  - split; [exact Hall|]. split; [rewrite Hum; exact Hq|].
    split; [rewrite Hun, Hh, Hw; reflexivity|exact Hst].
Qed.

Lemma restart_generates_board_witness :
  restart won22 7 [(1, 0); (1, 0); (0, 0)] =
    Ok (mkPrivate
          (mkContext [[-1; -1]; [-1; -1]] [[-1; 2]; [-1; 2]] 2 7 PLAYING 4)
          2 2 2 false) /\
  minedBlocks
    (mkPrivate
       (mkContext [[-1; -1]; [-1; -1]] [[-1; 2]; [-1; 2]] 2 7 PLAYING 4)
       2 2 2 false) = mineQuantity won22.
Proof.
  split; [reflexivity|].
  apply (restart_generates_board won22 7 [(1, 0); (1, 0); (0, 0)]).
  - unfold validDims. simpl. lia.
  - repeat constructor; simpl; lia.
  - reflexivity.
Defined.

(** * Losing *)

Lemma isUnknown_true v :
  isUnknown v = true <->
  v = EBlockStatus.UNKNWON \/ v = EBlockStatus.QUESTION.
Proof.
  unfold isUnknown. rewrite orb_true_iff, !Z.eqb_eq. tauto.
Qed.

(** C6: sweeping a Hidden mine while the game is on loses the game, turns
    that block, and no other, into the exploded mine, and rewrites the
    board: a flag on a block without a mine becomes a wrong flag; a Hidden
    or Questioned mine becomes a revealed mine; a Hidden or Questioned block
    without a mine becomes its count, or stays as it is when
    [showMinesOnlyOnFailed] is set; a flag on a mine and a visible count
    stay as they are. *)
Theorem sweep_mine_loses this x y :
  reachable this -> status (context this) = PLAYING -> inB this x y ->
  blockAt this x y = EBlockStatus.UNKNWON -> mineAt this x y = MINE_FLAG ->
  exists g',
    sweep this (Int x) (Int y) = Ok (FAILED, g') /\
    status (context g') = FAILED /\ evolves this g' /\
    (forall x' y', inB this x' y' ->
       (blockAt g' x' y' = EBlockStatus.DEAD <-> (x' = x /\ y' = y))) /\
    (forall x' y', inB this x' y' -> (x' <> x \/ y' <> y) ->
       let v := blockAt this x' y' in
       let v' := blockAt g' x' y' in
       (v = EBlockStatus.MARKED -> mineAt this x' y' <> MINE_FLAG ->
        v' = EBlockStatus.WRONG) /\
       (isUnknown v = true -> mineAt this x' y' = MINE_FLAG ->
        v' = EBlockStatus.MINE) /\
       (isUnknown v = true -> mineAt this x' y' <> MINE_FLAG ->
        v' = if showMinesOnlyOnFailed this then v else mineAt this x' y') /\
       (v = EBlockStatus.MARKED -> mineAt this x' y' = MINE_FLAG -> v' = v) /\
       (0 <= v -> v' = v)).
Proof.
  intros Hr Hst Hin Hu Hm.
  destruct (reachable_Inv _ Hr) as [Hboard Hplay]. rewrite Hst in Hplay.
  destruct Hplay as (Hcells & _).
  pose proof Hboard as (_ & Hwf & Hok & _).
  rewrite (sweep_mine this x y Hst Hin Hu Hm).
  destruct (die_spec this x y Hwf Hin) as (m & -> & Hs & Hc).
  eexists. split; [reflexivity|]. split; [reflexivity|].
  split; [eexists _, _, _, _; reflexivity|].
  assert (Hoff : forall x' y', (x' <> x \/ y' <> y) ->
            (x' =? x) && (y' =? y) = false).
  { intros x' y' Hne. apply andb_false_iff. rewrite !Z.eqb_neq. exact Hne. }
  split.
  - intros x' y' Hin'.
    change (blockAt (update this m _ _ _) x' y') with (cell m x' y').
    rewrite (Hc x' y' Hin').
    destruct (decide (x' = x /\ y' = y)) as [[-> ->]|Hne].
    + rewrite !Z.eqb_refl. simpl. split; [auto|reflexivity].
    + rewrite Hoff by lia.
      split; [|intros; contradiction]. intros Hd. exfalso.
      pose proof (minesOK_count this _ _ Hok Hin') as Hpos.
      revert Hd. unfold dieUpd. cbn [X Y].
      unfold EBlockStatus.UNKNWON, EBlockStatus.MARKED, EBlockStatus.QUESTION,
        EBlockStatus.WRONG, EBlockStatus.MINE, EBlockStatus.DEAD, MINE_FLAG in *.
      destruct (Hcells x' y' Hin') as [E|[E|[E|[E En]]]];
        unfold EBlockStatus.UNKNWON, EBlockStatus.MARKED,
          EBlockStatus.QUESTION, MINE_FLAG in E;
        try rewrite E;
        repeat match goal with
               | |- context [?a =? ?c] => destruct (Z.eqb_spec a c)
               end; simpl;
        try destruct (showMinesOnlyOnFailed this); simpl; intros; lia.
  - intros x' y' Hin' Hne v v'. subst v v'.
    change (blockAt (update this m _ _ _) x' y') with (cell m x' y').
    rewrite (Hc x' y' Hin'), (Hoff x' y' Hne).
    unfold dieUpd. cbn [X Y]. rewrite !isUnknown_true.
    unfold EBlockStatus.UNKNWON, EBlockStatus.MARKED, EBlockStatus.QUESTION,
      EBlockStatus.WRONG, EBlockStatus.MINE, MINE_FLAG.
    destruct (showMinesOnlyOnFailed this);
      destruct (Z.eqb_spec (blockAt this x' y') (-2)),
        (Z.eqb_spec (blockAt this x' y') (-3)),
        (Z.eqb_spec (blockAt this x' y') (-1)),
        (Z.eqb_spec (mineAt this x' y') (-1)); simpl;
      repeat split; intros; try reflexivity; try lia;
      match goal with H : _ \/ _ |- _ => destruct H; lia end.
Qed.

Lemma sweep_mine_loses_witness :
  exists g',
    sweep game22 (Int 0) (Int 0) = Ok (FAILED, g') /\
    status (context g') = FAILED /\
    blockAt g' 0 0 = EBlockStatus.DEAD.
Proof.
  destruct (sweep_mine_loses game22 0 0 game22_reachable eq_refl)
    as (g' & Hs & Hst & _ & Hd & _).
  - unfold inB. simpl. lia.
  - reflexivity.
  - reflexivity.
  - exists g'. split; [exact Hs|]. split; [exact Hst|].
    apply Hd; [unfold inB; simpl; lia|]. split; reflexivity.
Defined.

(** * Sweeping a safe block, as a whole *)

(** The number of blocks that [this] shows Hidden and [g] does not. *)
Definition uncovered (this g : IPrivateData) : Z :=
  countIf (fun b => (blockAt this (X b) (Y b) =? EBlockStatus.UNKNWON) &&
                    negb (blockAt g (X b) (Y b) =? EBlockStatus.UNKNWON))
    (byRows (height this) (width this)).

(** What a sweep of a Hidden block without a mine does before the win
    check ([g1]), and what the win check makes of it. *)
Lemma sweep_safe_full this x y :
  reachable this -> status (context this) = PLAYING -> inB this x y ->
  blockAt this x y = EBlockStatus.UNKNWON -> mineAt this x y <> MINE_FLAG ->
  exists g1,
    sweep this (Int x) (Int y) =
      Ok (status (context (_checkWin g1)), _checkWin g1) /\
    evolves this g1 /\ status (context g1) = PLAYING /\
    unmarkedMines (context g1) = unmarkedMines (context this) /\
    (forall x' y', floods this x y x' y' ->
       inB this x' y' /\ blockAt this x' y' = EBlockStatus.UNKNWON /\
       blockAt g1 x' y' = mineAt this x' y' /\ 0 <= mineAt this x' y') /\
    reveals this x y (blocks (context this)) (blocks (context g1)) /\
    unknowns (context g1) = unknowns (context this) - uncovered this g1 /\
    Inv (_checkWin g1) /\ status (context (_checkWin g1)) <> FAILED /\
    (forall x' y', inB this x' y' ->
       blockAt (_checkWin g1) x' y' = blockAt g1 x' y' \/
       (status (context (_checkWin g1)) = WIN /\
        mineAt this x' y' = MINE_FLAG /\
        blockAt (_checkWin g1) x' y' = EBlockStatus.MARKED)).
Proof.
  intros Hr Hst Hin Hu Hm.
  pose proof (reachable_Inv _ Hr) as HI.
  pose proof HI as [Hboard Hplay]. rewrite Hst in Hplay.
  destruct Hplay as (Hcells & [Hun Hum] & Hne).
  pose proof Hboard as (_ & Hwf & Hok & _).
  destruct (sweep_safe this x y Hwf (minesOK_safeZeros _ Hok) Hst Hin Hu
              (minesOK_count _ _ _ Hok Hin Hm))
    as (m' & un' & Hs & Hm' & Hfl & _ & Hrev & Hcnt).
  destruct (sweep_safe_counted this x y m' un' HI Hst Hm' Hrev Hcnt)
    as (Hb1 & Hc1 & Hn1).
  set (g1 := update this m' PLAYING (unmarkedMines (context this)) un') in *.
  destruct (checkWin_Inv g1 Hb1 eq_refl Hc1 Hn1) as (HI' & Hkeep & Hwin).
  exists g1. split; [exact Hs|].
  split; [eexists _, _, _, _; reflexivity|].
  split; [reflexivity|]. split; [reflexivity|].
  split; [exact Hfl|]. split; [exact Hrev|].
  assert (Hdec : unmarkedMines (context g1) = un' \/
                 unmarkedMines (context g1) <> un') by lia.
  split; [|split; [exact HI'|split]].
  - change (unknowns (context g1)) with un'.
    assert (hiddenBlocks this =
            countG (height this) (width this) isUnknown m' + uncovered this g1)
      as Hsum; [|lia].
    unfold hiddenBlocks, countG, uncovered. apply countIf_add.
    intros b Hb. apply elem_of_byRows in Hb.
    change (blockAt g1 (X b) (Y b)) with (cell m' (X b) (Y b)).
    fold (blockAt this (X b) (Y b)).
    destruct (Hrev _ _ Hb) as [E|(E0 & E & Hpos & _)].
    + rewrite E. fold (blockAt this (X b) (Y b)).
      destruct (blockAt this (X b) (Y b) =? EBlockStatus.UNKNWON);
        simpl; lia.
    + fold (blockAt this (X b) (Y b)) in E0. rewrite E0, E.
      unfold isUnknown, EBlockStatus.UNKNWON, EBlockStatus.QUESTION.
      destruct (Z.eqb_spec (mineAt this (X b) (Y b)) (-1)); [lia|].
      destruct (Z.eqb_spec (mineAt this (X b) (Y b)) (-3)); [lia|].
      reflexivity.
  - destruct (Z.eq_dec (unknowns (context g1)) (unmarkedMines (context g1)))
      as [E|E].
    + destruct (Hwin E) as (m'' & -> & _). discriminate.
    + rewrite (Hkeep E). discriminate.
  - intros x' y' Hin'.
    destruct (Z.eq_dec (unknowns (context g1)) (unmarkedMines (context g1)))
      as [E|E].
    + destruct (Hwin E) as (m'' & -> & _ & _ & Hc).
      change (blockAt (update g1 m'' WIN 0 0) x' y') with (cell m'' x' y').
      rewrite (Hc x' y' Hin').
      change (mineAt g1 x' y') with (mineAt this x' y').
      destruct (Z.eqb_spec (mineAt this x' y') MINE_FLAG); [right|left]; auto.
    + rewrite (Hkeep E). left. reflexivity.
Qed.

(** C5: the sweep of a Hidden block without a mine, while the game is on,
    reaches the win check in a state [g1] where the swept block shows its
    count; where the blocks uncovered are exactly those that the flood
    reaches (the Hidden neighbours, among the eight, of uncovered blocks of
    count zero, taken transitively, so that the flood stops at a block whose
    count is not zero), each showing its count; where every other block, so
    every flagged or questioned one, is as before; and where [unknowns],
    which goes down by one at each uncovering, has gone down by the number
    of distinct blocks uncovered: each is uncovered once.  The win check
    that follows changes no block without a mine. *)
Theorem sweep_floods this x y :
  reachable this -> status (context this) = PLAYING -> inB this x y ->
  blockAt this x y = EBlockStatus.UNKNWON -> mineAt this x y <> MINE_FLAG ->
  exists g1,
    sweep this (Int x) (Int y) =
      Ok (status (context (_checkWin g1)), _checkWin g1) /\
    evolves this g1 /\ status (context g1) = PLAYING /\
    unmarkedMines (context g1) = unmarkedMines (context this) /\
    blockAt g1 x y = mineAt this x y /\
    (forall x' y', floods this x y x' y' ->
       inB this x' y' /\ blockAt this x' y' = EBlockStatus.UNKNWON /\
       blockAt g1 x' y' = mineAt this x' y') /\
    (forall x' y', inB this x' y' -> ~ floods this x y x' y' ->
       blockAt g1 x' y' = blockAt this x' y') /\
    (forall x' y', inB this x' y' ->
       blockAt this x' y' <> EBlockStatus.UNKNWON ->
       blockAt g1 x' y' = blockAt this x' y') /\
    (forall x' y', inB this x' y' ->
       (blockAt this x' y' = EBlockStatus.UNKNWON /\
        blockAt g1 x' y' <> EBlockStatus.UNKNWON) <-> floods this x y x' y') /\
    unknowns (context g1) = unknowns (context this) - uncovered this g1 /\
    (forall x' y', inB this x' y' -> mineAt this x' y' <> MINE_FLAG ->
       blockAt (_checkWin g1) x' y' = blockAt g1 x' y').
Proof.
  intros Hr Hst Hin Hu Hm.
  destruct (sweep_safe_full this x y Hr Hst Hin Hu Hm)
    as (g1 & Hs & Hev & Hst1 & Hum1 & Hfl & Hrev & Hcnt & _ & _ & Hfin).
  exists g1. split; [exact Hs|]. split; [exact Hev|]. split; [exact Hst1|].
  split; [exact Hum1|].
  split; [apply (Hfl x y (floods_start _ _ _))|].
  split; [intros x' y' Hf; destruct (Hfl x' y' Hf) as (H1 & H2 & H3 & _); auto|].
  split.
  { intros x' y' Hin' Hnf. destruct (Hrev x' y' Hin') as [E|(_ & _ & _ & Hf)];
      [exact E|contradiction]. }
  split.
  { intros x' y' Hin' Hnu. destruct (Hrev x' y' Hin') as [E|(E & _)];
      [exact E|contradiction]. }
  split.
  { intros x' y' Hin'. split.
    - intros [Hu' Hnu]. destruct (Hrev x' y' Hin') as [E|(_ & _ & _ & Hf)];
        [|exact Hf]. exfalso. apply Hnu.
      change (blockAt g1 x' y') with (cell (blocks (context g1)) x' y').
      rewrite E. exact Hu'.
    - intros Hf. destruct (Hfl x' y' Hf) as (_ & Hu' & Hv & Hpos).
      split; [exact Hu'|]. rewrite Hv. unfold EBlockStatus.UNKNWON. lia. }
  split; [exact Hcnt|].
  intros x' y' Hin' Hnm. destruct (Hfin x' y' Hin') as [E|(_ & E & _)];
    [exact E|contradiction].
Qed.

(** [game34] after the sweep of its origin: the two columns of zeros and
    the column of counts beside them are uncovered, the last column is not. *)
Definition swept34 : IPrivateData :=
  update game34 [[0; 0; 1; -1]; [0; 0; 2; -1]; [0; 0; 1; -1]] PLAYING 2 3.

Lemma sweep_floods_witness :
  sweep game34 (Int 0) (Int 0) = Ok (PLAYING, swept34) /\
  exists g1,
    sweep game34 (Int 0) (Int 0) =
      Ok (status (context (_checkWin g1)), _checkWin g1) /\
    blockAt g1 0 0 = mineAt game34 0 0 /\
    unknowns (context g1) = unknowns (context game34) - uncovered game34 g1.
Proof.
  split; [reflexivity|].
  destruct (sweep_floods game34 0 0 game34_reachable eq_refl)
    as (g1 & Hs & _ & _ & _ & H0 & _ & _ & _ & _ & Hc & _).
  - unfold inB. simpl. lia.
  - reflexivity.
  - discriminate.
  - exists g1. split; [exact Hs|]. split; [exact H0|exact Hc].
Defined.

(** C10: the sweep of a Hidden block without a mine, while the game is
    on, never loses the game.  The flood reaches only blocks whose count is
    at least zero, because around a count of zero there is no mine; so a
    block that the sweep changes either shows its count, or is a mine on
    which the win resolution has put a flag.  No block becomes a revealed or
    an exploded mine, and none turns Hidden. *)
Theorem safe_sweep_is_safe this x y :
  reachable this -> status (context this) = PLAYING -> inB this x y ->
  blockAt this x y = EBlockStatus.UNKNWON -> mineAt this x y <> MINE_FLAG ->
  exists g',
    sweep this (Int x) (Int y) = Ok (status (context g'), g') /\
    status (context g') <> FAILED /\
    safeZeros this /\
    (forall x' y', floods this x y x' y' -> 0 <= mineAt this x' y') /\
    (forall x' y', inB this x' y' ->
       blockAt g' x' y' <> blockAt this x' y' ->
       (blockAt g' x' y' = mineAt this x' y' /\ 0 <= mineAt this x' y') \/
       (status (context g') = WIN /\ mineAt this x' y' = MINE_FLAG /\
        blockAt g' x' y' = EBlockStatus.MARKED)) /\
    (forall x' y', inB this x' y' ->
       blockAt g' x' y' <> EBlockStatus.MINE /\
       blockAt g' x' y' <> EBlockStatus.DEAD /\
       (blockAt g' x' y' = EBlockStatus.UNKNWON ->
        blockAt this x' y' = EBlockStatus.UNKNWON)).
Proof.
  intros Hr Hst Hin Hu Hm.
  destruct (sweep_safe_full this x y Hr Hst Hin Hu Hm)
    as (g1 & Hs & Hev & Hst1 & Hum1 & Hfl & Hrev & Hcnt & _ & Hnf & Hfin).
  destruct (reachable_Inv _ Hr) as [Hboard Hplay]. rewrite Hst in Hplay.
  destruct Hplay as (Hcells & _).
  pose proof Hboard as (_ & _ & Hok & _).
  exists (_checkWin g1). split; [exact Hs|]. split; [exact Hnf|].
  split; [apply minesOK_safeZeros; exact Hok|].
  split; [intros x' y' Hf; apply (Hfl x' y' Hf)|].
  assert (Hcase : forall x' y', inB this x' y' ->
            blockAt (_checkWin g1) x' y' = blockAt this x' y' \/
            (blockAt (_checkWin g1) x' y' = mineAt this x' y' /\
             0 <= mineAt this x' y') \/
            (status (context (_checkWin g1)) = WIN /\
             mineAt this x' y' = MINE_FLAG /\
             blockAt (_checkWin g1) x' y' = EBlockStatus.MARKED)).
  { intros x' y' Hin'.
    destruct (Hfin x' y' Hin') as [E|H]; [|right; right; exact H].
    rewrite E. change (blockAt g1 x' y') with (cell (blocks (context g1)) x' y').
    destruct (Hrev x' y' Hin') as [E'|(_ & E' & Hpos & _)];
      [left; exact E'|right; left; auto]. }
  split.
  - intros x' y' Hin' Hne.
    destruct (Hcase x' y' Hin') as [E|[H|H]]; [contradiction|left|right]; exact H.
  - intros x' y' Hin'.
    unfold EBlockStatus.MINE, EBlockStatus.DEAD, EBlockStatus.UNKNWON,
      EBlockStatus.MARKED.
    pose proof (minesOK_count this _ _ Hok Hin') as Hpos.
    destruct (Hcase x' y' Hin') as [E|[[E Hp]|(_ & _ & E)]]; rewrite E.
    + destruct (Hcells x' y' Hin') as [E'|[E'|[E'|[E' En]]]];
        unfold EBlockStatus.UNKNWON, EBlockStatus.MARKED,
          EBlockStatus.QUESTION, MINE_FLAG in *; lia.
    + lia.
    + unfold EBlockStatus.MARKED. lia.
Qed.

Lemma safe_sweep_is_safe_witness :
  exists g',
    sweep played22 (Int 0) (Int 1) = Ok (status (context g'), g') /\
    status (context g') <> FAILED.
Proof.
  destruct (safe_sweep_is_safe played22 0 1 played22_reachable eq_refl)
    as (g' & Hs & Hnf & _).
  - unfold inB. simpl. lia.
  - reflexivity.
  - discriminate.
  - exists g'. split; [exact Hs|exact Hnf].
Defined.


(** * More on neighbourhoods *)

Lemma seqZ_three a : seqZ a 3 = [a; a + 1; a + 2].
Proof.
  rewrite seqZ_cons by lia. rewrite seqZ_cons by lia.
  rewrite seqZ_cons by lia. rewrite seqZ_nil by lia.
  repeat f_equal; lia.
Qed.

Lemma length_findBlocksAround this x y :
  (length (_findBlocksAround this x y) <= 8)%nat.
Proof.
  unfold _findBlocksAround. rewrite !seqZ_three.
  cbn [mbind list_bind app]. rewrite !app_nil_r.
  replace (x - 1 + 1) with x by lia. replace (y - 1 + 1) with y by lia.
  rewrite !Z.eqb_refl. cbn [andb orb app].
  rewrite !length_app.
  repeat match goal with
         | |- context [length (if ?c then [] else [?b])] =>
           let H := fresh in
           assert (H : (length (if c then [] else [b]) <= 1)%nat)
             by (destruct c; simpl; lia);
           generalize dependent (length (if c then [] else [b])); intros
         end.
  simpl. lia.
Qed.

Lemma minedAround_le_8 this x y : minedAround this x y <= 8.
Proof.
  unfold minedAround.
  pose proof (countIf_le_length
                (fun b => mineAt this (X b) (Y b) =? MINE_FLAG)
                (_findBlocksAround this x y)).
  pose proof (length_findBlocksAround this x y). lia.
Qed.

(** X1: [_findBlocksAround] returns, each once, exactly the blocks of the
    board that touch [(x, y)] by a side or a corner: never the block itself,
    never more than eight; and inside the board "is around" is symmetric. *)
Theorem findBlocksAround_neighbours this x y :
  (forall b, b ∈ _findBlocksAround this x y <->
     (Z.abs (X b - x) <= 1 /\ Z.abs (Y b - y) <= 1 /\
      (X b <> x \/ Y b <> y) /\
      0 <= X b < width this /\ 0 <= Y b < height this)) /\
  NoDup (_findBlocksAround this x y) /\
  (length (_findBlocksAround this x y) <= 8)%nat /\
  (mkBlock x y ∉ _findBlocksAround this x y) /\
  (forall x' y', inB this x y ->
     mkBlock x' y' ∈ _findBlocksAround this x y ->
     mkBlock x y ∈ _findBlocksAround this x' y').
Proof.
  split; [|split; [apply NoDup_findBlocksAround|
           split; [apply length_findBlocksAround|split]]].
  - intros b. rewrite elem_of_findBlocksAround. unfold adj, inB. lia.
  - rewrite elem_of_findBlocksAround. unfold adj. simpl. lia.
  - intros x' y' Hin. rewrite !elem_of_findBlocksAround. simpl.
    intros [Hadj _]. split; [|exact Hin]. unfold adj in *. lia.
Qed.

Lemma findBlocksAround_neighbours_witness :
  mkBlock 2 2 ∈ _findBlocksAround game34 3 1 /\
  mkBlock 3 1 ∈ _findBlocksAround game34 2 2.
Proof.
  destruct (findBlocksAround_neighbours game34 3 1) as (Hiff & _ & _ & _ & Hs).
  assert (Hm : mkBlock 2 2 ∈ _findBlocksAround game34 3 1).
  { apply Hiff. simpl. lia. }
  split; [exact Hm|]. apply Hs; [unfold inB; simpl; lia|exact Hm].
Defined.


(** * The outcomes of a sweep, and loops of sweeps *)

Lemma foldl_flagMine_status l : forall this,
  status (context (foldl flagMine this l)) = status (context this).
Proof.
  induction l as [|b l IH]; intros this; [reflexivity|].
  cbn [foldl]. rewrite IH. unfold flagMine.
  destruct (mineAt this (X b) (Y b) =? -1); reflexivity.
Qed.

Lemma checkWin_playing this :
  status (context (_checkWin this)) = PLAYING -> _checkWin this = this.
Proof.
  unfold _checkWin.
  destruct (unknowns (context this) =? unmarkedMines (context this));
    [|reflexivity].
  rewrite foldl_flagMine_status. discriminate.
Qed.

(** What a safe sweep leaves behind, whether it wins or not. *)
Definition safelySwept (this g' : IPrivateData) : Prop :=
  status (context g') <> FAILED /\
  (forall x y, inB this x y -> blockAt g' x y = EBlockStatus.UNKNWON ->
     blockAt this x y = EBlockStatus.UNKNWON) /\
  (status (context g') = PLAYING ->
   forall x y, inB this x y -> blockAt this x y <> EBlockStatus.UNKNWON ->
     blockAt g' x y = blockAt this x y) /\
  unknowns (context g') < unknowns (context this).

Lemma sweep_cases this x y :
  reachable this -> inB this x y ->
  exists g',
    sweep this (Int x) (Int y) = Ok (status (context g'), g') /\
    reachable g' /\ evolves this g' /\
    (g' = this \/
     (status (context this) = PLAYING /\
      blockAt this x y = EBlockStatus.UNKNWON /\
      mineAt this x y = MINE_FLAG /\ g' = _die this x y) \/
     (status (context this) = PLAYING /\
      blockAt this x y = EBlockStatus.UNKNWON /\
      mineAt this x y <> MINE_FLAG /\ safelySwept this g')).
Proof.
  intros Hr Hin. pose proof (reachable_Inv _ Hr) as HI.
  destruct (sweep_Inv this x y HI Hin) as (g' & Hs & _ & Hev).
  exists g'. split; [exact Hs|].
  split; [exact (reach_sweep _ _ _ _ _ Hr Hs)|]. split; [exact Hev|].
  destruct (decide (status (context this) = PLAYING)) as [Hst|Hst].
  2:{ left. rewrite sweep_noop in Hs by auto. congruence. }
  destruct (Z.eq_dec (blockAt this x y) EBlockStatus.UNKNWON) as [Hu|Hu].
  2:{ left. rewrite sweep_noop in Hs by auto. congruence. }
  destruct (Z.eq_dec (mineAt this x y) MINE_FLAG) as [Hm|Hm].
  { right. left. rewrite (sweep_mine this x y Hst Hin Hu Hm) in Hs.
    inversion Hs. auto. }
  right. right. split; [exact Hst|]. split; [exact Hu|]. split; [exact Hm|].
  destruct (sweep_safe_full this x y Hr Hst Hin Hu Hm)
    as (g1 & Hs1 & _ & Hst1 & _ & Hfl & Hrev & Hcnt & HI' & Hnf & Hfin).
  rewrite Hs1 in Hs. injection Hs as _ <-.
  assert (Hback : forall x' y', inB this x' y' ->
            blockAt g1 x' y' = EBlockStatus.UNKNWON ->
            blockAt this x' y' = EBlockStatus.UNKNWON).
  { intros x' y' Hin' E.
    destruct (Hrev x' y' Hin') as [E'|(E' & _)]; [|exact E'].
    unfold blockAt in *. congruence. }
  split; [exact Hnf|]. split; [|split].
  - intros x' y' Hin' E.
    destruct (Hfin x' y' Hin') as [E'|(_ & _ & E')].
    + apply Hback; [exact Hin'|]. rewrite <- E'. exact E.
    + rewrite E' in E. discriminate.
  - intros Hp x' y' Hin' Hnu. rewrite (checkWin_playing g1 Hp).
    destruct (Hrev x' y' Hin') as [E'|(E' & _)]; [exact E'|contradiction].
  - destruct HI as [Hboard Hplay]. rewrite Hst in Hplay.
    destruct Hplay as (_ & [Hun _] & _).
    assert (1 <= uncovered this g1) as Hunc.
    { apply (countIf_pos _ _ (mkBlock x y)).
      - apply elem_of_byRows. exact Hin.
      - simpl. rewrite Hu, Z.eqb_refl.
        destruct (Hfl x y (floods_start _ _ _)) as (_ & _ & Hv & Hpos).
        rewrite Hv. unfold EBlockStatus.UNKNWON.
        destruct (Z.eqb_spec (mineAt this x y) (-1)); [lia|reflexivity]. }
    destruct (status (context (_checkWin g1))) eqn:Hst'.
    + rewrite (checkWin_playing g1 Hst'). lia.
    + destruct HI' as [_ Hwon]. rewrite Hst' in Hwon.
      destruct Hwon as (-> & _).
      assert (1 <= hiddenBlocks this); [|lia].
      apply (countIf_pos _ _ (mkBlock x y)).
      * apply elem_of_byRows. exact Hin.
      * simpl. fold (blockAt this x y). rewrite Hu. reflexivity.
    + contradiction.
Qed.

(** A property that every sweep of a Hidden block of [L] keeps is kept by
    the loop of [explore] over blocks of [L]. *)
Lemma exploreLoop_keeps (P : IPrivateData -> Prop) (L : list IBlock) :
  (forall t b g',
     reachable t -> status (context t) = PLAYING -> P t -> b ∈ L ->
     inB t (X b) (Y b) ->
     blockAt t (X b) (Y b) = EBlockStatus.UNKNWON ->
     sweep t (Int (X b)) (Int (Y b)) = Ok (status (context g'), g') ->
     P g') ->
  forall blks this,
    (forall b, b ∈ blks -> b ∈ L /\ inB this (X b) (Y b)) ->
    reachable this -> status (context this) = PLAYING -> P this ->
    exists g',
      exploreLoop this blks = Ok (status (context g'), g') /\
      reachable g' /\ evolves this g' /\ P g'.
Proof.
  intros Hstep blks. induction blks as [|b blks IH];
    intros this Hin Hr Hst HP.
  - exists this. split; [reflexivity|]. split; [exact Hr|].
    split; [apply evolves_refl|exact HP].
  - cbn [exploreLoop].
    destruct (Hin b (list_elem_of_here _ _)) as [HbL Hb].
    assert (Hnext : exists g1,
              (if blockAt this (X b) (Y b) =? EBlockStatus.UNKNWON
               then bind (sweep this (Int (X b)) (Int (Y b)))
                      (fun r => Ok (snd r))
               else Ok this) = Ok g1 /\
              reachable g1 /\ evolves this g1 /\ P g1).
    { destruct (Z.eqb_spec (blockAt this (X b) (Y b)) EBlockStatus.UNKNWON)
        as [Hu|Hu].
      - destruct (sweep_cases this (X b) (Y b) Hr Hb)
          as (g1 & Hs & Hr1 & Hev1 & _).
        exists g1. rewrite Hs. split; [reflexivity|]. split; [exact Hr1|].
        split; [exact Hev1|]. apply (Hstep this b g1); assumption.
      - exists this. split; [reflexivity|]. split; [exact Hr|].
        split; [apply evolves_refl|exact HP]. }
    destruct Hnext as (g1 & -> & Hr1 & Hev1 & HP1). cbn [bind].
    destruct (status (context g1)) eqn:Hst1; simpl.
    + destruct (IH g1) as (g' & -> & Hr' & Hev' & HP'); try assumption.
      { intros b' Hb'. destruct (Hin b' (list_elem_of_further _ _ _ Hb')).
        split; [assumption|]. eapply evolves_inB; eassumption. }
      exists g'. split; [reflexivity|]. split; [exact Hr'|].
      split; [eapply evolves_trans; eassumption|exact HP'].
    + exists g1. rewrite Hst1. auto.
    + exists g1. rewrite Hst1. auto.
Qed.

(** [marks] of [explore]: the flags around the block. *)
Lemma foldl_marks (p : IBlock -> bool) l : forall a,
  foldl (fun n b => n + (if p b then 1 else 0)) a l = a + countIf p l.
Proof.
  induction l as [|b l IH]; intros a; simpl; [lia|]. rewrite IH. lia.
Qed.

Definition flagsAround (this : IPrivateData) (x y : Z) : Z :=
  countIf (fun b => blockAt this (X b) (Y b) =? EBlockStatus.MARKED)
    (_findBlocksAround this x y).

(** [explore] either does nothing or runs its loop over the neighbours. *)
Lemma explore_unfold this x y :
  inB this x y ->
  explore this (Int x) (Int y) =
  if negb (status_eqb (status (context this)) PLAYING) ||
     (blockAt this x y <? 0)
  then Ok (status (context this), this)
  else if flagsAround this x y >=? mineAt this x y
  then exploreLoop this (_findBlocksAround this x y)
  else Ok (status (context this), this).
Proof.
  intros Hin. unfold explore, getBlock.
  rewrite (proj2 (checkCoordinate_Int this x y) Hin). simpl negb. cbv iota.
  cbn [bind intOf]. rewrite foldl_marks. reflexivity.
Qed.


Lemma countIf_same {A} (p q : A -> bool) (l : list A) :
  (forall a, a ∈ l -> p a = true -> q a = true) ->
  countIf q l <= countIf p l ->
  forall a, a ∈ l -> q a = true -> p a = true.
Proof.
  intros Hpq Hle a Ha Hq. destruct (p a) eqn:Hp; [reflexivity|].
  pose proof (countIf_lt p q l a Hpq Ha Hp Hq). lia.
Qed.

(** * Exploring with the right flags *)

(** X2: [explore] on a visible count, while the game is on, cannot lose
    the game when every flag around the block sits on a mine: either it does
    nothing (fewer flags than the count), or the flags are exactly the mines
    around the block and every sweep of the loop is a safe one. *)
Theorem explore_with_right_flags this x y :
  reachable this -> status (context this) = PLAYING -> inB this x y ->
  0 <= blockAt this x y ->
  (forall b, b ∈ _findBlocksAround this x y ->
     blockAt this (X b) (Y b) = EBlockStatus.MARKED ->
     mineAt this (X b) (Y b) = MINE_FLAG) ->
  exists g',
    explore this (Int x) (Int y) = Ok (status (context g'), g') /\
    status (context g') <> FAILED /\
    (flagsAround this x y < mineAt this x y -> g' = this).
Proof.
  intros Hr Hst Hin Hpos Hflags.
  pose proof (reachable_Inv _ Hr) as [Hboard Hplay]. rewrite Hst in Hplay.
  destruct Hplay as (Hcells & _). destruct Hboard as (_ & _ & Hok & _).
  rewrite (explore_unfold this x y Hin), Hst.
  destruct (Z.ltb_spec (blockAt this x y) 0) as [|_]; [lia|].
  simpl negb. simpl orb. cbv iota.
  destruct (Z.geb_spec (flagsAround this x y) (mineAt this x y)) as [Hge|Hlt].
  2:{ exists this. rewrite Hst. split; [reflexivity|].
      split; [discriminate|reflexivity]. }
  assert (Hcount : mineAt this x y = minedAround this x y).
  { destruct (Hcells x y Hin) as [E|[E|[E|[E Hne]]]];
      unfold EBlockStatus.UNKNWON, EBlockStatus.MARKED,
        EBlockStatus.QUESTION in E; try lia.
    destruct (Hok x y Hin) as [E'|E']; [contradiction|exact E']. }
  assert (Hsafe : forall b, b ∈ _findBlocksAround this x y ->
            blockAt this (X b) (Y b) = EBlockStatus.UNKNWON ->
            mineAt this (X b) (Y b) <> MINE_FLAG).
  { intros b Hb Hu Hm.
    assert ((blockAt this (X b) (Y b) =? EBlockStatus.MARKED) = true) as Hf.
    { apply (countIf_same
               (fun b => blockAt this (X b) (Y b) =? EBlockStatus.MARKED)
               (fun b => mineAt this (X b) (Y b) =? MINE_FLAG)
               (_findBlocksAround this x y)).
      - intros a Ha Hfa. apply Z.eqb_eq in Hfa. apply Z.eqb_eq.
        apply Hflags; assumption.
      - unfold flagsAround, minedAround in *. lia.
      - exact Hb.
      - apply Z.eqb_eq. exact Hm. }
    apply Z.eqb_eq in Hf. rewrite Hu in Hf. discriminate. }
  destruct (exploreLoop_keeps
              (fun t => evolves this t /\ status (context t) <> FAILED /\
                 forall b, b ∈ _findBlocksAround this x y ->
                   blockAt t (X b) (Y b) = EBlockStatus.UNKNWON ->
                   mineAt this (X b) (Y b) <> MINE_FLAG)
              (_findBlocksAround this x y))
    with (blks := _findBlocksAround this x y) (this := this)
    as (g' & He & _ & _ & _ & Hnf & _).
  - intros t b g' Hrt Hstt (Hevt & _ & Hsafet) Hb Hbin Hu Hs.
    destruct (sweep_cases t (X b) (Y b) Hrt Hbin)
      as (g'' & Hs' & _ & Hev' & Hcase).
    rewrite Hs' in Hs. injection Hs as _ ->.
    split; [eapply evolves_trans; eassumption|].
    destruct Hcase as [->|[(_ & _ & Hm & _)|(_ & _ & _ & Hnf & Hback & _)]].
    + split; [rewrite Hstt; discriminate|exact Hsafet].
    + exfalso. rewrite (evolves_mineAt _ _ _ _ Hevt) in Hm.
      exact (Hsafet b Hb Hu Hm).
    + split; [exact Hnf|]. intros b' Hb' Hu'. apply (Hsafet b' Hb').
      apply Hback; [|exact Hu'].
      apply elem_of_findBlocksAround in Hb' as [_ Hb'].
      eapply evolves_inB; eassumption.
  - intros b Hb. split; [exact Hb|].
    apply elem_of_findBlocksAround in Hb. apply Hb.
  - exact Hr.
  - exact Hst.
  - split; [apply evolves_refl|]. split; [rewrite Hst; discriminate|].
    exact Hsafe.
  - exists g'. split; [exact He|]. split; [exact Hnf|]. intros Hlt. lia.
Qed.

(** [game34] with both mines flagged and the count between them visible. *)
Definition flagged34 : IPrivateData :=
  update game34 [[-1; -1; -1; -2]; [-1; -1; -1; 2]; [-1; -1; -1; -2]]
    PLAYING 0 9.

Lemma flagged34_reachable : reachable flagged34.
Proof.
  apply (reach_sweep
           (update game34
              [[-1; -1; -1; -2]; [-1; -1; -1; -1]; [-1; -1; -1; -2]]
              PLAYING 0 10) (Int 3) (Int 1) PLAYING); [|reflexivity].
  apply (reach_mark
           (update game34
              [[-1; -1; -1; -2]; [-1; -1; -1; -1]; [-1; -1; -1; -1]]
              PLAYING 1 11) (Int 3) (Int 2) EMarkStyle.MINE true);
    [|reflexivity].
  apply (reach_mark game34 (Int 3) (Int 0) EMarkStyle.MINE true);
    [exact game34_reachable|reflexivity].
Qed.

Lemma explore_with_right_flags_witness :
  exists g',
    explore flagged34 (Int 3) (Int 1) = Ok (status (context g'), g') /\
    status (context g') <> FAILED.
Proof.
  destruct (explore_with_right_flags flagged34 3 1 flagged34_reachable eq_refl)
    as (g' & He & Hnf & _).
  - unfold inB. simpl. lia.
  - vm_compute. discriminate.
  - intros b Hb. vm_compute in Hb.
    repeat (apply elem_of_cons in Hb as [-> | Hb]; [vm_compute; congruence|]).
    inversion Hb.
  - exists g'. split; [exact He|exact Hnf].
Defined.

(** * Only Hidden blocks are uncovered *)

Lemma die_status this x y :
  wf this -> inB this x y -> status (context (_die this x y)) = FAILED.
Proof.
  intros Hwf Hin. destruct (die_spec this x y Hwf Hin) as (m & -> & _).
  reflexivity.
Qed.

(** X3: a [sweep] or an [explore] after which the game is still on has
    changed no block that showed a flag, a question mark or a count: what
    these two operations uncover was Hidden. *)
Theorem only_hidden_blocks_change this x y st g' :
  reachable this ->
  sweep this x y = Ok (st, g') \/ explore this x y = Ok (st, g') ->
  status (context g') = PLAYING ->
  forall x' y', inB this x' y' ->
    blockAt this x' y' <> EBlockStatus.UNKNWON ->
    blockAt g' x' y' = blockAt this x' y'.
Proof.
  intros Hr [Hs|He] Hst'.
  - destruct (sweep_Ok_Int _ _ _ _ _ Hs) as (xi & yi & -> & -> & Hin).
    destruct (sweep_cases this xi yi Hr Hin) as (g'' & Hs' & _ & _ & Hcase).
    rewrite Hs' in Hs. injection Hs as _ ->.
    destruct Hcase as [->|[(_ & _ & _ & ->)|(_ & _ & _ & _ & _ & Hkeep & _)]].
    + reflexivity.
    + rewrite die_status in Hst'; [discriminate| |exact Hin].
      apply (reachable_Inv _ Hr).
    + exact (Hkeep Hst').
  - destruct (explore_Ok_Int _ _ _ _ _ He) as (xi & yi & -> & -> & Hin).
    rewrite (explore_unfold this xi yi Hin) in He.
    destruct (status (context this)) eqn:Hst;
      cbn [status_eqb negb orb] in He;
      [|injection He as _ <-; reflexivity..].
    destruct (blockAt this xi yi <? 0); [injection He as _ <-; reflexivity|].
    destruct (_ >=? _); [|injection He as _ <-; reflexivity].
    destruct (exploreLoop_keeps
                (fun t => evolves this t /\
                   (status (context t) = PLAYING ->
                    forall x' y', inB this x' y' ->
                      blockAt this x' y' <> EBlockStatus.UNKNWON ->
                      blockAt t x' y' = blockAt this x' y'))
                (_findBlocksAround this xi yi))
      with (blks := _findBlocksAround this xi yi) (this := this)
      as (g'' & He' & _ & _ & _ & Hkeep).
    + intros t b g1 Hrt Hstt (Hevt & Hkt) Hb Hbin Hu Hs.
      destruct (sweep_cases t (X b) (Y b) Hrt Hbin)
        as (g2 & Hs' & _ & Hev' & Hcase).
      rewrite Hs' in Hs. injection Hs as _ ->.
      split; [eapply evolves_trans; eassumption|]. intros Hst1 x' y' Hin' Hnu.
      destruct Hcase
        as [->|[(_ & _ & _ & ->)|(_ & _ & _ & _ & _ & Hkeep & _)]].
      * apply Hkt; assumption.
      * rewrite die_status in Hst1; [discriminate| |exact Hbin].
        apply (reachable_Inv _ Hrt).
      * rewrite (Hkeep Hst1 x' y');
          [apply Hkt; assumption|eapply evolves_inB; eassumption|].
        rewrite (Hkt Hstt x' y' Hin' Hnu). exact Hnu.
    + intros b Hb. split; [exact Hb|].
      apply elem_of_findBlocksAround in Hb. apply Hb.
    + exact Hr.
    + exact Hst.
    + split; [apply evolves_refl|]. intros; reflexivity.
    + rewrite He' in He. injection He as _ <-. exact (Hkeep Hst').
Qed.

(** [flagged34] after the count between the two flags has been explored. *)
Definition explored34 : IPrivateData :=
  update game34 [[-1; -1; 1; -2]; [-1; -1; 2; 2]; [-1; -1; 1; -2]]
    PLAYING 0 6.

Lemma only_hidden_blocks_change_witness :
  explore flagged34 (Int 3) (Int 1) = Ok (PLAYING, explored34) /\
  blockAt explored34 3 0 = blockAt flagged34 3 0.
Proof.
  split; [reflexivity|].
  apply (only_hidden_blocks_change flagged34 (Int 3) (Int 1) PLAYING
           explored34 flagged34_reachable).
  - right. reflexivity.
  - reflexivity.
  - unfold inB. simpl. lia.
  - vm_compute. discriminate.
Defined.


(** * Exploring with a misplaced flag *)

(** While a flag sits on a block without a mine, the loop of [explore]
    cannot win, so it runs until it sweeps a Hidden mine of its list. *)
Lemma exploreLoop_loses xs ys : forall blks this,
  reachable this -> status (context this) = PLAYING ->
  (forall b, b ∈ blks -> inB this (X b) (Y b)) ->
  inB this xs ys -> blockAt this xs ys = EBlockStatus.MARKED ->
  mineAt this xs ys <> MINE_FLAG ->
  (exists bm, bm ∈ blks /\
     blockAt this (X bm) (Y bm) = EBlockStatus.UNKNWON /\
     mineAt this (X bm) (Y bm) = MINE_FLAG) ->
  exists g', exploreLoop this blks = Ok (FAILED, g') /\
    status (context g') = FAILED /\ evolves this g'.
Proof.
  induction blks as [|b blks IH];
    intros this Hr Hst Hin Hsin Hsm Hss (bm & Hbm & Hbu & Hbmine).
  { inversion Hbm. }
  pose proof (reachable_Inv _ Hr) as [Hboard _].
  pose proof Hboard as (_ & Hwf & Hok & _).
  pose proof (Hin b (list_elem_of_here _ _)) as Hb.
  assert (Hrest : forall g1, evolves this g1 ->
            forall b', b' ∈ blks -> inB g1 (X b') (Y b')).
  { intros g1 Hev b' Hb'. apply (evolves_inB this g1 _ _ Hev).
    apply Hin. apply list_elem_of_further. exact Hb'. }
  cbn [exploreLoop].
  destruct (Z.eqb_spec (blockAt this (X b) (Y b)) EBlockStatus.UNKNWON)
    as [Hu|Hu].
  - destruct (Z.eq_dec (mineAt this (X b) (Y b)) MINE_FLAG) as [Hm|Hm].
    + rewrite (sweep_mine this (X b) (Y b) Hst Hb Hu Hm). cbn [bind snd].
      rewrite (die_status this (X b) (Y b) Hwf Hb). simpl.
      exists (_die this (X b) (Y b)). split; [reflexivity|].
      split; [apply (die_status this (X b) (Y b) Hwf Hb)|].
      destruct (die_spec this (X b) (Y b) Hwf Hb) as (m & -> & _).
      eexists _, _, _, _. reflexivity.
    + destruct (sweep_safe_full this (X b) (Y b) Hr Hst Hb Hu Hm)
        as (g1 & Hs & Hev1 & Hst1 & _ & _ & Hrev & _ & HI' & Hnf & Hfin).
      assert (Hs1 : blockAt g1 xs ys = EBlockStatus.MARKED).
      { destruct (Hrev xs ys Hsin) as [E|(E & _)].
        - unfold blockAt. rewrite E. exact Hsm.
        - unfold blockAt in Hsm. rewrite Hsm in E. discriminate. }
      pose proof (minesOK_count this xs ys Hok Hsin Hss) as Hcnt.
      assert (Hp : status (context (_checkWin g1)) = PLAYING).
      { destruct (status (context (_checkWin g1))) eqn:Hst';
          [reflexivity| |contradiction].
        exfalso. destruct HI' as [_ Hwon]. rewrite Hst' in Hwon.
        destruct Hwon as (_ & _ & Hc).
        pose proof (Hc xs ys) as Hc'.
        destruct (sweep_cases this (X b) (Y b) Hr Hb)
          as (g'' & Hs'' & _ & Hev'' & _).
        rewrite Hs in Hs''. injection Hs'' as _ Hg. rewrite <- Hg in Hev''.
        rewrite (evolves_mineAt _ _ xs ys Hev'') in Hc'.
        specialize (Hc' (evolves_inB _ _ _ _ Hev'' Hsin)).
        destruct (Z.eqb_spec (mineAt this xs ys) MINE_FLAG); [contradiction|].
        destruct (Hfin xs ys Hsin) as [E|(_ & E & _)]; [|contradiction].
        rewrite E, Hs1 in Hc'. unfold EBlockStatus.MARKED in Hc'. lia. }
      rewrite Hs. cbn [bind snd]. rewrite Hp. simpl.
      rewrite (checkWin_playing g1 Hp) in *.
      destruct (IH g1) as (g' & He & Hf & Hev').
      * exact (reach_sweep _ _ _ _ _ Hr Hs).
      * exact Hst1.
      * exact (Hrest g1 Hev1).
      * exact (evolves_inB _ _ _ _ Hev1 Hsin).
      * exact Hs1.
      * rewrite (evolves_mineAt _ _ _ _ Hev1). exact Hss.
      * exists bm. apply elem_of_cons in Hbm as [E|Hbm]; [congruence|].
        split; [exact Hbm|].
        rewrite (evolves_mineAt _ _ _ _ Hev1). split; [|exact Hbmine].
        assert (Hbin : inB this (X bm) (Y bm)).
        { apply Hin. apply list_elem_of_further. exact Hbm. }
        destruct (Hrev _ _ Hbin) as [E|(_ & _ & Hpos & _)].
        -- unfold blockAt in *. rewrite E. exact Hbu.
        -- rewrite Hbmine in Hpos. unfold MINE_FLAG in Hpos. lia.
      * exists g'. split; [exact He|]. split; [exact Hf|].
        apply (evolves_trans _ g1); assumption.
  - cbn [bind]. rewrite Hst. simpl.
    destruct (IH this) as (g' & He & Hf & Hev'); try assumption.
    + intros b' Hb'. apply Hin. apply list_elem_of_further. exact Hb'.
    + exists bm. apply elem_of_cons in Hbm as [E|Hbm]; [congruence|].
      auto.
    + exists g'. auto.
Qed.

(** X4: [explore] on a visible count with at least as many flags around
    as the count, while a Hidden block around it holds a mine, loses the
    game: one of the flags is then misplaced, so no sweep of the loop can
    win before the mine is swept. *)
Theorem explore_with_hidden_mine_loses this x y bm :
  reachable this -> status (context this) = PLAYING -> inB this x y ->
  0 <= blockAt this x y ->
  mineAt this x y <= flagsAround this x y ->
  bm ∈ _findBlocksAround this x y ->
  blockAt this (X bm) (Y bm) = EBlockStatus.UNKNWON ->
  mineAt this (X bm) (Y bm) = MINE_FLAG ->
  exists g',
    explore this (Int x) (Int y) = Ok (FAILED, g') /\
    status (context g') = FAILED /\
    mines (context g') = mines (context this).
Proof.
  intros Hr Hst Hin Hpos Hge Hbm Hbu Hbmine.
  pose proof (reachable_Inv _ Hr) as [Hboard Hplay]. rewrite Hst in Hplay.
  destruct Hplay as (Hcells & _). destruct Hboard as (_ & _ & Hok & _).
  assert (Hcount : mineAt this x y = minedAround this x y).
  { destruct (Hcells x y Hin) as [E|[E|[E|[E Hne]]]];
      unfold EBlockStatus.UNKNWON, EBlockStatus.MARKED,
        EBlockStatus.QUESTION in E; try lia.
    destruct (Hok x y Hin) as [E'|E']; [contradiction|exact E']. }
  assert (Hflag : exists bs, bs ∈ _findBlocksAround this x y /\
            blockAt this (X bs) (Y bs) = EBlockStatus.MARKED /\
            mineAt this (X bs) (Y bs) <> MINE_FLAG).
  { destruct (decide (Forall
        (fun b => blockAt this (X b) (Y b) = EBlockStatus.MARKED ->
                  mineAt this (X b) (Y b) = MINE_FLAG)
        (_findBlocksAround this x y))) as [Hall|Hex].
    - exfalso. rewrite Forall_forall in Hall.
      pose proof (countIf_lt
        (fun b => blockAt this (X b) (Y b) =? EBlockStatus.MARKED)
        (fun b => mineAt this (X b) (Y b) =? MINE_FLAG)
        (_findBlocksAround this x y) bm) as Hlt.
      unfold flagsAround, minedAround in *.
      assert (countIf
                (fun b => blockAt this (X b) (Y b) =? EBlockStatus.MARKED)
                (_findBlocksAround this x y) <
              countIf (fun b => mineAt this (X b) (Y b) =? MINE_FLAG)
                (_findBlocksAround this x y)); [|lia].
      apply Hlt.
      + intros a Ha Hfa. apply Z.eqb_eq in Hfa. apply Z.eqb_eq.
        apply Hall; assumption.
      + exact Hbm.
      + rewrite Hbu. reflexivity.
      + apply Z.eqb_eq. exact Hbmine.
    - apply not_Forall_Exists in Hex; [|intros b; apply _].
      apply Exists_exists in Hex as (bs & Hbs & Hn). exists bs.
      split; [exact Hbs|].
      destruct (Z.eq_dec (blockAt this (X bs) (Y bs)) EBlockStatus.MARKED)
        as [E|E]; [|exfalso; apply Hn; intros E'; contradiction].
      split; [exact E|]. intros Hm. apply Hn. intros _. exact Hm. }
  destruct Hflag as (bs & Hbs & Hsm & Hss).
  rewrite (explore_unfold this x y Hin), Hst.
  destruct (Z.ltb_spec (blockAt this x y) 0) as [|_]; [lia|].
  simpl negb. simpl orb. cbv iota.
  destruct (Z.geb_spec (flagsAround this x y) (mineAt this x y)) as [_|Hlt];
    [|lia].
  destruct (exploreLoop_loses (X bs) (Y bs) (_findBlocksAround this x y) this)
    as (g' & He & Hf & Hev); try assumption.
  - intros b Hb. apply elem_of_findBlocksAround in Hb. apply Hb.
  - apply elem_of_findBlocksAround in Hbs. apply Hbs.
  - exists bm. auto.
  - exists g'. split; [exact He|]. split; [exact Hf|].
    destruct Hev as (m & st & um & un & ->). reflexivity.
Qed.

(** [game34] with two flags on blocks without a mine, beside the visible
    count between the two mines. *)
Definition misflagged34 : IPrivateData :=
  update game34 [[-1; -1; -2; -1]; [-1; -1; -1; 2]; [-1; -1; -2; -1]]
    PLAYING 0 9.

Lemma misflagged34_reachable : reachable misflagged34.
Proof.
  apply (reach_sweep
           (update game34
              [[-1; -1; -2; -1]; [-1; -1; -1; -1]; [-1; -1; -2; -1]]
              PLAYING 0 10) (Int 3) (Int 1) PLAYING); [|reflexivity].
  apply (reach_mark
           (update game34
              [[-1; -1; -2; -1]; [-1; -1; -1; -1]; [-1; -1; -1; -1]]
              PLAYING 1 11) (Int 2) (Int 2) EMarkStyle.MINE true);
    [|reflexivity].
  apply (reach_mark game34 (Int 2) (Int 0) EMarkStyle.MINE true);
    [exact game34_reachable|reflexivity].
Qed.

Lemma explore_with_hidden_mine_loses_witness :
  exists g',
    explore misflagged34 (Int 3) (Int 1) = Ok (FAILED, g') /\
    status (context g') = FAILED.
Proof.
  destruct (explore_with_hidden_mine_loses misflagged34 3 1 (mkBlock 3 0)
              misflagged34_reachable eq_refl) as (g' & He & Hf & _).
  - unfold inB. simpl. lia.
  - vm_compute. discriminate.
  - vm_compute. discriminate.
  - apply elem_of_findBlocksAround. unfold adj, inB. simpl. lia.
  - reflexivity.
  - reflexivity.
  - exists g'. split; [exact He|exact Hf].
Defined.


(** * Lost games *)

Definition isWrong (v : Z) : bool := v =? EBlockStatus.WRONG.

(** The number of blocks that show a wrong flag. *)
Definition wrongBlocks (this : IPrivateData) : Z :=
  countG (height this) (width this) isWrong (blocks (context this)).

(** What the board of a lost game looks like. *)
Definition lostOK (this : IPrivateData) : Prop :=
  (exists x y, inB this x y /\
     forall x' y', inB this x' y' ->
       (blockAt this x' y' = EBlockStatus.DEAD <-> (x' = x /\ y' = y))) /\
  (forall x y, inB this x y -> mineAt this x y = MINE_FLAG ->
     blockAt this x y = EBlockStatus.DEAD \/
     blockAt this x y = EBlockStatus.MINE \/
     blockAt this x y = EBlockStatus.MARKED) /\
  (forall x y, inB this x y -> mineAt this x y <> MINE_FLAG ->
     blockAt this x y = EBlockStatus.WRONG \/
     blockAt this x y = mineAt this x y \/
     (showMinesOnlyOnFailed this = true /\
      (blockAt this x y = EBlockStatus.UNKNWON \/
       blockAt this x y = EBlockStatus.QUESTION))) /\
  unmarkedMines (context this) =
    mineQuantity this - markedBlocks this - wrongBlocks this.

(** The [switch] of [_die] on a block of a game that was on. *)
Lemma dieUpd_cases this b v :
  (mineAt this (X b) (Y b) <> -1 -> 0 <= mineAt this (X b) (Y b)) ->
  v = -1 \/ v = -2 \/ v = -3 \/
  (v = mineAt this (X b) (Y b) /\ mineAt this (X b) (Y b) <> -1) ->
  let v' := dieUpd this b v in
  v' <> -6 /\
  (mineAt this (X b) (Y b) = -1 -> v' = -5 \/ v' = -2) /\
  (mineAt this (X b) (Y b) <> -1 ->
   v' = -4 \/ v' = mineAt this (X b) (Y b) \/
   (showMinesOnlyOnFailed this = true /\ (v' = -1 \/ v' = -3))) /\
  (if isMarked v then 1 else 0 : Z) =
  (if isMarked v' then 1 else 0) + (if isWrong v' then 1 else 0).
Proof.
  intros Hpos Hv v'. subst v'.
  unfold dieUpd, isMarked, isWrong, EBlockStatus.UNKNWON, EBlockStatus.MARKED,
    EBlockStatus.QUESTION, EBlockStatus.WRONG, EBlockStatus.MINE, MINE_FLAG.
  destruct (showMinesOnlyOnFailed this);
    destruct (Z.eqb_spec v (-2)), (Z.eqb_spec v (-3)), (Z.eqb_spec v (-1)),
      (Z.eqb_spec (mineAt this (X b) (Y b)) (-1)); simpl;
    repeat match goal with
           | |- context [?a =? ?c] => destruct (Z.eqb_spec a c)
           end;
    repeat split; intros; try lia; auto 6.
Qed.

Lemma die_lostOK this x y :
  Inv this -> status (context this) = PLAYING -> inB this x y ->
  blockAt this x y = EBlockStatus.UNKNWON -> mineAt this x y = MINE_FLAG ->
  lostOK (_die this x y).
Proof.
  intros [Hboard Hplay] Hst Hin Hu Hm. rewrite Hst in Hplay.
  destruct Hplay as (Hcells & [_ Hum] & _).
  pose proof Hboard as (_ & Hwf & Hok & _).
  destruct (die_spec this x y Hwf Hin) as (m & -> & Hs & Hc).
  assert (Hat : cell m x y = EBlockStatus.DEAD).
  { rewrite (Hc x y Hin), !Z.eqb_refl. reflexivity. }
  assert (Hoff : forall x' y', inB this x' y' -> (x' <> x \/ y' <> y) ->
            cell m x' y' = dieUpd this (mkBlock x' y') (blockAt this x' y')).
  { intros x' y' Hin' Hne. rewrite (Hc x' y' Hin').
    assert ((x' =? x) && (y' =? y) = false) as ->; [|reflexivity].
    apply andb_false_iff. rewrite !Z.eqb_neq. exact Hne. }
  assert (Hcase : forall x' y', inB this x' y' -> (x' <> x \/ y' <> y) ->
            cell m x' y' <> -6 /\
            (mineAt this x' y' = -1 -> cell m x' y' = -5 \/ cell m x' y' = -2) /\
            (mineAt this x' y' <> -1 ->
             cell m x' y' = -4 \/ cell m x' y' = mineAt this x' y' \/
             (showMinesOnlyOnFailed this = true /\
              (cell m x' y' = -1 \/ cell m x' y' = -3))) /\
            (if isMarked (blockAt this x' y') then 1 else 0 : Z) =
            (if isMarked (cell m x' y') then 1 else 0) +
            (if isWrong (cell m x' y') then 1 else 0)).
  { intros x' y' Hin' Hne. rewrite (Hoff x' y' Hin' Hne).
    apply (dieUpd_cases this (mkBlock x' y') (blockAt this x' y')).
    - apply (minesOK_count this x' y' Hok Hin').
    - exact (Hcells x' y' Hin'). }
  split; [|split; [|split]].
  - exists x, y. split; [exact Hin|]. intros x' y' Hin'.
    change (blockAt (update this m _ _ _) x' y') with (cell m x' y').
    destruct (decide (x' = x /\ y' = y)) as [[-> ->]|Hne].
    + split; auto.
    + split; [|intros; contradiction]. intros E.
      destruct (Hcase x' y' Hin') as (Hd & _); [lia|].
      exfalso. apply Hd. exact E.
  - intros x' y' Hin' Hm'.
    change (blockAt (update this m _ _ _) x' y') with (cell m x' y').
    change (mineAt (update this m _ _ _) x' y') with (mineAt this x' y') in Hm'.
    destruct (decide (x' = x /\ y' = y)) as [[-> ->]|Hne]; [left; exact Hat|].
    destruct (Hcase x' y' Hin') as (_ & H & _); [lia|].
    right. exact (H Hm').
  - intros x' y' Hin' Hm'.
    change (blockAt (update this m _ _ _) x' y') with (cell m x' y').
    change (mineAt (update this m _ _ _) x' y') with (mineAt this x' y') in *.
    change (showMinesOnlyOnFailed (update this m _ _ _))
      with (showMinesOnlyOnFailed this).
    destruct (decide (x' = x /\ y' = y)) as [[-> ->]|Hne]; [contradiction|].
    destruct (Hcase x' y' Hin') as (_ & _ & H & _); [lia|].
    exact (H Hm').
  - change (unmarkedMines (context this) =
            mineQuantity this -
            countG (height this) (width this) isMarked m -
            countG (height this) (width this) isWrong m).
    assert (markedBlocks this =
            countG (height this) (width this) isMarked m +
            countG (height this) (width this) isWrong m) as Hsum; [|lia].
    unfold markedBlocks, countG. apply countIf_add.
    intros b Hb. apply elem_of_byRows in Hb.
    fold (blockAt this (X b) (Y b)).
    destruct (decide (X b = x /\ Y b = y)) as [[Ex Ey]|Hne].
    + rewrite Ex, Ey, Hu, Hat. reflexivity.
    + destruct (Hcase _ _ Hb) as (_ & _ & _ & H); [lia|exact H].
Qed.

Lemma reachable_lostOK g :
  reachable g -> status (context g) = FAILED -> lostOK g.
Proof.
  induction 1 as [h w q s now draws g Hdr Hc
                 |this now draws g Hr IH Hdr Hrs
                 |this x y style r g Hr IH Hm
                 |this x y st g Hr IH Hs
                 |this x y st g Hr IH He]; intros Hst.
  - apply createMineSweeper_restart in Hc as (base & _ & _ & _ & _ & _ & _ & _ & _ & Hrs).
    rewrite (restart_playing _ _ _ _ Hrs) in Hst. discriminate.
  - rewrite (restart_playing _ _ _ _ Hrs) in Hst. discriminate.
  - destruct (status (context this)) eqn:Hst0.
    + rewrite (proj1 (mark_playing this x y style r g
                        (reachable_Inv _ Hr) Hst0 Hm)) in Hst. discriminate.
    + unfold mark in Hm. rewrite Hst0 in Hm. simpl in Hm.
      injection Hm as _ <-. congruence.
    + unfold mark in Hm. rewrite Hst0 in Hm. simpl in Hm.
      injection Hm as _ <-. apply IH. reflexivity.
  - destruct (sweep_Ok_Int _ _ _ _ _ Hs) as (xi & yi & -> & -> & Hin).
    destruct (sweep_cases this xi yi Hr Hin) as (g' & Hs' & _ & _ & Hcase).
    rewrite Hs' in Hs. injection Hs as _ ->.
    destruct Hcase as [->|[(H1 & H2 & H3 & ->)|(_ & _ & _ & Hnf & _)]].
    + apply IH. exact Hst.
    + apply die_lostOK; try assumption. apply (reachable_Inv _ Hr).
    + contradiction.
  - destruct (explore_Ok_Int _ _ _ _ _ He) as (xi & yi & -> & -> & Hin).
    rewrite (explore_unfold this xi yi Hin) in He.
    destruct (status (context this)) eqn:Hst0;
      cbn [status_eqb negb orb] in He;
      [|injection He as _ <-; apply IH; congruence..].
    destruct (blockAt this xi yi <? 0);
      [injection He as _ <-; congruence|].
    destruct (_ >=? _); [|injection He as _ <-; congruence].
    destruct (exploreLoop_keeps
                (fun t => status (context t) = FAILED -> lostOK t)
                (_findBlocksAround this xi yi))
      with (blks := _findBlocksAround this xi yi) (this := this)
      as (g' & He' & _ & _ & HP).
    + intros t b g1 Hrt Hstt HPt Hb Hbin Hu Hs Hst1.
      destruct (sweep_cases t (X b) (Y b) Hrt Hbin)
        as (g2 & Hs' & _ & _ & Hcase).
      rewrite Hs' in Hs. injection Hs as _ ->.
      destruct Hcase as [->|[(H1 & H2 & H3 & ->)|(_ & _ & _ & Hnf & _)]].
      * apply HPt. exact Hst1.
      * apply die_lostOK; try assumption. apply (reachable_Inv _ Hrt).
      * contradiction.
    + intros b Hb. split; [exact Hb|].
      apply elem_of_findBlocksAround in Hb. apply Hb.
    + exact Hr.
    + exact Hst0.
    + intros H0. congruence.
    + rewrite He' in He. injection He as _ <-. exact (HP Hst).
Qed.

(** X5: in every reachable game that is lost, exactly one block shows the
    exploded mine; every mine shows as exploded, revealed or flagged; every
    block without a mine shows a wrong flag or its count, or is still
    covered when [showMinesOnlyOnFailed] is set: no flag is left on a block
    without a mine and no mine is left covered. *)
Theorem lost_board_tells_the_truth this :
  reachable this -> status (context this) = FAILED ->
  (exists x y, inB this x y /\
     forall x' y', inB this x' y' ->
       (blockAt this x' y' = EBlockStatus.DEAD <-> (x' = x /\ y' = y))) /\
  (forall x y, inB this x y -> mineAt this x y = MINE_FLAG ->
     blockAt this x y = EBlockStatus.DEAD \/
     blockAt this x y = EBlockStatus.MINE \/
     blockAt this x y = EBlockStatus.MARKED) /\
  (forall x y, inB this x y -> mineAt this x y <> MINE_FLAG ->
     blockAt this x y = EBlockStatus.WRONG \/
     blockAt this x y = mineAt this x y \/
     (showMinesOnlyOnFailed this = true /\
      (blockAt this x y = EBlockStatus.UNKNWON \/
       blockAt this x y = EBlockStatus.QUESTION))).
Proof.
  intros Hr Hst.
  destruct (reachable_lostOK this Hr Hst) as (H1 & H2 & H3 & _). auto.
Qed.

Lemma lost_board_tells_the_truth_witness :
  blockAt lost22 1 1 = EBlockStatus.DEAD \/
  blockAt lost22 1 1 = EBlockStatus.MINE \/
  blockAt lost22 1 1 = EBlockStatus.MARKED.
Proof.
  apply (lost_board_tells_the_truth lost22 lost22_reachable eq_refl).
  - unfold inB. simpl. lia.
  - reflexivity.
Defined.

(** X6: [getRestMineQuantity] is the number of mines minus the number of
    flags while the game is on, zero once it is won, and the number of mines
    minus the flags, right or wrong, once it is lost: it counts flags, not
    mines found, and is negative when there are more flags than mines. *)
Theorem rest_mines_counts_flags this :
  reachable this ->
  getRestMineQuantity this =
  match status (context this) with
  | PLAYING => mineQuantity this - markedBlocks this
  | WIN => 0
  | FAILED => mineQuantity this - markedBlocks this - wrongBlocks this
  end.
Proof.
  intros Hr. unfold getRestMineQuantity.
  destruct (reachable_Inv _ Hr) as [_ HI].
  destruct (status (context this)) eqn:Hst.
  - apply HI.
  - apply HI.
  - apply (reachable_lostOK this Hr Hst).
Qed.

Lemma rest_mines_counts_flags_witness :
  getRestMineQuantity flagged34 = 0 /\ markedBlocks flagged34 = 2.
Proof.
  split; [|reflexivity].
  apply (rest_mines_counts_flags flagged34 flagged34_reachable).
Defined.


(** * Marking twice, marking back *)

Lemma setCell_twice (m : grid) x y v v' :
  setCell (setCell m x y v') x y v = setCell m x y v.
Proof.
  unfold setCell. rewrite list_alter_alter_eq.
  apply list_alter_ext; [|reflexivity].
  intros row _. simpl. apply list_insert_insert_eq.
Qed.

(** The style that asks for the state a block shows. *)
Definition styleOf (v : Z) : EMarkStyle.t :=
  if v =? EBlockStatus.MARKED then EMarkStyle.MINE
  else if v =? EBlockStatus.QUESTION then EMarkStyle.QUESTION
  else EMarkStyle.UNMARKED.

Lemma markTable_again v style d v' :
  markTable v style = Some (d, v') -> markTable v' style = Some (0, v').
Proof.
  unfold markTable, EBlockStatus.UNKNWON, EBlockStatus.MARKED,
    EBlockStatus.QUESTION.
  destruct (Z.eqb_spec v (-1)) as [->|];
    [|destruct (Z.eqb_spec v (-3)) as [->|];
      [|destruct (Z.eqb_spec v (-2)) as [->|]; [|discriminate]]];
    destruct style; intros H; inversion H; subst; reflexivity.
Qed.

Lemma markTable_back v style d v' :
  markTable v style = Some (d, v') ->
  markTable v' (styleOf v) = Some (- d, v).
Proof.
  unfold markTable, styleOf, EBlockStatus.UNKNWON, EBlockStatus.MARKED,
    EBlockStatus.QUESTION.
  destruct (Z.eqb_spec v (-1)) as [->|];
    [|destruct (Z.eqb_spec v (-3)) as [->|];
      [|destruct (Z.eqb_spec v (-2)) as [->|]; [|discriminate]]];
    destruct style; intros H; inversion H; subst; reflexivity.
Qed.

(** An accepted [mark], taken apart. *)
Lemma mark_accepted this x y style g1 :
  reachable this -> mark this x y style = Ok (true, g1) ->
  exists xi yi d v',
    x = Int xi /\ y = Int yi /\ inB this xi yi /\
    status (context this) = PLAYING /\
    markTable (blockAt this xi yi) style = Some (d, v') /\
    g1 = update this (setCell (blocks (context this)) xi yi v') PLAYING
           (unmarkedMines (context this) + d) (unknowns (context this) + d).
Proof.
  intros Hr Hm. destruct (reachable_Inv _ Hr) as [Hboard Hplay].
  destruct (status (context this)) eqn:Hst;
    [|unfold mark in Hm; rewrite Hst in Hm; discriminate..].
  destruct Hplay as (_ & _ & Hne).
  destruct (_checkCoordinate this x y) eqn:Hchk.
  2:{ unfold mark, getBlock in Hm. rewrite Hst, Hchk in Hm. discriminate. }
  apply checkCoordinate_true in Hchk as (xi & yi & -> & -> & Hin).
  pose proof Hboard as (_ & Hwf & _).
  rewrite (mark_table this xi yi style Hwf Hst Hne Hin) in Hm.
  destruct (markTable (blockAt this xi yi) style) as [[d v']|] eqn:Ht;
    [|discriminate].
  injection Hm as <-. exists xi, yi, d, v'. auto 10.
Qed.

(** The second of two marks on the same block, read off the table. *)
Lemma mark_after_mark this xi yi style style2 d v' d2 v2 :
  reachable this -> inB this xi yi ->
  mark this (Int xi) (Int yi) style =
    Ok (true,
        update this (setCell (blocks (context this)) xi yi v') PLAYING
          (unmarkedMines (context this) + d) (unknowns (context this) + d)) ->
  markTable v' style2 = Some (d2, v2) ->
  mark (update this (setCell (blocks (context this)) xi yi v') PLAYING
          (unmarkedMines (context this) + d) (unknowns (context this) + d))
       (Int xi) (Int yi) style2 =
  Ok (true,
      update this (setCell (blocks (context this)) xi yi v2) PLAYING
        (unmarkedMines (context this) + d + d2)
        (unknowns (context this) + d + d2)).
Proof.
  intros Hr Hin Hm Ht.
  set (g1 := update this _ PLAYING _ _) in *.
  pose proof (reach_mark _ _ _ _ _ _ Hr Hm) as Hr1.
  destruct (reachable_Inv _ Hr1) as [Hboard1 Hplay1].
  change (status (context g1)) with PLAYING in Hplay1. cbv iota in Hplay1.
  destruct Hplay1 as (_ & _ & Hne1).
  destruct (reachable_Inv _ Hr) as [(_ & [Hb _] & _) _].
  assert (Hat : blockAt g1 xi yi = v').
  { unfold g1, blockAt. simpl. destruct Hin.
    rewrite (cell_setCell (height this) (width this)) by (assumption || lia).
    rewrite !Z.eqb_refl. reflexivity. }
  rewrite (mark_table g1 xi yi style2 (proj1 (proj2 Hboard1)) eq_refl Hne1 Hin).
  rewrite Hat, Ht. unfold g1. simpl. rewrite setCell_twice. reflexivity.
Qed.

(** X7: [mark] is idempotent: a mark that was accepted, asked again on the
    same block with the same style, is accepted again and changes nothing. *)
Theorem mark_twice_is_mark_once this x y style g1 :
  reachable this -> mark this x y style = Ok (true, g1) ->
  mark g1 x y style = Ok (true, g1).
Proof.
  intros Hr Hm.
  destruct (mark_accepted this x y style g1 Hr Hm)
    as (xi & yi & d & v' & -> & -> & Hin & Hst & Ht & ->).
  rewrite (mark_after_mark this xi yi style style d v' 0 v' Hr Hin Hm
             (markTable_again _ _ _ _ Ht)).
  rewrite !Z.add_0_r. reflexivity.
Qed.

Lemma mark_twice_is_mark_once_witness :
  mark (update game22 [[-1; -2]; [-1; -1]] PLAYING 1 3)
    (Int 1) (Int 0) EMarkStyle.MINE =
  Ok (true, update game22 [[-1; -2]; [-1; -1]] PLAYING 1 3).
Proof.
  apply (mark_twice_is_mark_once game22 (Int 1) (Int 0) EMarkStyle.MINE).
  - exact game22_reachable.
  - reflexivity.
Defined.

(** X8: an accepted [mark] is undone by marking the block with the style
    of what it showed before: the game is then the very game it was, block
    and counters. *)
Theorem mark_can_be_undone this x y style g1 :
  reachable this -> mark this x y style = Ok (true, g1) ->
  mark g1 x y (styleOf (blockAt this (intOf x) (intOf y))) = Ok (true, this).
Proof.
  intros Hr Hm.
  destruct (mark_accepted this x y style g1 Hr Hm)
    as (xi & yi & d & v' & -> & -> & Hin & Hst & Ht & ->).
  cbn [intOf].
  rewrite (mark_after_mark this xi yi style _ d v' _ _ Hr Hin Hm
             (markTable_back _ _ _ _ Ht)).
  destruct (reachable_Inv _ Hr) as [(_ & [Hb _] & _) _].
  f_equal. f_equal. unfold blockAt. destruct Hin.
  rewrite (setCell_same _ _ _ _ _ Hb) by assumption.
  replace (unmarkedMines (context this) + d + - d)
    with (unmarkedMines (context this)) by lia.
  replace (unknowns (context this) + d + - d)
    with (unknowns (context this)) by lia.
  rewrite <- Hst. apply update_id.
Qed.

Lemma mark_can_be_undone_witness :
  mark (update game22 [[-1; -2]; [-1; -1]] PLAYING 1 3)
    (Int 1) (Int 0) EMarkStyle.UNMARKED = Ok (true, game22).
Proof.
  apply (mark_can_be_undone game22 (Int 1) (Int 0) EMarkStyle.MINE).
  - exact game22_reachable.
  - reflexivity.
Defined.


(** * Progress of safe sweeps *)

(** X9: a sweep of a Hidden block without a mine, while the game is on,
    strictly lowers [unknowns], which never goes below zero: a game takes
    fewer safe sweeps than it has blocks. *)
Theorem safe_sweep_makes_progress this x y :
  reachable this -> status (context this) = PLAYING -> inB this x y ->
  blockAt this x y = EBlockStatus.UNKNWON -> mineAt this x y <> MINE_FLAG ->
  exists g',
    sweep this (Int x) (Int y) = Ok (status (context g'), g') /\
    0 <= unknowns (context g') < unknowns (context this) /\
    unknowns (context this) <= width this * height this.
Proof.
  intros Hr Hst Hin Hu Hm.
  destruct (sweep_cases this x y Hr Hin) as (g' & Hs & Hr' & _ & Hcase).
  exists g'. split; [exact Hs|].
  assert (Hlt : unknowns (context g') < unknowns (context this)).
  { destruct Hcase as [->|[(_ & _ & Hm' & _)|(_ & _ & _ & H)]].
    - exfalso. pose proof Hs as Hs0.
      destruct (sweep_safe_full this x y Hr Hst Hin Hu Hm)
        as (g1 & Hs1 & _ & _ & _ & Hfl & _ & _ & _ & _ & Hfin).
      rewrite Hs1 in Hs0. injection Hs0 as _ E.
      destruct (Hfl x y (floods_start _ _ _)) as (_ & _ & Hv & Hpos).
      destruct (Hfin x y Hin) as [E'|(_ & E' & _)]; [|contradiction].
      rewrite E, Hu, Hv in E'. unfold EBlockStatus.UNKNWON in E'. lia.
    - contradiction.
    - apply H. }
  destruct (reachable_Inv _ Hr') as [_ HI'].
  destruct (reachable_Inv _ Hr) as [(Hv & _) HI]. rewrite Hst in HI.
  destruct HI as (_ & [Hun _] & _).
  assert (hiddenBlocks this <= width this * height this) as Hle.
  { unfold hiddenBlocks, countG.
    eapply Z.le_trans; [apply countIf_le_length|].
    rewrite length_byRows. pose proof (validDims_width _ Hv).
    destruct Hv. lia. }
  split; [|lia]. split; [|exact Hlt].
  destruct (status (context g')) eqn:Hst'.
  - destruct HI' as (_ & [-> _] & _). apply countIf_nonneg.
  - destruct HI' as (-> & _). lia.
  - destruct Hcase as [->|[(_ & _ & Hm' & _)|(_ & _ & _ & Hnf & _)]];
      congruence.
Qed.

Lemma safe_sweep_makes_progress_witness :
  exists g',
    sweep game34 (Int 0) (Int 0) = Ok (status (context g'), g') /\
    0 <= unknowns (context g') < 12.
Proof.
  destruct (safe_sweep_makes_progress game34 0 0 game34_reachable eq_refl)
    as (g' & Hs & Hlt & _).
  - unfold inB. simpl. lia.
  - reflexivity.
  - discriminate.
  - exists g'. split; [exact Hs|exact Hlt].
Defined.

(** * What play and [restart] keep *)

(** X10: no accepted [mark], [sweep] or [explore] moves a mine, resizes the
    board, changes the options or restarts the clock, so [getUsedTime]
    keeps running through play; [restart] keeps the dimensions and the
    options and sets the clock to the time of the call. *)
Theorem play_keeps_the_layout this :
  reachable this ->
  (forall a g', accepted this a g' ->
     mines (context g') = mines (context this) /\
     getHeight g' = getHeight this /\ getWidth g' = getWidth this /\
     getMineQuantity g' = getMineQuantity this /\
     showMinesOnlyOnFailed g' = showMinesOnlyOnFailed this /\
     forall now, getUsedTime g' now = getUsedTime this now) /\
  (forall now draws g, restart this now draws = Ok g ->
     getHeight g = getHeight this /\ getWidth g = getWidth this /\
     getMineQuantity g = getMineQuantity this /\
     showMinesOnlyOnFailed g = showMinesOnlyOnFailed this /\
     getUsedTime g now = 0).
Proof.
  intros Hr. split.
  - intros a g' Ha.
    destruct (accepted_reachable this a g' Hr Ha)
      as [_ (m & st & um & un & ->)].
    repeat split.
  - intros now draws g Hrs.
    destruct (restart_keeps this now draws g Hrs) as (H1 & H2 & H3 & H4 & H5).
    unfold getHeight, getWidth, getMineQuantity, getUsedTime.
    rewrite H5. repeat split; try assumption. lia.
Qed.

Lemma play_keeps_the_layout_witness :
  mines (context won22) = mines (context played22) /\
  getUsedTime won22 5 = getUsedTime played22 5.
Proof.
  destruct (proj1 (play_keeps_the_layout played22 played22_reachable)
              (DoSweep (Int 0) (Int 1)) won22) as (H1 & _ & _ & _ & _ & H2).
  - exists WIN. reflexivity.
  - split; [exact H1|apply H2].
Defined.

(** * The map *)

Lemma mineAt_range this x y :
  minesOK this -> inB this x y -> -1 <= mineAt this x y <= 8.
Proof.
  intros Hok Hin. destruct (Hok x y Hin) as [E|E]; rewrite E.
  - unfold MINE_FLAG. lia.
  - pose proof (minedAround_nonneg this x y).
    pose proof (minedAround_le_8 this x y). lia.
Qed.

(** What a block of a reachable game can show: a status code or a count,
    and a count is the count of that block. *)
Lemma reachable_codes this x y :
  reachable this -> inB this x y ->
  -6 <= blockAt this x y <= 8 /\
  (0 <= blockAt this x y -> blockAt this x y = mineAt this x y).
Proof.
  intros Hr Hin.
  destruct (reachable_Inv _ Hr) as [(_ & _ & Hok & _) HI].
  pose proof (mineAt_range this x y Hok Hin) as HM.
  unfold EBlockStatus.UNKNWON, EBlockStatus.MARKED, EBlockStatus.QUESTION,
    EBlockStatus.WRONG, EBlockStatus.MINE, EBlockStatus.DEAD, MINE_FLAG in *.
  destruct (status (context this)) eqn:Hst.
  - destruct HI as (Hcells & _).
    destruct (Hcells x y Hin) as [E|[E|[E|[E _]]]];
      unfold EBlockStatus.UNKNWON, EBlockStatus.MARKED,
        EBlockStatus.QUESTION in E; lia.
  - destruct HI as (_ & _ & Hc). rewrite (Hc x y Hin).
    unfold EBlockStatus.MARKED, MINE_FLAG.
    destruct (Z.eqb_spec (mineAt this x y) (-1)); lia.
  - destruct (reachable_lostOK this Hr Hst) as (_ & Hmine & Hfree & _).
    unfold EBlockStatus.UNKNWON, EBlockStatus.MARKED, EBlockStatus.QUESTION,
      EBlockStatus.WRONG, EBlockStatus.MINE, EBlockStatus.DEAD, MINE_FLAG in *.
    destruct (Z.eq_dec (mineAt this x y) (-1)) as [Em|Em].
    + destruct (Hmine x y Hin Em) as [E|[E|E]]; lia.
    + destruct (Hfree x y Hin Em) as [E|[E|[_ [E|E]]]]; lia.
Qed.




(** * The constructor *)

Lemma create_invalid h w q s now draws :
  isInteger w = false \/ isInteger h = false \/ isInteger q = false \/
  intOf q < 2 \/ intOf h < 2 ->
  createMineSweeper h w q s now draws = Throw INVALID_GAME_MAP.
Proof.
  unfold createMineSweeper. intros H.
  destruct w as [w|], h as [h|], q as [q|]; try reflexivity.
  cbn [isInteger intOf negb orb] in *.
  destruct (Z.ltb_spec q 1), (Z.ltb_spec h 2), (Z.ltb_spec q 2);
    try reflexivity.
  destruct H as [H|[H|[H|[H|H]]]]; try discriminate; lia.
Qed.

Lemma create_valid h w q s now draws :
  2 <= q -> 2 <= h ->
  createMineSweeper (Int h) (Int w) (Int q) s now draws =
  if roundDouble q >=? roundDouble (w * h) then Throw TOO_MANY_MINES
  else restart {| context := nullContext; height := h; width := w;
                  mineQuantity := q; showMinesOnlyOnFailed := s |}
         now draws.
Proof.
  intros Hq Hh. unfold createMineSweeper. cbn [isInteger intOf negb orb].
  destruct (Z.ltb_spec q 1), (Z.ltb_spec h 2), (Z.ltb_spec q 2); try lia.
  reflexivity.
Qed.

(** The only error of [restart] is the one of [new Array]. *)
Lemma restart_throws this now draws e :
  restart this now draws = Throw e <->
  e = RangeError /\ arraysOK (height this) (width this) = false.
Proof.
  rewrite restart_unfold.
  destruct (arraysOK (height this) (width this)).
  - destruct (putMines _ _ _); split; try discriminate;
      intros [_ H]; discriminate.
  - split; [intros H; injection H as <-; auto|intros [-> _]; reflexivity].
Qed.

Lemma arraysOK_false h w :
  2 <= h -> 1 <= w ->
  arraysOK h w = false <-> (4294967295 < h \/ 4294967295 < w).
Proof.
  intros Hh Hw. unfold arraysOK.
  destruct (Z.leb_spec 0 h), (Z.leb_spec h 4294967295), (Z.eqb_spec h 0),
    (Z.leb_spec 0 w), (Z.leb_spec w 4294967295); cbn [andb orb];
    split; intros HH; try discriminate; try reflexivity; lia.
Qed.

(** X12: the constructor throws INVALID_GAME_MAP exactly when one of the
    three numbers is no integer, or [mineQuantity] or [height] is below 2;
    it throws TOO_MANY_MINES exactly when these tests pass and
    [mineQuantity] is at least the product [width * height] as a number,
    that is rounded to a double (the product itself while it is at most
    [2 ^ 53]), which is where a width of zero or less ends up, the width
    having no test of its own; it throws the [RangeError] of [new Array]
    exactly when all tests pass and the height or the width is above
    [2 ^ 32 - 1]; it throws nothing else; and a game it returns has the
    dimensions and the option it was given, with [width >= 1], fewer mines
    than blocks and both dimensions array lengths. *)
Theorem constructor_outcomes h w q s now draws :
  (createMineSweeper h w q s now draws = Throw INVALID_GAME_MAP <->
   (isInteger w = false \/ isInteger h = false \/ isInteger q = false \/
    intOf q < 2 \/ intOf h < 2)) /\
  (createMineSweeper h w q s now draws = Throw TOO_MANY_MINES <->
   (isInteger w = true /\ isInteger h = true /\ isInteger q = true /\
    2 <= intOf q /\ 2 <= intOf h /\
    roundDouble (intOf w * intOf h) <= roundDouble (intOf q))) /\
  (Z.abs (intOf w * intOf h) <= 2 ^ 53 -> Z.abs (intOf q) <= 2 ^ 53 ->
   (createMineSweeper h w q s now draws = Throw TOO_MANY_MINES <->
    (isInteger w = true /\ isInteger h = true /\ isInteger q = true /\
     2 <= intOf q /\ 2 <= intOf h /\ intOf w * intOf h <= intOf q))) /\
  (createMineSweeper h w q s now draws = Throw RangeError <->
   (isInteger w = true /\ isInteger h = true /\ isInteger q = true /\
    2 <= intOf q /\ 2 <= intOf h /\
    roundDouble (intOf q) < roundDouble (intOf w * intOf h) /\
    (4294967295 < intOf h \/ 4294967295 < intOf w))) /\
  createMineSweeper h w q s now draws <> Throw OUT_TO_BOUNDARY /\
  (intOf w <= 0 ->
   createMineSweeper h w q s now draws = Throw INVALID_GAME_MAP \/
   createMineSweeper h w q s now draws = Throw TOO_MANY_MINES) /\
  (forall g, createMineSweeper h w q s now draws = Ok g ->
     getHeight g = intOf h /\ getWidth g = intOf w /\
     getMineQuantity g = intOf q /\ showMinesOnlyOnFailed g = s /\
     1 <= getWidth g <= 4294967295 /\ 2 <= getHeight g <= 4294967295 /\
     2 <= getMineQuantity g < getWidth g * getHeight g).
Proof.
  assert (Hdec : (isInteger w = false \/ isInteger h = false \/
                  isInteger q = false \/ intOf q < 2 \/ intOf h < 2) \/
                 (exists wi hi qi, w = Int wi /\ h = Int hi /\ q = Int qi /\
                    2 <= qi /\ 2 <= hi)).
  { destruct w as [wi|], h as [hi|], q as [qi|]; simpl; auto 6.
    destruct (Z_lt_dec qi 2); [auto 6|]. destruct (Z_lt_dec hi 2); [auto 6|].
    right. exists wi, hi, qi. repeat split; lia. }
  destruct Hdec as [Hinv|(wi & hi & qi & -> & -> & -> & Hq & Hh)].
  - rewrite (create_invalid h w q s now draws Hinv).
    assert (Hno : ~ (isInteger w = true /\ isInteger h = true /\
                     isInteger q = true /\ 2 <= intOf q /\ 2 <= intOf h)).
    { intros (E1 & E2 & E3 & H1 & H2).
      destruct Hinv as [H|[H|[H|[H|H]]]]; try congruence; lia. }
    split; [split; [intros _; exact Hinv|reflexivity]|].
    split; [split; [discriminate|intros H; exfalso; apply Hno; tauto]|].
    split; [intros _ _; split;
              [discriminate|intros H; exfalso; apply Hno; tauto]|].
    split; [split; [discriminate|intros H; exfalso; apply Hno; tauto]|].
    split; [discriminate|]. split; [intros _; left; reflexivity|].
    intros g Hg. discriminate.
  - rewrite (create_valid hi wi qi s now draws Hq Hh). cbn [isInteger intOf].
    assert (Hnoinv : ~ (false = false \/ false = false \/ false = false \/
                        qi < 2 \/ hi < 2) -> True) by auto.
    destruct (Z.geb_spec (roundDouble qi) (roundDouble (wi * hi)))
      as [Hge|Hlt].
    + split; [split; [discriminate|]|].
      { intros [H|[H|[H|[H|H]]]]; try discriminate; lia. }
      split; [split; [intros _; repeat split; lia|reflexivity]|].
      split.
      { intros Hp Hqs. rewrite !roundDouble_small in Hge by assumption.
        split; [intros _; repeat split; lia|reflexivity]. }
      split; [split; [discriminate|intros (_ & _ & _ & _ & _ & H & _); lia]|].
      split; [discriminate|]. split; [intros _; right; reflexivity|].
      intros g Hg. discriminate.
    + pose proof (roundDouble_lt qi (wi * hi) ltac:(lia) Hlt) as Hlt'.
      assert (Hw : 1 <= wi) by nia.
      set (base := {| context := nullContext; height := hi; width := wi;
                      mineQuantity := qi; showMinesOnlyOnFailed := s |}).
      pose proof (restart_throws base now draws) as Hthrow.
      pose proof (arraysOK_false hi wi Hh Hw) as Harr.
      change (height base) with hi in Hthrow.
      change (width base) with wi in Hthrow.
      split; [split|].
      { intros H. apply Hthrow in H as [H _]. discriminate. }
      { intros [H|[H|[H|[H|H]]]]; try discriminate; lia. }
      split; [split|].
      { intros H. apply Hthrow in H as [H _]. discriminate. }
      { intros (_ & _ & _ & _ & _ & H). lia. }
      split.
      { intros _ _. split.
        - intros H. apply Hthrow in H as [H _]. discriminate.
        - intros (_ & _ & _ & _ & _ & H). lia. }
      split; [split|].
      { intros H. apply Hthrow in H as [_ H]. apply Harr in H.
        repeat split; try lia; assumption. }
      { intros (_ & _ & _ & _ & _ & _ & H). apply Hthrow.
        split; [reflexivity|]. apply Harr. exact H. }
      split; [intros H; apply Hthrow in H as [H _]; discriminate|].
      split; [intros; lia|].
      intros g Hg.
      pose proof (proj1 (proj1 (restart_Ok base now draws g) Hg)) as Hok.
      change (height base) with hi in Hok. change (width base) with wi in Hok.
      assert (~ (4294967295 < hi \/ 4294967295 < wi)) as Hin.
      { intros H. apply Harr in H. congruence. }
      destruct (restart_keeps _ _ _ _ Hg) as (H1 & H2 & H3 & H4 & _).
      unfold getHeight, getWidth, getMineQuantity.
      rewrite H1, H2, H3, H4. simpl. repeat split; try lia.
Qed.

Lemma constructor_outcomes_witness :
  createMineSweeper (Int 5) (Int 0) (Int 2) false 0 [] = Throw TOO_MANY_MINES /\
  createMineSweeper (Int 5) NonInt (Int 2) false 0 [] = Throw INVALID_GAME_MAP /\
  createMineSweeper (Int 134217729) (Int 134217729) (Int 18014398777917440)
    false 0 [] = Throw TOO_MANY_MINES /\
  createMineSweeper (Int 4294967296) (Int 1) (Int 2) false 0 [] =
    Throw RangeError.
Proof.
  split; [|split; [|split]].
  - apply (proj2 (proj1 (proj2
             (constructor_outcomes (Int 5) (Int 0) (Int 2) false 0 [])))).
    cbn [isInteger intOf]. repeat split; try lia.
    vm_compute. discriminate.
  - apply (proj2 (proj1
             (constructor_outcomes (Int 5) NonInt (Int 2) false 0 []))).
    left. reflexivity.
  - apply (proj2 (proj1 (proj2
             (constructor_outcomes (Int 134217729) (Int 134217729)
                (Int 18014398777917440) false 0 [])))).
    cbn [isInteger intOf]. repeat split; try lia.
    vm_compute. discriminate.
  - apply (proj2 (proj1 (proj2 (proj2 (proj2
             (constructor_outcomes (Int 4294967296) (Int 1) (Int 2)
                false 0 [])))))).
    cbn [isInteger intOf]. repeat split; lia.
Defined.

(** * The placement loop ends *)




(** * The map as the example prints it (src/examples/play-with-debug.ts) *)

From Stdlib Require String.
Import String.StringSyntax.
Delimit Scope string_scope with string.

(** [SYMBOL_MAP[i]] for a number [i], as [Array.prototype.join] renders it:
    the keys 0 to 9 have a symbol, any other number gives [undefined], which
    [join] turns into the empty string.  A string holds the UTF-8 bytes of
    the text of the source. *)
Definition SYMBOL_MAP_number (i : Z) : String.string :=
  if i =? 0 then "0️⃣"%string
  else if i =? 1 then "1️⃣"%string
  else if i =? 2 then "2️⃣"%string
  else if i =? 3 then "3️⃣"%string
  else if i =? 4 then "4️⃣"%string
  else if i =? 5 then "5️⃣"%string
  else if i =? 6 then "6️⃣"%string
  else if i =? 7 then "7️⃣"%string
  else if i =? 8 then "8️⃣"%string
  else if i =? 9 then "9️⃣"%string
  else String.EmptyString.

Module SYMBOL_MAP.
Definition blank : String.string := "⬜"%string.
Definition hash : String.string := "#️⃣"%string.
Definition mine : String.string := "💣"%string.
Definition dead : String.string := "💥"%string.
Definition mark : String.string := "⛳"%string.
Definition question : String.string := "❓"%string.
Definition wrong : String.string := "❌"%string.
Definition unknown : String.string := "⬛"%string.
End SYMBOL_MAP.

(** The [switch] of [printMap] on one entry of the map: what it pushes on
    the row.  No [case] means nothing is pushed. *)
Definition pushSymbol (v : Z) : list String.string :=
  if v =? EBlockStatus.DEAD then [SYMBOL_MAP.dead]
  else if v =? EBlockStatus.MINE then [SYMBOL_MAP.mine]
  else if v =? EBlockStatus.MARKED then [SYMBOL_MAP.mark]
  else if v =? EBlockStatus.QUESTION then [SYMBOL_MAP.question]
  else if v =? EBlockStatus.WRONG then [SYMBOL_MAP.wrong]
  else if v =? EBlockStatus.UNKNWON then [SYMBOL_MAP.unknown]
  else if v =? 0 then [SYMBOL_MAP.blank]
  else if (1 <=? v) && (v <=? 8) then [SYMBOL_MAP_number v]
  else [].

(** The symbols of row [i]: its number, then the inner loop over the
    columns. *)
Definition printRow (map : grid) (W : Z) (i : Z) : list String.string :=
  SYMBOL_MAP_number i :: (j ← seqZ 0 W; pushSymbol (cell map j i)).

(** [printMap]: the text handed to [console.log]. *)
Definition printMap (gctrl : IPrivateData) : String.string :=
  let H := getHeight gctrl in
  let W := getWidth gctrl in
  let header :=
    String.concat String.EmptyString
      (SYMBOL_MAP.hash :: (SYMBOL_MAP_number <$> seqZ 0 W)) in
  let map := getMap gctrl in
  let rows :=
    (fun i => String.concat String.EmptyString (printRow map W i)) <$> seqZ 0 H in
  String.concat (String.String (Ascii.ascii_of_nat 10) String.EmptyString)
    (header :: rows).

(** Reading a symbol of a row back. *)
Definition readSymbol (s : String.string) : option Z :=
  if String.eqb s SYMBOL_MAP.dead then Some EBlockStatus.DEAD
  else if String.eqb s SYMBOL_MAP.mine then Some EBlockStatus.MINE
  else if String.eqb s SYMBOL_MAP.mark then Some EBlockStatus.MARKED
  else if String.eqb s SYMBOL_MAP.question then Some EBlockStatus.QUESTION
  else if String.eqb s SYMBOL_MAP.wrong then Some EBlockStatus.WRONG
  else if String.eqb s SYMBOL_MAP.unknown then Some EBlockStatus.UNKNWON
  else if String.eqb s SYMBOL_MAP.blank then Some 0
  else
    match filter (fun v => String.eqb s (SYMBOL_MAP_number v) = true)
                 (seqZ 1 8) with
    | v :: _ => Some v
    | [] => None
    end.

Lemma pushSymbol_read v :
  -6 <= v <= 8 -> readSymbol <$> pushSymbol v = [Some v].
Proof.
  intros Hv.
  assert (v = -6 \/ v = -5 \/ v = -4 \/ v = -3 \/ v = -2 \/ v = -1 \/
          v = 0 \/ v = 1 \/ v = 2 \/ v = 3 \/ v = 4 \/ v = 5 \/
          v = 6 \/ v = 7 \/ v = 8) as Hc by lia.
  repeat (destruct Hc as [-> | Hc]; [vm_compute; reflexivity|]).
  subst v. vm_compute. reflexivity.
Qed.

(** X14: the example's printer loses nothing of a reachable game: in each
    row it prints, after the row number, one symbol for every column, in
    order, and reading the symbols back gives the row of [getMap]; no value
    of the map falls through its [switch]. *)
Theorem printMap_shows_every_block this i :
  reachable this -> 0 <= i < getHeight this ->
  readSymbol <$> tail (printRow (getMap this) (getWidth this) i) =
  (fun j => Some (cell (getMap this) j i)) <$> seqZ 0 (getWidth this).
Proof.
  intros Hr Hi. unfold printRow. cbn [tail].
  assert (Hall : forall j, j ∈ seqZ 0 (getWidth this) ->
            readSymbol <$> pushSymbol (cell (getMap this) j i) =
            [Some (cell (getMap this) j i)]).
  { intros j Hj. apply elem_of_seqZ in Hj. apply pushSymbol_read.
    unfold getMap. change (fun row : list Z => row) with (@id (list Z)).
    rewrite list_fmap_id.
    apply (reachable_codes this j i Hr).
    unfold inB. unfold getWidth in Hj. unfold getHeight in Hi. lia. }
  induction (seqZ 0 (getWidth this)) as [|j l IH]; [reflexivity|].
  rewrite bind_cons, fmap_app, fmap_cons.
  rewrite Hall by apply list_elem_of_here.
  rewrite IH; [reflexivity|].
  intros j' Hj'. apply Hall. apply list_elem_of_further. exact Hj'.
Qed.

Lemma printMap_shows_every_block_witness :
  readSymbol <$> tail (printRow (getMap lost22) (getWidth lost22) 1) =
  [Some 2; Some (-5)].
Proof.
  apply (printMap_shows_every_block lost22 1 lost22_reachable).
  unfold getHeight. simpl. lia.
Defined.
